(** * AutoComplete: the selection controller of [static/app/components/autoComplete.tsx]

    A shallow embedding of the [AutoComplete] React component: its state,
    its props, the item registry ([this.items]), the two timer handles and
    every handler method, written as computations over an explicit world
    (component instance, browser timer queue, trace of observable calls).

    React batches the [setState] calls made inside one event handler: the
    handler keeps reading the committed [this.state] while its updates wait
    in a queue, and the queue is applied in order when the handler returns.
    The embedding keeps that queue ([pending]) explicit.

    The browser's timers are a queue of pending callbacks with their due
    times; time is discrete, and when time passes the due timers fire in
    the order of their due times, oldest first among equals. *)

From stdpp Require Import gmap strings list.
From Stdlib Require Import ZArith Lia.

Local Open Scope Z_scope.

(** ** Items

    [type Item = {'data-test-id'?: string; disabled?: boolean}]; the
    component is generic in [T extends Item].  Items are objects, compared by
    reference ([!==]); the class carries the decidable identity. *)

Class Item (T : Type) := {
  item_disabled : T -> option bool;
  item_data_test_id : T -> option string;
  item_identity :: EqDecision T;
}.

(** JavaScript truthiness of an optional boolean field. *)
Definition truthy (b : option bool) : bool :=
  match b with
  | Some true => true
  | _ => false
  end.

(** ** Events delivered by the host *)

Inductive Event :=
| ChangeEvent (value : string)
| FocusEvent
| KeyboardEvent (key : string)
| MouseEvent.

Definition event_key (e : Event) : option string :=
  match e with
  | KeyboardEvent k => Some k
  | _ => None
  end.

Definition key_is (e : Event) (k : string) : bool :=
  bool_decide (event_key e = Some k).

(** ** State and props *)

Module State.
Record t (T : Type) := mk {
  highlightedIndex : Z;
  inputValue : string;
  isOpen : bool;
  selectedItem : option T;
}.
Arguments mk {T}.
Arguments highlightedIndex {T}.
Arguments inputValue {T}.
Arguments isOpen {T}.
Arguments selectedItem {T}.
End State.

(** The second argument React passes to the receive-props hook.  It is the
    next legacy context, not the next state, whatever the hook calls its
    parameter.  The class declares no context types, so the object is empty
    and a property read from it is [undefined]; [selectedItem] is the only
    property the hook reads. *)
Module Context.
Record t (T : Type) := mk {
  selectedItem : option T;
}.
Arguments mk {T}.
Arguments selectedItem {T}.
End Context.

Definition emptyContextObject {T} : Context.t T :=
  {| Context.selectedItem := None |}.

(** A partial state, the argument of [setState]. *)
Module Patch.
Record t (T : Type) := mk {
  highlightedIndex : option Z;
  inputValue : option string;
  isOpen : option bool;
  selectedItem : option (option T);
}.
Arguments mk {T}.
Arguments highlightedIndex {T}.
Arguments inputValue {T}.
Arguments isOpen {T}.
Arguments selectedItem {T}.

Definition merge {T} (s : State.t T) (p : t T) : State.t T :=
  State.mk
    (default (State.highlightedIndex s) (highlightedIndex p))
    (default (State.inputValue s) (inputValue p))
    (default (State.isOpen s) (isOpen p))
    (default (State.selectedItem s) (selectedItem p)).
End Patch.

(** [setState] takes either an object or an updater function. *)
Inductive Update (T : Type) :=
| UObject (p : Patch.t T)
| UFunction (f : State.t T -> Patch.t T).
Arguments UObject {T}.
Arguments UFunction {T}.

Definition apply_update {T} (s : State.t T) (u : Update T) : State.t T :=
  match u with
  | UObject p => Patch.merge s p
  | UFunction f => Patch.merge s (f s)
  end.

Definition apply_updates {T} (s : State.t T) (us : list (Update T)) : State.t T :=
  foldl apply_update s us.

(** What the render callback ([props.children]) does to the component while
    it runs: the binder calls it makes, in order. *)
Module GetItemArgs.
Record t (T : Type) := mk {
  index : option Z;
  item : option T;
}.
Arguments mk {T}.
Arguments index {T}.
Arguments item {T}.
End GetItemArgs.

Inductive BinderCall (T : Type) :=
| CallGetMenuProps (props : option (option Z))
| CallGetItemProps (itemProps : option (GetItemArgs.t T)).
Arguments CallGetMenuProps {T}.
Arguments CallGetItemProps {T}.

(** Optional callbacks are opaque caller code: a prop records whether the
    callback was supplied, and a call of a supplied callback is an entry of
    the trace. *)
Module Props.
Record t (T : Type) := mk {
  itemToString : T -> string;
  inputIsActor : bool;
  disabled : bool;
  closeOnSelect : bool;
  shouldSelectWithEnter : bool;
  shouldSelectWithTab : bool;
  children : State.t T -> list (BinderCall T);
  defaultHighlightedIndex : option Z;
  defaultInputValue : option string;
  isOpen : option bool;
  onClose : bool;
  onMenuOpen : bool;
  onOpen : bool;
  onSelect : bool;
  resetInputOnClose : option bool;
}.
Arguments mk {T}.
Arguments itemToString {T}.
Arguments inputIsActor {T}.
Arguments disabled {T}.
Arguments closeOnSelect {T}.
Arguments shouldSelectWithEnter {T}.
Arguments shouldSelectWithTab {T}.
Arguments children {T}.
Arguments defaultHighlightedIndex {T}.
Arguments defaultInputValue {T}.
Arguments isOpen {T}.
Arguments onClose {T}.
Arguments onMenuOpen {T}.
Arguments onOpen {T}.
Arguments onSelect {T}.
Arguments resetInputOnClose {T}.
End Props.

(** [const defaultProps], completed with the props that have no default. *)
Definition defaultProps {T} (children : State.t T -> list (BinderCall T)) : Props.t T :=
  {| Props.itemToString := fun _ => EmptyString;
     Props.inputIsActor := true;
     Props.disabled := false;
     Props.closeOnSelect := true;
     Props.shouldSelectWithEnter := true;
     Props.shouldSelectWithTab := false;
     Props.children := children;
     Props.defaultHighlightedIndex := None;
     Props.defaultInputValue := None;
     Props.isOpen := None;
     Props.onClose := false;
     Props.onMenuOpen := false;
     Props.onOpen := false;
     Props.onSelect := false;
     Props.resetInputOnClose := None |}.

(** ** Timers of the host ([window.setTimeout] / [window.clearTimeout]) *)

Inductive TimerCallback :=
| BlurClose (e : Event) (onBlur : bool)
| CancelBlur
| ResolveClickOutside.

Record Timer := mkTimer {
  timer_id : nat;
  timer_due : nat;
  timer_callback : TimerCallback;
}.

Record Window := mkWindow {
  now : nat;
  next_id : nat;
  queue : list Timer;
}.

(** ** Observable calls *)

Inductive Exn :=
| TypeError (msg : string).

Inductive Effect (T : Type) :=
| OnOpen
| OnClose
| OnSelect (item : T) (state : State.t T) (e : Event)
| OnChange (e : Event)
| OnKeyDown (e : Event)
| OnFocus (e : Event)
| OnBlur (e : Event)
| PreventDefault (e : Event)
| ConsoleWarn (msg : string)
| Uncaught (exn : Exn).
Arguments OnOpen {T}.
Arguments OnClose {T}.
Arguments OnSelect {T}.
Arguments OnChange {T}.
Arguments OnKeyDown {T}.
Arguments OnFocus {T}.
Arguments OnBlur {T}.
Arguments PreventDefault {T}.
Arguments ConsoleWarn {T}.
Arguments Uncaught {T}.

(** ** The component instance and the world it runs in *)

Record AutoComplete (T : Type) := mkAutoComplete {
  props : Props.t T;
  state : State.t T;
  pending : list (Update T);
  items : gmap Z (option T);
  itemCount : option Z;
  blurTimeout : option nat;
  cancelCloseTimeout : option nat;
}.
Arguments mkAutoComplete {T}.
Arguments props {T}.
Arguments state {T}.
Arguments pending {T}.
Arguments items {T}.
Arguments itemCount {T}.
Arguments blurTimeout {T}.
Arguments cancelCloseTimeout {T}.

Record World (T : Type) := mkWorld {
  self : AutoComplete T;
  window : Window;
  trace : list (Effect T);
}.
Arguments mkWorld {T}.
Arguments self {T}.
Arguments window {T}.
Arguments trace {T}.

(** ** A state monad over the world *)

Definition M (T A : Type) : Type := World T -> A * World T.

Definition ret {T A} (a : A) : M T A := fun w => (a, w).

Definition bind {T A B} (c : M T A) (k : A -> M T B) : M T B :=
  fun w => let (a, w') := c w in k a w'.

(** The sequencing notations are stdpp's: [x ← c; k] and [c;; k]. *)
#[global] Instance M_ret {T} : MRet (M T) := @ret T.
#[global] Instance M_bind {T} : MBind (M T) := fun A B k c => bind c k.

Definition gets {T A} (f : AutoComplete T -> A) : M T A :=
  fun w => (f (self w), w).

Definition modify {T} (f : AutoComplete T -> AutoComplete T) : M T unit :=
  fun w => (tt, mkWorld (f (self w)) (window w) (trace w)).

Definition emit {T} (eff : Effect T) : M T unit :=
  fun w => (tt, mkWorld (self w) (window w) (trace w ++ [eff])).

(** [callback?.(...)] *)
Definition call_opt {T} (supplied : bool) (eff : Effect T) : M T unit :=
  if supplied then emit eff else ret tt.

Definition when {T} (b : bool) (c : M T unit) : M T unit :=
  if b then c else ret tt.

(** The world after a computation, and its result. *)
Definition exec {T A} (c : M T A) (w : World T) : World T := snd (c w).
Definition eval {T A} (c : M T A) (w : World T) : A := fst (c w).

(** Field assignments on [this]. *)
Definition set_props {T} (p : Props.t T) (c : AutoComplete T) : AutoComplete T :=
  mkAutoComplete p (state c) (pending c) (items c) (itemCount c)
    (blurTimeout c) (cancelCloseTimeout c).

Definition set_state {T} (s : State.t T) (c : AutoComplete T) : AutoComplete T :=
  mkAutoComplete (props c) s (pending c) (items c) (itemCount c)
    (blurTimeout c) (cancelCloseTimeout c).

Definition set_pending {T} (us : list (Update T)) (c : AutoComplete T) : AutoComplete T :=
  mkAutoComplete (props c) (state c) us (items c) (itemCount c)
    (blurTimeout c) (cancelCloseTimeout c).

Definition set_items {T} (m : gmap Z (option T)) (c : AutoComplete T) : AutoComplete T :=
  mkAutoComplete (props c) (state c) (pending c) m (itemCount c)
    (blurTimeout c) (cancelCloseTimeout c).

Definition set_itemCount {T} (n : option Z) (c : AutoComplete T) : AutoComplete T :=
  mkAutoComplete (props c) (state c) (pending c) (items c) n
    (blurTimeout c) (cancelCloseTimeout c).

Definition set_blurTimeout {T} (h : option nat) (c : AutoComplete T) : AutoComplete T :=
  mkAutoComplete (props c) (state c) (pending c) (items c) (itemCount c)
    h (cancelCloseTimeout c).

Definition set_cancelCloseTimeout {T} (h : option nat) (c : AutoComplete T) : AutoComplete T :=
  mkAutoComplete (props c) (state c) (pending c) (items c) (itemCount c)
    (blurTimeout c) h.

(** [this.setState(u)]: queued until the handler returns. *)
Definition setState {T} (u : Update T) : M T unit :=
  modify (fun c => set_pending (pending c ++ [u]) c).

(** [window.setTimeout(cb, delay)] returns a fresh handle. *)
Definition setTimeout {T} (cb : TimerCallback) (delay : nat) : M T nat :=
  fun w =>
    let win := window w in
    let id := next_id win in
    (id, mkWorld (self w)
           (mkWindow (now win) (S id)
              (queue win ++ [mkTimer id (now win + delay)%nat cb]))
           (trace w)).

Definition cancel (id : nat) (q : list Timer) : list Timer :=
  filter (fun t => timer_id t ≠ id) q.

(** [window.clearTimeout(h)]: no effect on [undefined] or on a handle that
    is no longer pending. *)
Definition clearTimeout {T} (h : option nat) : M T unit :=
  fun w =>
    match h with
    | None => (tt, w)
    | Some id =>
        let win := window w in
        (tt, mkWorld (self w)
               (mkWindow (now win) (next_id win) (cancel id (queue win)))
               (trace w))
    end.

(** The caller's own handlers passed to [getInputProps]: which of them
    were supplied. *)
Module GetInputArgs.
Record t := mk {
  onBlur : bool;
  onChange : bool;
  onFocus : bool;
  onKeyDown : bool;
}.
End GetInputArgs.

(** ** The methods of [class AutoComplete] *)

Section Methods.
Context {T : Type} `{!Item T}.

Definition getInitialState (p : Props.t T) : State.t T :=
  {| State.isOpen := truthy (Props.isOpen p);
     State.highlightedIndex :=
       match Props.defaultHighlightedIndex p with
       | Some n => if bool_decide (n = 0) then 0 else n
       | None => 0
       end;
     State.inputValue :=
       match Props.defaultInputValue p with
       | Some v => if bool_decide (v = EmptyString) then EmptyString else v
       | None => EmptyString
       end;
     State.selectedItem := None |}.

(** [get isControlled()] *)
Definition isControlled (c : AutoComplete T) : bool :=
  bool_decide (is_Some (Props.isOpen (props c))).

(** [get isOpen()] *)
Definition isOpen (c : AutoComplete T) : bool :=
  match Props.isOpen (props c) with
  | Some b => b
  | None => State.isOpen (state c)
  end.

Definition resetHighlightState : M T unit :=
  p ← gets props;
  setState (UObject {| Patch.highlightedIndex := Some (default 0 (Props.defaultHighlightedIndex p));
                       Patch.inputValue := None;
                       Patch.isOpen := None;
                       Patch.selectedItem := None |}).

Definition UNSAFE_componentWillReceiveProps
    (nextProps : Props.t T) (nextState : Context.t T) : M T unit :=
  s ← gets state;
  if negb (Props.closeOnSelect nextProps)
     && bool_decide (State.selectedItem s ≠ Context.selectedItem nextState)
  then mret tt
  else resetHighlightState.

Definition UNSAFE_componentWillUpdate : M T unit :=
  modify (set_items ∅).

Definition openMenu : M T unit :=
  p ← gets props;
  call_opt (Props.onOpen p) OnOpen;;
  controlled ← gets isControlled;
  if Props.disabled p || controlled
  then mret tt
  else
    resetHighlightState;;
    setState (UObject {| Patch.highlightedIndex := None;
                         Patch.inputValue := None;
                         Patch.isOpen := Some true;
                         Patch.selectedItem := None |}).

Definition closeMenu : M T unit :=
  p ← gets props;
  call_opt (Props.onClose p) OnClose;;
  controlled ← gets isControlled;
  if (controlled : bool)
  then mret tt
  else
    setState (UFunction (fun s =>
      {| Patch.highlightedIndex := None;
         Patch.inputValue :=
           Some (if truthy (Props.resetInputOnClose p) then EmptyString else State.inputValue s);
         Patch.isOpen := Some false;
         Patch.selectedItem := None |})).

Definition componentWillUnmount : M T unit :=
  h ← gets blurTimeout;
  clearTimeout h;;
  h' ← gets cancelCloseTimeout;
  clearTimeout h'.

Definition event_target_value (e : Event) : string :=
  match e with
  | ChangeEvent v => v
  | _ => EmptyString
  end.

Definition makeHandleInputChange (onChange : bool) (e : Event) : M T unit :=
  let value := event_target_value e in
  openMenu;;
  setState (UObject {| Patch.highlightedIndex := None;
                       Patch.inputValue := Some value;
                       Patch.isOpen := None;
                       Patch.selectedItem := None |});;
  call_opt onChange (OnChange e).

Definition makeHandleInputFocus (onFocus : bool) (e : Event) : M T unit :=
  openMenu;;
  call_opt onFocus (OnFocus e).

Definition makehandleInputBlur (onBlur : bool) (e : Event) : M T unit :=
  h ← gets blurTimeout;
  clearTimeout h;;
  id ← setTimeout (BlurClose e onBlur) 200;
  modify (set_blurTimeout (Some id)).

Definition handleClickOutside : M T unit :=
  h ← gets blurTimeout;
  clearTimeout h;;
  _ ← setTimeout ResolveClickOutside 0;
  mret tt.

Definition handleSelect (item : T) (e : Event) : M T unit :=
  p ← gets props;
  s ← gets state;
  call_opt (Props.onSelect p) (OnSelect item s e);;
  if Props.closeOnSelect p
  then
    closeMenu;;
    setState (UObject {| Patch.highlightedIndex := None;
                         Patch.inputValue := Some (Props.itemToString p item);
                         Patch.isOpen := None;
                         Patch.selectedItem := Some (Some item) |})
  else
    setState (UObject {| Patch.highlightedIndex := None;
                         Patch.inputValue := None;
                         Patch.isOpen := None;
                         Patch.selectedItem := Some (Some item) |}).

Definition listSize (c : AutoComplete T) : Z :=
  default (Z.of_nat (size (items c))) (itemCount c).

Definition moveHighlightedIndex (step : Z) : M T unit :=
  s ← gets state;
  let newIndex := State.highlightedIndex s + step in
  listSize ← gets listSize;
  let newIndex := Z.max 0 (Z.min newIndex (listSize - 1)) in
  setState (UObject {| Patch.highlightedIndex := Some newIndex;
                       Patch.inputValue := None;
                       Patch.isOpen := None;
                       Patch.selectedItem := None |}).

Definition makeHandleInputKeydown (onKeyDown : bool) (e : Event) : M T unit :=
  s ← gets state;
  registry ← gets items;
  p ← gets props;
  let hasHighlightedItem := bool_decide (is_Some (registry !! State.highlightedIndex s)) in
  let isEnter := Props.shouldSelectWithEnter p && key_is e "Enter" in
  let isTab := Props.shouldSelectWithTab p && key_is e "Tab" in
  when (hasHighlightedItem && (isEnter || isTab)) (
    match mjoin (registry !! State.highlightedIndex s) with
    | Some item => when (negb (truthy (item_disabled item))) (handleSelect item e)
    | None => mret tt
    end;;
    emit (PreventDefault e));;
  when (key_is e "ArrowUp") (
    moveHighlightedIndex (-1);;
    emit (PreventDefault e));;
  when (key_is e "ArrowDown") (
    moveHighlightedIndex 1;;
    emit (PreventDefault e));;
  when (key_is e "Escape") closeMenu;;
  call_opt onKeyDown (OnKeyDown e).

Definition makeHandleItemClick (item : T) (index : Z) (e : Event) : M T unit :=
  if truthy (item_disabled item)
  then mret tt
  else
    h ← gets blurTimeout;
    clearTimeout h;;
    setState (UObject {| Patch.highlightedIndex := Some index;
                         Patch.inputValue := None;
                         Patch.isOpen := None;
                         Patch.selectedItem := None |});;
    handleSelect item e.

Definition makeHandleMouseEnter (item : T) (index : Z) (_e : Event) : M T unit :=
  if truthy (item_disabled item)
  then mret tt
  else
    setState (UObject {| Patch.highlightedIndex := Some index;
                         Patch.inputValue := None;
                         Patch.isOpen := None;
                         Patch.selectedItem := None |}).

Definition handleMenuMouseDown : M T unit :=
  h ← gets cancelCloseTimeout;
  clearTimeout h;;
  id ← setTimeout CancelBlur 0;
  modify (set_cancelCloseTimeout (Some id)).

Record InputProps := mkInputProps {
  value : string;
  onChange : Event -> M T unit;
  onKeyDown : Event -> M T unit;
  onFocus : Event -> M T unit;
  onBlur : Event -> M T unit;
}.

Definition getInputProps (inputProps : option GetInputArgs.t) : M T InputProps :=
  s ← gets state;
  mret {| value := State.inputValue s;
          onChange := makeHandleInputChange (from_option GetInputArgs.onChange false inputProps);
          onKeyDown := makeHandleInputKeydown (from_option GetInputArgs.onKeyDown false inputProps);
          onFocus := makeHandleInputFocus (from_option GetInputArgs.onFocus false inputProps);
          onBlur := makehandleInputBlur (from_option GetInputArgs.onBlur false inputProps) |}.

Record ItemProps := mkItemProps {
  data_test_id : option string;
  onClick : Event -> M T unit;
  onMouseEnter : Event -> M T unit;
}.

(** Reading ['data-test-id'] of an [undefined] item throws. *)
Definition getItemProps (itemProps : option (GetItemArgs.t T)) : M T (Exn + ItemProps) :=
  let item := itemProps ≫= GetItemArgs.item in
  let index := itemProps ≫= GetItemArgs.index in
  when (negb (bool_decide (is_Some item)))
    (emit (ConsoleWarn "getItemProps requires an object with an `item` key"));;
  registry ← gets items;
  let newIndex := default (Z.of_nat (size registry)) index in
  modify (set_items (<[newIndex := item]> registry));;
  match item with
  | None =>
      mret (inl (TypeError "Cannot read properties of undefined (reading 'data-test-id')"))
  | Some it =>
      mret (inr {| data_test_id := item_data_test_id it;
                   onClick := makeHandleItemClick it newIndex;
                   onMouseEnter := makeHandleMouseEnter it newIndex |})
  end.

(** [props?.itemCount] is recorded; the result carries [onMouseDown]. *)
Definition getMenuProps (menuProps : option (option Z)) : M T (M T unit) :=
  modify (set_itemCount (mjoin menuProps));;
  mret handleMenuMouseDown.

(** ** Rendering and the update cycle *)

Fixpoint run_calls (calls : list (BinderCall T)) : M T (option Exn) :=
  match calls with
  | [] => mret None
  | CallGetMenuProps a :: rest => getMenuProps a;; run_calls rest
  | CallGetItemProps a :: rest =>
      r ← getItemProps a;
      match r with
      | inl exn => mret (Some exn)
      | inr _ => run_calls rest
      end
  end.

(** [render()] calls [children], which calls the binders. *)
Definition render : M T (option Exn) :=
  p ← gets props;
  s ← gets state;
  run_calls (Props.children p s).

(** React applies the queued updates once the handler has returned, then
    runs [UNSAFE_componentWillUpdate] and [render]; a handler that queued
    nothing causes no render.  An exception that escapes [render] is
    reported in the trace. *)
Definition flush : M T unit :=
  us ← gets pending;
  match us with
  | [] => mret tt
  | _ :: _ =>
      s ← gets state;
      UNSAFE_componentWillUpdate;;
      modify (fun c => set_pending [] (set_state (apply_updates s us) c));;
      r ← render;
      match r with
      | Some exn => emit (Uncaught exn)
      | None => mret tt
      end
  end.

Definition dispatch (handler : M T unit) : M T unit :=
  handler;; flush.

(** The parent re-renders and passes [nextProps].  React calls the
    receive-props hook with [(nextProps, nextContext)] while [this.props]
    and [this.state] are still the old ones, applies the updates the hook
    queued together with those queued before, runs
    [UNSAFE_componentWillUpdate], assigns the new props and state and
    renders, whether or not anything was queued. *)
Definition receiveProps (nextProps : Props.t T) : M T unit :=
  UNSAFE_componentWillReceiveProps nextProps emptyContextObject;;
  us ← gets pending;
  s ← gets state;
  UNSAFE_componentWillUpdate;;
  modify (fun c => set_pending [] (set_state (apply_updates s us) (set_props nextProps c)));;
  r ← render;
  match r with
  | Some exn => emit (Uncaught exn)
  | None => mret tt
  end.

(** A handler whose batch re-renders the parent as well, as when
    [onSelect] or [onClose] sets state there: the component receives
    [nextProps] before its own queued updates are applied. *)
Definition dispatch_rerendering (nextProps : Props.t T) (handler : M T unit) : M T unit :=
  handler;; receiveProps nextProps.

(** ** The host's timer loop

    A timer callback is [closeMenu] followed by the caller's [onBlur] (armed
    by a blur), the cancellation of the blur timer (armed by a menu
    mousedown), or the continuation of [handleClickOutside] after its
    [await], which is [closeMenu]. *)

Definition run_callback (cb : TimerCallback) : M T unit :=
  match cb with
  | BlurClose e onBlur => closeMenu;; call_opt onBlur (OnBlur e)
  | CancelBlur => h ← gets blurTimeout; clearTimeout h
  | ResolveClickOutside => closeMenu
  end.

(** The pending timer that fires next: least due time, oldest first. *)
Fixpoint pop_earliest (q : list Timer) : option (Timer * list Timer) :=
  match q with
  | [] => None
  | x :: q' =>
      match pop_earliest q' with
      | Some (y, rest) =>
          if (timer_due y <? timer_due x)%nat then Some (y, x :: rest) else Some (x, q')
      | None => Some (x, q')
      end
  end.

Definition pop_due (target : nat) : M T (option Timer) :=
  fun w =>
    let win := window w in
    match pop_earliest (queue win) with
    | Some (t, rest) =>
        if (timer_due t <=? target)%nat
        then (Some t, mkWorld (self w)
                        (mkWindow (Nat.max (now win) (timer_due t)) (next_id win) rest)
                        (trace w))
        else (None, w)
    | None => (None, w)
    end.

Fixpoint run_timers (fuel : nat) (target : nat) : M T unit :=
  match fuel with
  | O => mret tt
  | S fuel' =>
      t ← pop_due target;
      match t with
      | Some t => dispatch (run_callback (timer_callback t));; run_timers fuel' target
      | None => mret tt
      end
  end.

(** Let [dt] time units pass: every timer due by then fires, in order.  No
    callback of this component arms a timer, so the queue length bounds the
    number of firings. *)
Definition advance (dt : nat) : M T unit :=
  fun w =>
    let target := (now (window w) + dt)%nat in
    let w' := exec (run_timers (length (queue (window w))) target) w in
    (tt, mkWorld (self w')
           (mkWindow target (next_id (window w')) (queue (window w')))
           (trace w')).

End Methods.

(** ** Mounting, and a concrete item type *)

Definition mount {T} `{!Item T} (p : Props.t T) : World T :=
  exec (r ← render;
        match r with
        | Some exn => emit (Uncaught exn)
        | None => mret tt
        end)
    {| self := {| props := p;
                  state := getInitialState p;
                  pending := [];
                  items := ∅;
                  itemCount := None;
                  blurTimeout := None;
                  cancelCloseTimeout := None |};
       window := {| now := 0; next_id := 1; queue := [] |};
       trace := [] |}.

(** Items such as [{id: 1}], optionally disabled. *)
Record Entry := mkEntry {
  entry_id : nat;
  entry_disabled : option bool;
}.

#[global] Instance Entry_eq_dec : EqDecision Entry.
Proof. solve_decision. Defined.

#[global] Instance Entry_Item : Item Entry := {|
  item_disabled := entry_disabled;
  item_data_test_id := fun _ => None;
|}.

(** Render callbacks.  [list_children l] binds the menu and registers the
    items of [l] at indices 0, 1, ...; [virtual_children n l] does the same
    for a virtualised list of [n] items of which only [l] is rendered. *)
Definition register_all {T} (l : list T) : list (BinderCall T) :=
  imap (fun i x => CallGetItemProps (Some (GetItemArgs.mk (Some (Z.of_nat i)) (Some x)))) l.

Definition list_children {T} (l : list T) : State.t T -> list (BinderCall T) :=
  fun _ => CallGetMenuProps None :: register_all l.

Definition virtual_children {T} (n : Z) (l : list T) : State.t T -> list (BinderCall T) :=
  fun _ => CallGetMenuProps (Some (Some n)) :: register_all l.

(** ** Scenarios: the ways a selection is triggered, arrow-key navigation,
    and the well-formedness of a world between two events *)

Section Scenarios.
Context {T : Type} `{!Item T}.

(** The three ways a selection is triggered, with the caller's own
    [onKeyDown] flag or the index the item was registered under. *)
Inductive Trigger :=
| ByEnter (onKeyDown : bool)
| ByTab (onKeyDown : bool)
| ByClick (index : Z) (e : Event).

(** The event that originates the selection. *)
Definition trigger_event (tr : Trigger) : Event :=
  match tr with
  | ByEnter _ => KeyboardEvent "Enter"
  | ByTab _ => KeyboardEvent "Tab"
  | ByClick _ e => e
  end.

(** The handler the host invokes: the input's [onKeyDown], or the [onClick]
    that [getItemProps] built for the item. *)
Definition trigger_handler (tr : Trigger) (X : T) : M T unit :=
  match tr with
  | ByEnter cb => makeHandleInputKeydown cb (KeyboardEvent "Enter")
  | ByTab cb => makeHandleInputKeydown cb (KeyboardEvent "Tab")
  | ByClick index e => makeHandleItemClick X index e
  end.

(** The trigger reaches [handleSelect] on [X]: the key is enabled and [X] is
    the highlighted registry entry, and [X] is not disabled. *)
Definition trigger_selects (c : AutoComplete T) (tr : Trigger) (X : T) : bool :=
  match tr with
  | ByEnter _ =>
      Props.shouldSelectWithEnter (props c)
      && bool_decide (items c !! State.highlightedIndex (state c) = Some (Some X))
      && negb (truthy (item_disabled X))
  | ByTab _ =>
      Props.shouldSelectWithTab (props c)
      && bool_decide (items c !! State.highlightedIndex (state c) = Some (Some X))
      && negb (truthy (item_disabled X))
  | ByClick _ _ => negb (truthy (item_disabled X))
  end.

Inductive Arrow := Up | Down.

Definition arrow_key (a : Arrow) : string :=
  match a with
  | Up => "ArrowUp"
  | Down => "ArrowDown"
  end.

Definition arrow_step (a : Arrow) : Z :=
  match a with
  | Up => -1
  | Down => 1
  end.

(** One arrow key press, as the host delivers it to the input. *)
Definition press (a : Arrow) : M T unit :=
  dispatch (makeHandleInputKeydown false (KeyboardEvent (arrow_key a))).

(** A sequence of presses; for each one, the list size the move saw and the
    highlighted index after it. *)
Fixpoint press_all (l : list Arrow) : M T (list (Z * Z)) :=
  match l with
  | [] => mret []
  | a :: l' =>
      n ← gets listSize;
      press a;;
      s ← gets state;
      rest ← press_all l';
      mret ((n, State.highlightedIndex s) :: rest)
  end.

(** [Math.max(0, Math.min(x, hi))] *)
Definition clamp (x lo hi : Z) : Z := Z.max lo (Z.min x hi).

(** The state the queued updates lead to. *)
Definition nextState (w : World T) : State.t T :=
  apply_updates (state (self w)) (pending (self w)).

(** No handler is running: nothing is queued for [setState]. *)
Definition idle (w : World T) : Prop := pending (self w) = [].

(** Timer handles are never reused: the handles the component holds were
    issued before. *)
Definition handles_issued (w : World T) : bool :=
  from_option (fun id => id <? next_id (window w))%nat true (blurTimeout (self w))
  && from_option (fun id => id <? next_id (window w))%nat true (cancelCloseTimeout (self w)).

Definition is_blur_close (t : Timer) : bool :=
  match timer_callback t with
  | BlurClose _ _ => true
  | _ => false
  end.

(** Every pending blur-close timer is the one [this.blurTimeout] names. *)
Definition blur_tracked (w : World T) : bool :=
  forallb (λ t, implb (is_blur_close t)
                  (bool_decide (blurTimeout (self w) = Some (timer_id t))))
    (queue (window w)).

Definition timers_ok (w : World T) : Prop :=
  blur_tracked w = true ∧ handles_issued w = true.

(** A computation that maintains [timers_ok]. *)
Definition keeps_timers {A} (c : M T A) : Prop :=
  ∀ w, timers_ok w → timers_ok (exec c w).

(** The input blurs; [d] time units later a mousedown on the menu; then
    [d'] more time units pass. *)
Definition blur_then_mousedown (onBlur : bool) (e : Event) (d d' : nat) : M T unit :=
  dispatch (makehandleInputBlur onBlur e);;
  advance d;;
  dispatch handleMenuMouseDown;;
  advance d'.

(** The host delivers the mousedown first and the blur right after it, in
    the same turn; then [d'] time units pass. *)
Definition mousedown_then_blur (onBlur : bool) (e : Event) (d' : nat) : M T unit :=
  dispatch handleMenuMouseDown;;
  dispatch (makehandleInputBlur onBlur e);;
  advance d'.

(** Everything the host can deliver to a mounted component. *)
Inductive HostEvent :=
| InputChange (onChange : bool) (value : string)
| InputFocus (onFocus : bool)
| InputBlur (onBlur : bool)
| InputKeyDown (onKeyDown : bool) (key : string)
| ItemClick (item : T) (index : Z)
| ItemMouseEnter (item : T) (index : Z)
| MenuMouseDown
| ClickOutside
| ActionOpen
| ActionClose
| Elapse (dt : nat).

Definition deliver (ev : HostEvent) : M T unit :=
  match ev with
  | InputChange cb v => dispatch (makeHandleInputChange cb (ChangeEvent v))
  | InputFocus cb => dispatch (makeHandleInputFocus cb FocusEvent)
  | InputBlur cb => dispatch (makehandleInputBlur cb FocusEvent)
  | InputKeyDown cb k => dispatch (makeHandleInputKeydown cb (KeyboardEvent k))
  | ItemClick item index => dispatch (makeHandleItemClick item index MouseEvent)
  | ItemMouseEnter item index => dispatch (makeHandleMouseEnter item index MouseEvent)
  | MenuMouseDown => dispatch handleMenuMouseDown
  | ClickOutside => dispatch handleClickOutside
  | ActionOpen => dispatch openMenu
  | ActionClose => dispatch closeMenu
  | Elapse dt => advance dt
  end.

Fixpoint deliver_all (evs : list HostEvent) : M T unit :=
  match evs with
  | [] => mret tt
  | ev :: evs' => deliver ev;; deliver_all evs'
  end.

(** What rendering leaves alone: everything but the registry, the item
    count and the trace. *)
Record same_frame (w w' : World T) : Prop := {
  frame_props : props (self w') = props (self w);
  frame_state : state (self w') = state (self w);
  frame_pending : pending (self w') = pending (self w);
  frame_window : window w' = window w;
  frame_blurTimeout : blurTimeout (self w') = blurTimeout (self w);
  frame_cancelCloseTimeout : cancelCloseTimeout (self w') = cancelCloseTimeout (self w);
}.

Definition is_preventDefault (eff : Effect T) : bool :=
  match eff with
  | PreventDefault _ => true
  | _ => false
  end.

Definition is_onSelect (eff : Effect T) : bool :=
  match eff with
  | OnSelect _ _ _ => true
  | _ => false
  end.

Definition is_onClose (eff : Effect T) : bool :=
  match eff with
  | OnClose => true
  | _ => false
  end.

(** The calls made to the caller's callbacks: the trace without what
    rendering itself reports ([console.warn], an uncaught exception). *)
Definition is_notification (eff : Effect T) : bool :=
  match eff with
  | ConsoleWarn _ | Uncaught _ => false
  | _ => true
  end.

Definition notifications (tr : list (Effect T)) : list (Effect T) :=
  List.filter is_notification tr.

(** A computation that only adds to the trace, and never a
    [preventDefault]. *)
Definition discreet (c : M T unit) : Prop :=
  ∀ w, ∃ added, trace (exec c w) = trace w ++ added
                ∧ List.filter is_preventDefault added = [].

(** A step that only adds to the trace, and no call to a callback. *)
Definition silent (c : World T → World T) : Prop :=
  ∀ w, ∃ added, trace (c w) = trace w ++ added ∧ notifications added = [].

End Scenarios.

(** ** Concrete worlds *)

Definition three_items : list Entry :=
  [mkEntry 1 None; mkEntry 2 None; mkEntry 3 None].

Definition entry_label (x : Entry) : string :=
  match entry_id x with
  | 1%nat => "one"
  | 2%nat => "two"
  | _ => "three"
  end.

(** Every notification callback supplied; the other props at their defaults
    except for the ones given. *)
Definition configured_props (disabled closeOnSelect : bool) (isOpen : option bool)
    (children : State.t Entry -> list (BinderCall Entry)) : Props.t Entry :=
  {| Props.itemToString := entry_label;
     Props.inputIsActor := true;
     Props.disabled := disabled;
     Props.closeOnSelect := closeOnSelect;
     Props.shouldSelectWithEnter := true;
     Props.shouldSelectWithTab := false;
     Props.children := children;
     Props.defaultHighlightedIndex := None;
     Props.defaultInputValue := None;
     Props.isOpen := isOpen;
     Props.onClose := true;
     Props.onMenuOpen := true;
     Props.onOpen := true;
     Props.onSelect := true;
     Props.resetInputOnClose := None |}.

(** The default configuration. *)
Definition listening_props (children : State.t Entry -> list (BinderCall Entry))
    : Props.t Entry :=
  configured_props false true None children.

(** Three items registered at 0, 1, 2; the third one highlighted. *)
Definition third_highlighted : World Entry :=
  exec (press Down;; press Down) (mount (listening_props (list_children three_items))).

(** One item, disabled, highlighted. *)
Definition disabled_highlighted : World Entry :=
  mount (listening_props (list_children [mkEntry 1 (Some true)])).

(** A virtualised list of five items, three of them rendered, the cursor on
    the fourth. *)
Definition beyond_rendered : World Entry :=
  exec (press Down;; press Down;; press Down)
    (mount (listening_props (virtual_children 5 three_items))).

(** A disabled, uncontrolled component: the menu is closed. *)
Definition disabled_closed : World Entry :=
  mount (configured_props true true None (list_children three_items)).

(** A controlled component (the caller says: open), the cursor on the third
    item. *)
Definition controlled_browsing : World Entry :=
  exec (press Down;; press Down)
    (mount (configured_props false true (Some true) (list_children three_items))).

(** A component that stays open on selection: focused (so open), the cursor
    on the third item. *)
Definition browsing : World Entry :=
  exec (dispatch (makeHandleInputFocus false FocusEvent);; press Down;; press Down)
    (mount (configured_props false false None (list_children three_items))).

(** One selection with Enter in a batch that re-renders the parent, which
    passes the same props again. *)
Definition select_with_enter_then_receive_props : M Entry unit :=
  p ← gets props;
  dispatch_rerendering p (makeHandleInputKeydown false (KeyboardEvent "Enter")).

(** The same component after a first selection, of the third item, and one
    ArrowDown: the third item is selected and the cursor is on the second. *)
Definition browsing_on_second : World Entry :=
  exec (select_with_enter_then_receive_props;; press Down) browsing.

(** Three items, freshly mounted: the cursor on the first. *)
Definition first_highlighted : World Entry :=
  mount (listening_props (list_children three_items)).

(** No item at all, as when a search has no result. *)
Definition no_items : World Entry :=
  mount (listening_props (list_children [])).

(** Three items, the input focused: the menu is open. *)
Definition opened : World Entry :=
  exec (deliver (InputFocus false)) first_highlighted.

(** The same, 50 time units after the input lost focus. *)
Definition blurred : World Entry :=
  exec (deliver_all [InputBlur true; Elapse 50]) opened.

(** A render callback that registers an item-less entry before a real one. *)
Definition careless_children : State.t Entry -> list (BinderCall Entry) :=
  fun _ =>
    [CallGetMenuProps None;
     CallGetItemProps (Some (GetItemArgs.mk (Some 0) None));
     CallGetItemProps (Some (GetItemArgs.mk (Some 1) (Some (mkEntry 2 None))))].

(** ** Further scenarios: timers that are armed, registration without an
    index, and the sign of the highlighted index *)

Section Coverage.
Context {T : Type} `{!Item T}.

(** A step from [w] to [w'] that arms no timer: the two handles are kept,
    no handle is issued, and the pending timers of [w'] are among those of
    [w], in the same order. *)
Record arms_nothing (w w' : World T) : Prop := {
  calm_blurTimeout : blurTimeout (self w') = blurTimeout (self w);
  calm_cancelCloseTimeout : cancelCloseTimeout (self w') = cancelCloseTimeout (self w);
  calm_next_id : next_id (window w') = next_id (window w);
  calm_queue : queue (window w') `sublist_of` queue (window w);
}.

Definition calm {A} (c : M T A) : Prop :=
  ∀ w, arms_nothing w (exec c w).

(** The host events whose handler calls [window.setTimeout]. *)
Definition arms_timer (ev : HostEvent (T:=T)) : bool :=
  match ev with
  | InputBlur _ | MenuMouseDown | ClickOutside => true
  | _ => false
  end.

Definition is_cancel_blur (t : Timer) : bool :=
  match timer_callback t with
  | CancelBlur => true
  | _ => false
  end.

Definition is_tick (t : Timer) : bool :=
  match timer_callback t with
  | ResolveClickOutside => true
  | _ => false
  end.

(** Every pending cancellation timer is the one [this.cancelCloseTimeout]
    names. *)
Definition cancel_tracked (w : World T) : bool :=
  forallb (λ t, implb (is_cancel_blur t)
                  (bool_decide (cancelCloseTimeout (self w) = Some (timer_id t))))
    (queue (window w)).

(** A render callback that registers the items of [l] without an index. *)
Definition append_all (l : list T) : list (BinderCall T) :=
  (λ x, CallGetItemProps (Some (GetItemArgs.mk None (Some x)))) <$> l.

(** An update that cannot make the highlighted index negative. *)
Definition nonneg_update (u : Update T) : Prop :=
  ∀ s, 0 ≤ State.highlightedIndex s → 0 ≤ State.highlightedIndex (apply_update s u).

Definition highlight_nonneg (w : World T) : Prop :=
  0 ≤ State.highlightedIndex (state (self w))
  ∧ Forall nonneg_update (pending (self w))
  ∧ 0 ≤ default 0 (Props.defaultHighlightedIndex (props (self w))).

(** The index a pointer event carries is the one its item was registered
    under. *)
Definition index_nonneg (ev : HostEvent (T:=T)) : bool :=
  match ev with
  | ItemClick _ index | ItemMouseEnter _ index => bool_decide (0 ≤ index)
  | _ => true
  end.

(** The events that can reach [handleSelect]. *)
Definition may_select (ev : HostEvent (T:=T)) : bool :=
  match ev with
  | InputKeyDown _ k => bool_decide (k = "Enter") || bool_decide (k = "Tab")
  | ItemClick _ _ => true
  | _ => false
  end.

(** A computation that adds to the trace no call of the kind [f]. *)
Definition adds_no (f : Effect T → bool) {A} (c : M T A) : Prop :=
  ∀ w, ∃ added, trace (exec c w) = trace w ++ added ∧ List.filter f added = [].

(** A computation that keeps the highlighted index from going negative. *)
Definition keeps_nonneg {A} (c : M T A) : Prop :=
  ∀ w, highlight_nonneg w → highlight_nonneg (exec c w).

(** The pending timers are in order: the blur-close ones and the
    cancellation ones are those the handles name, at most one of each. *)
Definition tidy (w : World T) : Prop :=
  blur_tracked w = true
  ∧ cancel_tracked w = true
  ∧ (length (List.filter is_blur_close (queue (window w))) ≤ 1)%nat
  ∧ (length (List.filter is_cancel_blur (queue (window w))) ≤ 1)%nat.

(** The registry holds exactly the items of [l], at indices 0, 1, ... *)
Definition holds (m : gmap Z (option T)) (l : list T) : Prop :=
  size m = length l
  ∧ ∀ z : Z, m !! z = if decide (0 ≤ z) then Some <$> l !! Z.to_nat z else None.

(** The calls [register_all] makes for a list whose first item has index
    [k]. *)
Definition register_from (k : nat) (l : list T) : list (BinderCall T) :=
  imap (λ i x, CallGetItemProps (Some (GetItemArgs.mk (Some (Z.of_nat (k + i))) (Some x)))) l.

(** An update that leaves the open flag at [v] when it is [v]. *)
Definition keeps_flag (v : bool) (u : Update T) : Prop :=
  ∀ s, State.isOpen s = v → State.isOpen (apply_update s u) = v.

(** The component cannot open or close by itself: it is disabled or
    controlled, and its open flag, with every queued update, stays what it
    was at mount. *)
Definition blocked (w : World T) : Prop :=
  let p := props (self w) in
  Props.disabled p || bool_decide (is_Some (Props.isOpen p)) = true
  ∧ State.isOpen (state (self w)) = truthy (Props.isOpen p)
  ∧ Forall (keeps_flag (truthy (Props.isOpen p))) (pending (self w)).

Definition keeps_blocked {A} (c : M T A) : Prop :=
  ∀ w, blocked w →
       blocked (exec c w) ∧ props (self (exec c w)) = props (self w).

Definition is_item_call (c : BinderCall T) : bool :=
  match c with
  | CallGetItemProps _ => true
  | CallGetMenuProps _ => false
  end.

(** The input blurs and, [d] time units later, an item is clicked; then
    [d'] more time units pass.  With [parent], the batch of the click
    re-renders the parent as well, which passes the same props again. *)
Definition blur_then_click (onBlur parent : bool) (X : T) (index : Z) (d d' : nat)
    : M T unit :=
  dispatch (makehandleInputBlur onBlur FocusEvent);;
  advance d;;
  (if parent
   then p ← gets props;
        dispatch_rerendering p (makeHandleItemClick X index MouseEvent)
   else dispatch (makeHandleItemClick X index MouseEvent));;
  advance d'.

End Coverage.

(** ** Further concrete worlds *)

(** A render callback that registers three items and never binds the menu. *)
Definition bare_children : State.t Entry -> list (BinderCall Entry) :=
  fun _ => register_all three_items.

(** Three items, the cursor moved by the pointer onto the second: the
    update is queued, not yet applied. *)
Definition hovering : World Entry :=
  exec (makeHandleMouseEnter (mkEntry 2 None) 1 MouseEvent) opened.

(** A list that was virtualised (ten items announced) and whose render
    callback no longer binds the menu; an arrow key is being handled. *)
Definition once_virtualised : World Entry :=
  exec (getMenuProps (Some (Some 10));; moveHighlightedIndex 1)
    (mount (listening_props bare_children)).

(** A session: focus, pointer on the second item, arrow keys, typing, a
    click on the third item, a blur and time passing. *)
Definition session : list (HostEvent (T:=Entry)) :=
  [InputFocus false;
   ItemMouseEnter (mkEntry 2 None) 1;
   InputKeyDown false "ArrowUp";
   InputKeyDown false "ArrowUp";
   InputChange false "ab";
   ItemClick (mkEntry 3 None) 2;
   InputBlur true;
   Elapse 300].

(** * Properties *)

(** Unfolding of the monad's operations. *)
Ltac run :=
  unfold exec, eval, dispatch, mbind, M_bind, bind, mret, M_ret, ret,
    gets, modify, emit, setState, call_opt, when in *; simpl in *.

Ltac step_if :=
  match goal with
  | |- context [if ?b then _ else _] => destruct b eqn:?
  end.

Ltac crunch := run; repeat (step_if; run).

Section Selection.
Context {T : Type} `{!Item T}.

Lemma exec_bind {A B} (c : M T A) (k : A → M T B) (w : World T) :
  exec (c ≫= k) w = exec (k (eval c w)) (exec c w).
Proof. unfold exec, eval, mbind, M_bind, bind. by destruct (c w). Qed.

Lemma eval_bind {A B} (c : M T A) (k : A → M T B) (w : World T) :
  eval (c ≫= k) w = eval (k (eval c w)) (exec c w).
Proof. unfold exec, eval, mbind, M_bind, bind. by destruct (c w). Qed.

Lemma exec_gets {A} (f : AutoComplete T → A) (w : World T) : exec (gets f) w = w.
Proof. reflexivity. Qed.

Lemma eval_gets {A} (f : AutoComplete T → A) (w : World T) : eval (gets f) w = f (self w).
Proof. reflexivity. Qed.

Lemma getMenuProps_frame a (w : World T) :
  exec (getMenuProps a) w =
  mkWorld (set_itemCount (mjoin a) (self w)) (window w) (trace w).
Proof. reflexivity. Qed.

Lemma same_frame_refl (w : World T) : same_frame w w.
Proof. by split. Qed.

Lemma same_frame_trans (w1 w2 w3 : World T) : same_frame w1 w2 → same_frame w2 w3 → same_frame w1 w3.
Proof. intros [] []; split; congruence. Qed.

Lemma getItemProps_frame a (w : World T) : same_frame w (exec (getItemProps a) w).
Proof.
  unfold getItemProps. destruct a as [[idx [it|]]|]; run; by split.
Qed.

Lemma run_calls_frame calls (w : World T) : same_frame w (exec (run_calls calls) w).
Proof.
  revert w; induction calls as [|c calls IH]; intros w; [apply same_frame_refl|].
  destruct c as [a|a]; simpl.
  - unfold exec, mbind, M_bind, bind. simpl.
    eapply same_frame_trans; [|apply IH]. by split.
  - pose proof (getItemProps_frame a w) as Hf.
    unfold exec, mbind, M_bind, bind in *.
    destruct (getItemProps a w) as [[exn|ip] w1]; simpl in *; [done|].
    eapply same_frame_trans; [exact Hf|apply IH].
Qed.

Lemma render_frame (w : World T) : same_frame w (exec render w).
Proof. unfold render. run. apply run_calls_frame. Qed.

Lemma flush_idle (w : World T) : pending (self w) = [] → exec flush w = w.
Proof. intros H. unfold flush. run. rewrite H. by destruct w. Qed.

Lemma flush_spec (w : World T) :
  let w' := exec flush w in
  props (self w') = props (self w)
  ∧ state (self w') = apply_updates (state (self w)) (pending (self w))
  ∧ pending (self w') = []
  ∧ window w' = window w
  ∧ blurTimeout (self w') = blurTimeout (self w)
  ∧ cancelCloseTimeout (self w') = cancelCloseTimeout (self w).
Proof.
  destruct (pending (self w)) as [|u us] eqn:Hp.
  - rewrite flush_idle by done. simpl. by rewrite Hp.
  - unfold flush. run. rewrite Hp.
    match goal with |- context [render ?w0] => pose proof (render_frame w0) as Hf end.
    unfold exec in Hf. destruct (render _) as [[exn|] w1]; simpl in *;
      destruct Hf; simpl in *; by repeat split.
Qed.

Lemma dispatch_state (h : M T unit) (w : World T) :
  state (self (exec (dispatch h) w))
  = apply_updates (state (self (exec h w))) (pending (self (exec h w))).
Proof.
  pose proof (flush_spec (exec h w)) as (_ & Hs & _).
  unfold dispatch, exec, mbind, M_bind, bind in *. by destruct (h w).
Qed.

Lemma dispatch_props (h : M T unit) (w : World T) :
  props (self (exec (dispatch h) w)) = props (self (exec h w)).
Proof.
  pose proof (flush_spec (exec h w)) as (Hs & _).
  unfold dispatch, exec, mbind, M_bind, bind in *. by destruct (h w).
Qed.

Lemma handleSelect_closing (X : T) (e : Event) (w : World T) :
  Props.closeOnSelect (props (self w)) = true →
  let p := props (self w) in
  exec (handleSelect X e) w =
  mkWorld
    (set_pending
       (pending (self w)
        ++ (if isControlled (self w) then []
            else [UFunction (fun s =>
                    {| Patch.highlightedIndex := None;
                       Patch.inputValue :=
                         Some (if truthy (Props.resetInputOnClose p)
                               then EmptyString else State.inputValue s);
                       Patch.isOpen := Some false;
                       Patch.selectedItem := None |})])
        ++ [UObject {| Patch.highlightedIndex := None;
                       Patch.inputValue := Some (Props.itemToString p X);
                       Patch.isOpen := None;
                       Patch.selectedItem := Some (Some X) |}])
       (self w))
    (window w)
    (trace w
     ++ (if Props.onSelect p then [OnSelect X (state (self w)) e] else [])
     ++ (if Props.onClose p then [OnClose] else [])).
Proof.
  intros Hc p. subst p. destruct w as [c win tr]. unfold handleSelect, closeMenu. run.
  rewrite Hc. crunch; unfold set_pending; simpl;
    rewrite <- ?app_assoc, ?app_nil_r; reflexivity.
Qed.

Lemma key_is_spec (k k' : string) : key_is (KeyboardEvent k) k' = bool_decide (k = k').
Proof. unfold key_is. simpl. apply bool_decide_ext. split; congruence. Qed.

Lemma key_is_not_keyboard (e : Event) (k : string) :
  event_key e = None → key_is e k = false.
Proof. intros H. unfold key_is. rewrite H. by apply bool_decide_eq_false_2. Qed.

(** A select key on an enabled highlighted item: [handleSelect], then
    [preventDefault], then the caller's own [onKeyDown]. *)
Lemma keydown_selects (cb : bool) (k : string) (X : T) (w : World T) :
  k = "Enter" ∧ Props.shouldSelectWithEnter (props (self w)) = true
  ∨ k = "Tab" ∧ Props.shouldSelectWithTab (props (self w)) = true →
  items (self w) !! State.highlightedIndex (state (self w)) = Some (Some X) →
  truthy (item_disabled X) = false →
  let e := KeyboardEvent k in
  exec (makeHandleInputKeydown cb e) w
  = exec (call_opt cb (OnKeyDown e))
      (exec (emit (PreventDefault e)) (exec (handleSelect X e) w)).
Proof.
  intros Hk Hi Hd e. subst e. unfold makeHandleInputKeydown.
  unfold exec, mbind at 1 2 3, M_bind, bind, gets. simpl.
  rewrite !key_is_spec, Hi. simpl. rewrite Hd. simpl.
  assert (bool_decide (k = "ArrowUp") = false
          ∧ bool_decide (k = "ArrowDown") = false
          ∧ bool_decide (k = "Escape") = false) as (-> & -> & ->).
  { destruct Hk as [[-> _]|[-> _]]; by vm_compute. }
  assert ((Props.shouldSelectWithEnter (props (self w)) && bool_decide (k = "Enter")
          || Props.shouldSelectWithTab (props (self w)) && bool_decide (k = "Tab")) = true) as ->.
  { destruct Hk as [[-> ->]|[-> ->]]; simpl; [done|]. apply orb_true_r. }
  run. by destruct (handleSelect X (KeyboardEvent k) w) as [[] w1], cb.
Qed.

Lemma apply_updates_app (s : State.t T) us vs :
  apply_updates s (us ++ vs) = apply_updates (apply_updates s us) vs.
Proof. apply foldl_app. Qed.

Lemma click_selects (X : T) (index : Z) (e : Event) (w : World T) :
  truthy (item_disabled X) = false →
  exec (makeHandleItemClick X index e) w
  = exec (handleSelect X e)
      (exec (setState (UObject {| Patch.highlightedIndex := Some index;
                                  Patch.inputValue := None;
                                  Patch.isOpen := None;
                                  Patch.selectedItem := None |}))
         (exec (clearTimeout (blurTimeout (self w))) w)).
Proof.
  intros Hd. unfold makeHandleItemClick. rewrite Hd.
  by destruct (blurTimeout (self w)) eqn:Hb; unfold exec, mbind, M_bind, bind, gets; simpl; rewrite Hb.
Qed.

Lemma clearTimeout_self (h : option nat) (w : World T) :
  self (exec (clearTimeout h) w) = self w ∧ trace (exec (clearTimeout h) w) = trace w.
Proof. by destruct h. Qed.

(** Every enabled trigger runs [handleSelect] on a world that differs from
    the one the event arrived in by, at most, a cancelled blur timer and (for
    a click) the queued [highlightedIndex := index]; what follows
    [handleSelect] adds no [onSelect] call. *)
Lemma trigger_reaches_handleSelect (w : World T) (tr : Trigger) (X : T) :
  trigger_selects (self w) tr X = true →
  let e := trigger_event tr in
  let h := trigger_handler tr X in
  ∃ w0 tail,
    props (self w0) = props (self w)
    ∧ state (self w0) = state (self w)
    ∧ pending (self w0)
      = pending (self w)
        ++ match tr with
           | ByClick index _ =>
               [UObject {| Patch.highlightedIndex := Some index;
                           Patch.inputValue := None;
                           Patch.isOpen := None;
                           Patch.selectedItem := None |}]
           | _ => []
           end
    ∧ trace w0 = trace w
    ∧ Forall (λ eff : Effect T, is_onSelect eff = false) tail
    ∧ self (exec h w) = self (exec (handleSelect X e) w0)
    ∧ trace (exec h w) = trace (exec (handleSelect X e) w0) ++ tail.
Proof.
  intros Hsel e h. subst h e. destruct tr as [cb|cb|index e0]; simpl in *.
  - apply andb_prop in Hsel as [[Hen Hi]%andb_prop Hd].
    apply bool_decide_eq_true in Hi. apply negb_true_iff in Hd.
    exists w, (PreventDefault (KeyboardEvent "Enter")
               :: if cb then [OnKeyDown (KeyboardEvent "Enter")] else []).
    rewrite (keydown_selects cb "Enter" X w) by auto.
    repeat split; try done.
    + by rewrite app_nil_r.
    + destruct cb; repeat constructor.
    + by destruct cb.
    + destruct cb; run; by rewrite <- ?app_assoc.
  - apply andb_prop in Hsel as [[Hen Hi]%andb_prop Hd].
    apply bool_decide_eq_true in Hi. apply negb_true_iff in Hd.
    exists w, (PreventDefault (KeyboardEvent "Tab")
               :: if cb then [OnKeyDown (KeyboardEvent "Tab")] else []).
    rewrite (keydown_selects cb "Tab" X w) by auto.
    repeat split; try done.
    + by rewrite app_nil_r.
    + destruct cb; repeat constructor.
    + by destruct cb.
    + destruct cb; run; by rewrite <- ?app_assoc.
  - apply negb_true_iff in Hsel.
    rewrite click_selects by done.
    destruct (clearTimeout_self (blurTimeout (self w)) w) as [Hcs Hct].
    eexists (exec (setState _) (exec (clearTimeout (blurTimeout (self w))) w)), [].
    rewrite app_nil_r.
    repeat split; try done; run; by rewrite ?Hcs, ?Hct.
Qed.

(** C1: with [closeOnSelect = true], every selection of an item [X] (Enter,
    Tab or a click on the item) calls [onSelect(X, this.state, event)] when
    the callback is supplied, and the state after the update has
    [inputValue = itemToString(X)], [selectedItem = X] and, when the
    component is not controlled, [isOpen = false]. *)
Theorem selection_closes_and_fills_input (w : World T) (tr : Trigger) (X : T) :
  Props.closeOnSelect (props (self w)) = true →
  trigger_selects (self w) tr X = true →
  let e := trigger_event tr in
  let h := trigger_handler tr X in
  let w' := exec (dispatch h) w in
  (Props.onSelect (props (self w)) = true →
     ∃ rest, trace (exec h w) = trace w ++ OnSelect X (state (self w)) e :: rest
             ∧ Forall (λ eff, is_onSelect eff = false) rest)
  ∧ State.inputValue (state (self w')) = Props.itemToString (props (self w)) X
  ∧ State.selectedItem (state (self w')) = Some X
  ∧ (isControlled (self w) = false →
       State.isOpen (state (self w')) = false ∧ isOpen (self w') = false).
Proof.
  intros Hc Hsel e h w'.
  destruct (trigger_reaches_handleSelect w tr X Hsel)
    as (w0 & tail & Hp0 & Hs0 & _ & Ht0 & Htail & Hself & Htrace).
  fold e h in Hself, Htrace.
  rewrite <- Hp0 in Hc.
  pose proof (handleSelect_closing X e w0 Hc) as Hh. simpl in Hh.
  split; [|].
  { intros Hon. rewrite Htrace, Hh. simpl. rewrite Hp0, Hon, Ht0, Hs0.
    eexists. split; [by rewrite <- !app_assoc|].
    apply Forall_app. split; [|done]. destruct (Props.onClose (props (self w))); repeat constructor. }
  assert (isControlled (self w0) = isControlled (self w)) as Hctl0.
  { unfold isControlled. by rewrite Hp0. }
  assert (isControlled (self w) = false →
          State.isOpen (state (self w')) = false) as Hclosed.
  { intros Hu. subst w'. rewrite dispatch_state, Hself, Hh. simpl.
    by rewrite !apply_updates_app, Hctl0, Hu. }
  split; [|split; [|intros Hu; split; [by apply Hclosed|]]].
  - subst w'. rewrite dispatch_state, Hself, Hh. simpl.
    by rewrite !apply_updates_app, Hp0.
  - subst w'. rewrite dispatch_state, Hself, Hh. simpl.
    by rewrite !apply_updates_app.
  - unfold isOpen. subst w'. rewrite dispatch_props, Hself, Hh. simpl. rewrite Hp0.
    unfold isControlled in Hu.
    destruct (Props.isOpen (props (self w))) as [b|] eqn:Hio.
    + by rewrite bool_decide_eq_true_2 in Hu by eauto.
    + apply Hclosed. unfold isControlled. rewrite Hio. by apply bool_decide_eq_false_2, is_Some_None.
Qed.

End Selection.

(** The scenario of the specification: three items, ArrowDown twice, Enter. *)
Lemma selection_closes_and_fills_input_witness :
  let w := third_highlighted in
  let X := mkEntry 3 None in
  let w' := exec (dispatch (makeHandleInputKeydown false (KeyboardEvent "Enter"))) w in
  (Props.closeOnSelect (props (self w)) = true
   ∧ trigger_selects (self w) (ByEnter false) X = true)
  ∧ State.inputValue (state (self w')) = "three"
  ∧ State.selectedItem (state (self w')) = Some X
  ∧ State.isOpen (state (self w')) = false.
Proof.
  intros w X w'.
  assert (Props.closeOnSelect (props (self w)) = true) as Hc by reflexivity.
  assert (trigger_selects (self w) (ByEnter false) X = true) as Hs by (vm_compute; reflexivity).
  destruct (selection_closes_and_fills_input w (ByEnter false) X Hc Hs)
    as (_ & Hv & Hi & Ho).
  split; [by split|].
  split; [exact Hv|]. split; [exact Hi|]. apply Ho. vm_compute; reflexivity.
Defined.

Section Keydown.
Context {T : Type} `{!Item T}.

Lemma keys_distinct (k : string) :
  k = "Enter" ∨ k = "Tab" →
  bool_decide (k = "ArrowUp") = false
  ∧ bool_decide (k = "ArrowDown") = false
  ∧ bool_decide (k = "Escape") = false.
Proof. intros [->| ->]; by vm_compute. Qed.

(** C10: an Enter or Tab keydown while [this.items] has no entry at the
    highlighted index selects nothing: the component is left as it was (no
    [setState] is queued, so no state field changes and nothing re-renders),
    and the only call made is the caller's own [onKeyDown], so neither
    [onSelect] nor [preventDefault] is called. *)
Theorem keydown_without_registered_highlight (cb : bool) (k : string) (w : World T) :
  k = "Enter" ∨ k = "Tab" →
  items (self w) !! State.highlightedIndex (state (self w)) = None →
  let e := KeyboardEvent k in
  let h := makeHandleInputKeydown cb e in
  self (exec h w) = self w
  ∧ window (exec h w) = window w
  ∧ trace (exec h w) = trace w ++ (if cb then [OnKeyDown e] else [])
  ∧ (idle w → self (exec (dispatch h) w) = self w).
Proof.
  intros Hk Hi e h.
  assert (exec h w = exec (call_opt cb (OnKeyDown e)) w) as Hrun.
  { subst h e. unfold makeHandleInputKeydown.
    unfold exec, mbind at 1 2 3, M_bind, bind, gets. simpl.
    rewrite !key_is_spec, Hi.
    destruct (keys_distinct k Hk) as (-> & -> & ->).
    rewrite bool_decide_eq_false_2 by (by intros [? ?]).
    by destruct cb. }
  assert (self (exec h w) = self w) as Hself.
  { rewrite Hrun. by destruct cb. }
  repeat split; [done|..].
  - rewrite Hrun. by destruct cb.
  - rewrite Hrun. destruct cb; simpl; by rewrite ?app_nil_r.
  - intros Hidle. unfold dispatch, exec, mbind, M_bind, bind.
    fold (exec h w). destruct (h w) as [[] w1] eqn:Hw1.
    assert (w1 = exec h w) as -> by (unfold exec; by rewrite Hw1).
    fold (exec flush (exec h w)). rewrite flush_idle; [done|].
    unfold idle in Hidle. by rewrite Hself.
Qed.

Lemma discreet_seq (c1 c2 : M T unit) :
  discreet c1 → discreet c2 → discreet (T:=T) (c1;; c2).
Proof.
  intros H1 H2 w. rewrite exec_bind.
  destruct (H1 w) as (a1 & E1 & F1).
  destruct (H2 (exec c1 w)) as (a2 & E2 & F2).
  exists (a1 ++ a2). rewrite E2, E1, <- app_assoc, List.filter_app, F1, F2. done.
Qed.

Lemma discreet_ret : discreet (T:=T) (mret ()).
Proof. intros w. exists []. by rewrite app_nil_r. Qed.

Lemma discreet_when (b : bool) (c : M T unit) : discreet c → discreet (T:=T) (when b c).
Proof. destruct b; [done|]. intros _. apply discreet_ret. Qed.

Lemma discreet_call_opt (b : bool) (eff : Effect T) :
  is_preventDefault eff = false → discreet (T:=T) (call_opt b eff).
Proof.
  intros He w. destruct b; simpl.
  - exists [eff]. simpl. by rewrite He.
  - apply discreet_ret.
Qed.

Lemma discreet_modify (f : AutoComplete T → AutoComplete T) : discreet (T:=T) (modify f).
Proof. intros w. exists []. by rewrite app_nil_r. Qed.

Lemma discreet_gets {A} (f : AutoComplete T → A) (k : A → M T unit) :
  (∀ a, discreet (k a)) → discreet (T:=T) (gets f ≫= k).
Proof. intros H w. rewrite exec_bind. apply H. Qed.

Lemma discreet_closeMenu : discreet (T:=T) closeMenu.
Proof.
  unfold closeMenu. apply discreet_gets; intros p.
  apply discreet_seq; [by apply discreet_call_opt|].
  apply discreet_gets; intros [|]; [apply discreet_ret|apply discreet_modify].
Qed.

Lemma discreet_handleSelect (X : T) (e : Event) : discreet (T:=T) (handleSelect X e).
Proof.
  unfold handleSelect. apply discreet_gets; intros p. apply discreet_gets; intros s.
  apply discreet_seq; [by apply discreet_call_opt|].
  destruct (Props.closeOnSelect p).
  - apply discreet_seq; [apply discreet_closeMenu|apply discreet_modify].
  - apply discreet_modify.
Qed.

Lemma discreet_moveHighlightedIndex (step : Z) : discreet (T:=T) (moveHighlightedIndex step).
Proof.
  unfold moveHighlightedIndex. apply discreet_gets; intros s.
  apply discreet_gets; intros n. apply discreet_modify.
Qed.

(** A block of the keydown handler that ends in [e.preventDefault()]. *)
Lemma consumed_block (b : bool) (c : M T unit) (e : Event) (w : World T) :
  discreet c →
  ∃ added, trace (exec (when b (c;; emit (PreventDefault e))) w) = trace w ++ added
           ∧ List.filter is_preventDefault added = if b then [PreventDefault e] else [].
Proof.
  intros Hc. destruct b; simpl.
  - rewrite exec_bind. destruct (Hc w) as (a & E & F).
    exists (a ++ [PreventDefault e]). simpl. rewrite E, List.filter_app, F.
    by rewrite <- app_assoc.
  - exists []. by rewrite app_nil_r.
Qed.

(** C8, as amended: the keydown handler calls [preventDefault] exactly once
    when the key is an enabled select key (Enter with
    [shouldSelectWithEnter], Tab with [shouldSelectWithTab]) and the registry
    has an entry at the highlighted index, whether or not that item is
    disabled, or when the key is ArrowUp or ArrowDown; it does not call it
    otherwise. *)
Theorem keydown_preventDefault (cb : bool) (e : Event) (w : World T) :
  let c := self w in
  let consumed :=
    bool_decide (is_Some (items c !! State.highlightedIndex (state c)))
    && (Props.shouldSelectWithEnter (props c) && key_is e "Enter"
        || Props.shouldSelectWithTab (props c) && key_is e "Tab")
    || key_is e "ArrowUp" || key_is e "ArrowDown" in
  ∃ added,
    trace (exec (makeHandleInputKeydown cb e) w) = trace w ++ added
    ∧ List.filter is_preventDefault added = if consumed then [PreventDefault e] else [].
Proof.
  intros c consumed. unfold makeHandleInputKeydown.
  rewrite !exec_bind, !exec_gets, !eval_gets. fold c.
  set (sel := bool_decide _ && _) in *.
  set (pick := match mjoin _ with Some _ => _ | None => _ end).
  assert (discreet pick) as Hpick.
  { subst pick. destruct (mjoin _); [|apply discreet_ret].
    apply discreet_when, discreet_handleSelect. }
  destruct (consumed_block sel pick e w Hpick) as (a1 & E1 & F1).
  set (w1 := exec (when sel _) w) in *.
  destruct (consumed_block (key_is e "ArrowUp") (moveHighlightedIndex (-1)) e w1
              (discreet_moveHighlightedIndex _)) as (a2 & E2 & F2).
  set (w2 := exec (when (key_is e "ArrowUp") _) w1) in *.
  destruct (consumed_block (key_is e "ArrowDown") (moveHighlightedIndex 1) e w2
              (discreet_moveHighlightedIndex _)) as (a3 & E3 & F3).
  set (w3 := exec (when (key_is e "ArrowDown") _) w2) in *.
  destruct (discreet_when (key_is e "Escape") closeMenu discreet_closeMenu w3) as (a4 & E4 & F4).
  set (w4 := exec (when (key_is e "Escape") _) w3) in *.
  destruct (discreet_call_opt cb (OnKeyDown e) eq_refl w4) as (a5 & E5 & F5).
  exists (a1 ++ a2 ++ a3 ++ a4 ++ a5).
  split.
  { rewrite E5, E4, E3, E2, E1. by rewrite <- !app_assoc. }
  rewrite !List.filter_app, F1, F2, F3, F4, F5, !app_nil_r.
  subst consumed. fold sel.
  assert (sel = true → key_is e "ArrowUp" = false ∧ key_is e "ArrowDown" = false) as Hsel.
  { subst sel. intros [_ Hk]%andb_prop. unfold key_is in *.
    destruct (event_key e) as [k|]; [|by split; apply bool_decide_eq_false_2].
    apply orb_prop in Hk as [[_ ?%bool_decide_eq_true]%andb_prop|[_ ?%bool_decide_eq_true]%andb_prop];
      simplify_eq; by vm_compute. }
  assert (key_is e "ArrowUp" = true → key_is e "ArrowDown" = false) as Hup.
  { unfold key_is. intros ?%bool_decide_eq_true. apply bool_decide_eq_false_2.
    congruence. }
  destruct sel; [destruct Hsel as [-> ->]; done|].
  destruct (key_is e "ArrowUp"); [rewrite Hup by done; done|].
  by destruct (key_is e "ArrowDown").
Qed.
End Keydown.

Lemma keydown_without_registered_highlight_witness :
  let w := beyond_rendered in
  let e := KeyboardEvent "Enter" in
  let h := makeHandleInputKeydown true e in
  (items (self w) !! State.highlightedIndex (state (self w)) = None ∧ idle w)
  ∧ self (exec h w) = self w
  ∧ trace (exec h w) = trace w ++ [OnKeyDown e]
  ∧ self (exec (dispatch h) w) = self w.
Proof.
  intros w e h.
  assert (items (self w) !! State.highlightedIndex (state (self w)) = None) as Hi
    by (vm_compute; reflexivity).
  assert (idle w) as Hidle by reflexivity.
  destruct (keydown_without_registered_highlight true "Enter" w (or_introl eq_refl) Hi)
    as (Hs & _ & Ht & Hd).
  split; [by split|]. split; [exact Hs|]. split; [exact Ht|]. exact (Hd Hidle).
Defined.

(** Enter on a highlighted, disabled item: [preventDefault] is called, yet
    nothing is selected: [onSelect] is not called and no update is queued. *)
Lemma preventDefault_without_selection :
  let w := disabled_highlighted in
  let e := KeyboardEvent "Enter" in
  let w' := exec (makeHandleInputKeydown false e) w in
  Props.shouldSelectWithEnter (props (self w)) = true
  ∧ items (self w) !! State.highlightedIndex (state (self w))
    = Some (Some (mkEntry 1 (Some true)))
  ∧ trace w' = trace w ++ [PreventDefault e]
  ∧ List.filter is_onSelect (trace w') = []
  ∧ pending (self w') = []
  ∧ state (self (exec (dispatch (makeHandleInputKeydown false e)) w)) = state (self w).
Proof. vm_compute. by repeat split. Qed.

Section OpenClose.
Context {T : Type} `{!Item T}.

Lemma isControlled_Some (c : AutoComplete T) (b : bool) :
  Props.isOpen (props c) = Some b → isControlled c = true.
Proof. intros H. unfold isControlled. rewrite H. by apply bool_decide_eq_true_2. Qed.

Lemma isControlled_false (c : AutoComplete T) :
  isControlled c = false → Props.isOpen (props c) = None.
Proof.
  unfold isControlled. destruct (Props.isOpen (props c)); [|done].
  by rewrite bool_decide_eq_true_2.
Qed.

Lemma dispatch_self_idle (h : M T unit) (w : World T) :
  pending (self (exec h w)) = [] → exec (dispatch h) w = exec h w.
Proof.
  intros Hp. unfold dispatch. rewrite exec_bind. by apply flush_idle.
Qed.

(** What [openMenu] does when the component is neither disabled nor
    controlled. *)
Lemma openMenu_opens (w : World T) :
  isControlled (self w) = false → Props.disabled (props (self w)) = false →
  let p := props (self w) in
  exec openMenu w =
  mkWorld
    (set_pending
       (pending (self w)
        ++ [UObject {| Patch.highlightedIndex :=
                         Some (default 0 (Props.defaultHighlightedIndex p));
                       Patch.inputValue := None;
                       Patch.isOpen := None;
                       Patch.selectedItem := None |};
            UObject {| Patch.highlightedIndex := None;
                       Patch.inputValue := None;
                       Patch.isOpen := Some true;
                       Patch.selectedItem := None |}])
       (self w))
    (window w)
    (trace w ++ if Props.onOpen p then [OnOpen] else []).
Proof.
  intros Hu Hd p. subst p. destruct w as [c win tr]. simpl in *.
  unfold openMenu, resetHighlightState. run. rewrite Hd.
  destruct (Props.onOpen (props c)); simpl; rewrite Hu; simpl;
    unfold set_pending; simpl; by rewrite <- ?app_assoc, ?app_nil_r.
Qed.

(** C3, as amended: when the component is neither controlled nor disabled,
    a change event on the input first queues what [openMenu] queues (the
    highlight reset to the default index, then [isOpen: true]) and then
    [inputValue] set to the typed text, whatever the open state was; after
    the update [isOpen = true], [inputValue] is the typed text and the
    highlighted index is the default one. *)
Theorem change_opens_then_sets (cb : bool) (v : string) (w : World T) :
  isControlled (self w) = false →
  Props.disabled (props (self w)) = false →
  let p := props (self w) in
  let h := makeHandleInputChange cb (ChangeEvent v) in
  let w' := exec (dispatch h) w in
  pending (self (exec h w))
  = pending (self w)
    ++ [UObject {| Patch.highlightedIndex :=
                     Some (default 0 (Props.defaultHighlightedIndex p));
                   Patch.inputValue := None;
                   Patch.isOpen := None;
                   Patch.selectedItem := None |};
        UObject {| Patch.highlightedIndex := None;
                   Patch.inputValue := None;
                   Patch.isOpen := Some true;
                   Patch.selectedItem := None |};
        UObject {| Patch.highlightedIndex := None;
                   Patch.inputValue := Some v;
                   Patch.isOpen := None;
                   Patch.selectedItem := None |}]
  ∧ State.isOpen (state (self w')) = true
  ∧ isOpen (self w') = true
  ∧ State.inputValue (state (self w')) = v
  ∧ State.highlightedIndex (state (self w')) = default 0 (Props.defaultHighlightedIndex p).
Proof.
  intros Hu Hd p h w'.
  assert (self (exec h w)
          = set_pending
              (pending (self (exec openMenu w))
               ++ [UObject {| Patch.highlightedIndex := None;
                              Patch.inputValue := Some v;
                              Patch.isOpen := None;
                              Patch.selectedItem := None |}])
              (self (exec openMenu w))) as Hself.
  { subst h. unfold makeHandleInputChange. rewrite !exec_bind. by destruct cb. }
  rewrite (openMenu_opens w Hu Hd) in Hself. simpl in Hself.
  assert (state (self w')
          = apply_updates (state (self w)) (pending (self (exec h w)))) as Hst.
  { subst w'. rewrite dispatch_state. by rewrite Hself. }
  rewrite Hself in Hst. simpl in Hst. rewrite <- app_assoc in Hst. simpl in Hst.
  rewrite apply_updates_app in Hst. simpl in Hst.
  split; [rewrite Hself; simpl; by rewrite <- app_assoc|].
  assert (State.isOpen (state (self w')) = true) as Hopen by (by rewrite Hst).
  split; [done|]. split.
  - unfold isOpen. subst w'. rewrite dispatch_props, Hself. simpl.
    by rewrite (isControlled_false _ Hu).
  - by rewrite Hst.
Qed.

(** C5, as amended: when the caller supplies [isOpen], [openMenu] and
    [closeMenu] only call [onOpen] / [onClose] (when supplied): they queue no
    state update at all, so the highlight is not reset, and the [isOpen] the
    component reports stays the caller's value. *)
Theorem controlled_open_close_only_notify (b : bool) (w : World T) :
  Props.isOpen (props (self w)) = Some b →
  let p := props (self w) in
  (self (exec openMenu w) = self w
   ∧ trace (exec openMenu w) = trace w ++ (if Props.onOpen p then [OnOpen] else []))
  ∧ (self (exec closeMenu w) = self w
     ∧ trace (exec closeMenu w) = trace w ++ (if Props.onClose p then [OnClose] else []))
  ∧ isOpen (self w) = b
  ∧ isOpen (self (exec (dispatch openMenu) w)) = b
  ∧ isOpen (self (exec (dispatch closeMenu) w)) = b.
Proof.
  intros Hb p. pose proof (isControlled_Some _ _ Hb) as Hc.
  assert (∀ h : M T unit, props (self (exec h w)) = props (self w) →
            isOpen (self (exec (dispatch h) w)) = b) as Hget.
  { intros h Hp. unfold isOpen. by rewrite dispatch_props, Hp, Hb. }
  destruct w as [c win tr]. simpl in *. subst p.
  unfold openMenu, closeMenu in *. 
  repeat split.
  - run. destruct (Props.onOpen (props c)); simpl; rewrite Hc; simpl; by rewrite ?orb_true_r.
  - run. destruct (Props.onOpen (props c)); simpl; rewrite Hc; simpl;
      by rewrite ?orb_true_r, ?app_nil_r.
  - run. destruct (Props.onClose (props c)); simpl; by rewrite Hc.
  - run. destruct (Props.onClose (props c)); simpl; rewrite Hc; simpl; by rewrite ?app_nil_r.
  - unfold isOpen. simpl. by rewrite Hb.
  - apply Hget. run. destruct (Props.onOpen (props c)); simpl; rewrite Hc; simpl; by rewrite ?orb_true_r.
  - apply Hget. run. destruct (Props.onClose (props c)); simpl; by rewrite Hc.
Qed.
End OpenClose.

Lemma change_opens_then_sets_witness :
  let w := third_highlighted in
  let w' := exec (dispatch (makeHandleInputChange false (ChangeEvent "ab"))) w in
  (isControlled (self w) = false ∧ Props.disabled (props (self w)) = false)
  ∧ State.isOpen (state (self w)) = false
  ∧ State.isOpen (state (self w')) = true
  ∧ State.inputValue (state (self w')) = "ab"
  ∧ State.highlightedIndex (state (self w')) = 0.
Proof.
  intros w w'.
  assert (isControlled (self w) = false) as Hu by (vm_compute; reflexivity).
  assert (Props.disabled (props (self w)) = false) as Hd by reflexivity.
  destruct (change_opens_then_sets false "ab" w Hu Hd) as (_ & Ho & _ & Hv & Hh).
  split; [by split|]. split; [vm_compute; reflexivity|].
  split; [exact Ho|]. split; [exact Hv|exact Hh].
Defined.

(** A change event on a disabled, uncontrolled component: the text is taken
    but the menu stays closed. *)
Lemma change_while_disabled_stays_closed :
  let w := disabled_closed in
  let w' := exec (dispatch (makeHandleInputChange false (ChangeEvent "ab"))) w in
  isControlled (self w) = false
  ∧ State.isOpen (state (self w')) = false
  ∧ isOpen (self w') = false
  ∧ State.inputValue (state (self w')) = "ab".
Proof. vm_compute. by repeat split. Qed.

Lemma controlled_open_close_only_notify_witness :
  let w := controlled_browsing in
  Props.isOpen (props (self w)) = Some true
  ∧ self (exec openMenu w) = self w
  ∧ trace (exec openMenu w) = trace w ++ [OnOpen]
  ∧ trace (exec closeMenu w) = trace w ++ [OnClose]
  ∧ isOpen (self (exec (dispatch openMenu) w)) = true
  ∧ isOpen (self (exec (dispatch closeMenu) w)) = true.
Proof.
  intros w.
  assert (Props.isOpen (props (self w)) = Some true) as Hb by reflexivity.
  destruct (controlled_open_close_only_notify true w Hb)
    as ((Hs & Ht) & (_ & Ht') & _ & Ho & Hc).
  split; [exact Hb|]. split; [exact Hs|]. split; [exact Ht|].
  split; [exact Ht'|]. split; [exact Ho|exact Hc].
Defined.

(** [openMenu] on a controlled component whose cursor is on the third item:
    [onOpen] is called, the highlight is not reset to the default index. *)
Lemma controlled_open_keeps_highlight :
  let w := controlled_browsing in
  let w' := exec (dispatch openMenu) w in
  isControlled (self w) = true
  ∧ State.highlightedIndex (state (self w)) = 2
  ∧ default 0 (Props.defaultHighlightedIndex (props (self w))) = 0
  ∧ trace (exec openMenu w) = trace w ++ [OnOpen]
  ∧ pending (self (exec openMenu w)) = []
  ∧ State.highlightedIndex (state (self w')) = 2.
Proof. vm_compute. by repeat split. Qed.

Section Browsing.
Context {T : Type} `{!Item T}.

Lemma handleSelect_staying (X : T) (e : Event) (w : World T) :
  Props.closeOnSelect (props (self w)) = false →
  exec (handleSelect X e) w =
  mkWorld
    (set_pending
       (pending (self w)
        ++ [UObject {| Patch.highlightedIndex := None;
                       Patch.inputValue := None;
                       Patch.isOpen := None;
                       Patch.selectedItem := Some (Some X) |}])
       (self w))
    (window w)
    (trace w ++ if Props.onSelect (props (self w)) then [OnSelect X (state (self w)) e] else []).
Proof.
  intros Hc. destruct w as [c win tr]. unfold handleSelect. run. rewrite Hc.
  destruct (Props.onSelect (props c)); simpl; by rewrite ?app_nil_r.
Qed.


(** In every other case it queues the reset of the highlight. *)
Lemma receive_hook_resets (nextProps : Props.t T) (w : World T) :
  Props.closeOnSelect nextProps = true ∨ State.selectedItem (state (self w)) = None →
  exec (UNSAFE_componentWillReceiveProps nextProps emptyContextObject) w
  = mkWorld
      (set_pending
         (pending (self w)
          ++ [UObject {| Patch.highlightedIndex :=
                           Some (default 0 (Props.defaultHighlightedIndex (props (self w))));
                         Patch.inputValue := None;
                         Patch.isOpen := None;
                         Patch.selectedItem := None |}])
         (self w))
      (window w) (trace w).
Proof.
  intros H. unfold UNSAFE_componentWillReceiveProps.
  rewrite exec_bind, exec_gets, eval_gets.
  match goal with |- exec (if ?b then _ else _) _ = _ =>
    assert (b = false) as -> end.
  { destruct H as [-> | Hs]; [done|].
    apply andb_false_intro2. simpl. by rewrite bool_decide_eq_false_2 by (intros Hn; by apply Hn). }
  unfold resetHighlightState. by rewrite exec_bind, exec_gets, eval_gets.
Qed.

(** The re-render the parent causes: the updates queued by the handler and
    by the hook are applied, and the timers are left alone. *)
Lemma receiveProps_spec (nextProps : Props.t T) (w : World T) :
  let w0 := exec (UNSAFE_componentWillReceiveProps nextProps emptyContextObject) w in
  let w' := exec (receiveProps nextProps) w in
  props (self w') = nextProps
  ∧ state (self w') = nextState w0
  ∧ pending (self w') = []
  ∧ window w' = window w0
  ∧ blurTimeout (self w') = blurTimeout (self w0)
  ∧ cancelCloseTimeout (self w') = cancelCloseTimeout (self w0).
Proof.
  intros w0 w'. subst w'. unfold receiveProps. rewrite exec_bind. fold w0.
  generalize w0. clear w0 w. intros w. unfold nextState.
  rewrite !exec_bind, !exec_gets, !eval_gets.
  match goal with |- context [exec render ?w1] =>
    pose proof (render_frame w1) as [Ep Es Eq Ew Eb Ec];
    set (wr := exec render w1) in *; set (r := eval render w1) end.
  simpl in *. destruct r; simpl; by repeat split.
Qed.

End Browsing.


(** The session in full, with [closeOnSelect = false], the default index 0
    and a parent that re-renders on [onSelect].  The first selection, of the
    third item, moves the highlight from 2 to 0.  After one ArrowDown the
    second selection, of another item, leaves it at 1, and so does a third
    selection, of the same item again. *)
Example first_selection_resets_highlight :
  let w := browsing in
  let w1 := exec select_with_enter_then_receive_props w in
  let w2 := exec (press Down) w1 in
  let w3 := exec select_with_enter_then_receive_props w2 in
  let w4 := exec select_with_enter_then_receive_props w3 in
  Props.closeOnSelect (props (self w)) = false
  ∧ default 0 (Props.defaultHighlightedIndex (props (self w))) = 0
  ∧ state (self w) = State.mk 2 EmptyString true None
  ∧ state (self w1) = State.mk 0 EmptyString true (Some (mkEntry 3 None))
  ∧ w2 = browsing_on_second
  ∧ state (self w2) = State.mk 1 EmptyString true (Some (mkEntry 3 None))
  ∧ state (self w3) = State.mk 1 EmptyString true (Some (mkEntry 2 None))
  ∧ state (self w4) = State.mk 1 EmptyString true (Some (mkEntry 2 None)).
Proof. vm_compute. by repeat split. Qed.

Section Navigation.
Context {T : Type} `{!Item T}.

Lemma dispatch_idle (h : M T unit) (w : World T) : idle (exec (dispatch h) w).
Proof.
  unfold idle, dispatch. rewrite exec_bind.
  by destruct (flush_spec (exec h w)) as (_ & _ & ? & _).
Qed.

(** An arrow key only moves the cursor and consumes the key. *)
Lemma arrow_keydown (a : Arrow) (w : World T) :
  exec (makeHandleInputKeydown false (KeyboardEvent (arrow_key a))) w
  = exec (emit (PreventDefault (KeyboardEvent (arrow_key a))))
      (exec (moveHighlightedIndex (arrow_step a)) w).
Proof.
  unfold makeHandleInputKeydown.
  rewrite !exec_bind, !exec_gets, !eval_gets, !key_is_spec.
  destruct a; simpl;
    repeat match goal with
    | |- context [bool_decide (?x = ?y)] =>
        let b := eval vm_compute in (bool_decide (x = y)) in
        change (bool_decide (x = y)) with b
    end; rewrite !andb_false_r; simpl; by rewrite ?exec_bind.
Qed.

Lemma press_state (a : Arrow) (w : World T) :
  idle w →
  state (self (exec (press a) w))
  = {| State.highlightedIndex :=
         clamp (State.highlightedIndex (state (self w)) + arrow_step a) 0
           (listSize (self w) - 1);
       State.inputValue := State.inputValue (state (self w));
       State.isOpen := State.isOpen (state (self w));
       State.selectedItem := State.selectedItem (state (self w)) |}.
Proof.
  intros Hidle. unfold press. rewrite dispatch_state, arrow_keydown.
  unfold moveHighlightedIndex. rewrite !exec_bind, !exec_gets, !eval_gets.
  unfold idle in Hidle. simpl. rewrite Hidle. simpl.
  unfold Patch.merge. simpl. reflexivity.
Qed.

Lemma clamp_range (x n : Z) :
  0 ≤ clamp x 0 (n - 1)
  ∧ (1 ≤ n → clamp x 0 (n - 1) ≤ n - 1)
  ∧ (n ≤ 0 → clamp x 0 (n - 1) = 0).
Proof. unfold clamp. lia. Qed.

Lemma press_all_cons (a : Arrow) (l : list Arrow) (w : World T) :
  eval (press_all (a :: l)) w
  = (listSize (self w), State.highlightedIndex (state (self (exec (press a) w))))
    :: eval (press_all l) (exec (press a) w)
  ∧ exec (press_all (a :: l)) w = exec (press_all l) (exec (press a) w).
Proof.
  cbn [press_all].
  repeat (rewrite ?eval_bind, ?exec_bind, ?exec_gets, ?eval_gets; simpl). done.
Qed.

Lemma press_all_range (l : list Arrow) (w : World T) :
  idle w →
  Forall (λ ni, 0 ≤ ni.2 ∧ (1 ≤ ni.1 → ni.2 ≤ ni.1 - 1) ∧ (ni.1 ≤ 0 → ni.2 = 0))
    (eval (press_all l) w).
Proof.
  revert w. induction l as [|a l IH]; intros w Hidle; [constructor|].
  destruct (press_all_cons a l w) as [-> _]. constructor.
  - simpl. rewrite press_state by done. simpl. apply clamp_range.
  - apply IH, dispatch_idle.
Qed.

Lemma press_up_at_top (k : nat) (w : World T) :
  idle w → State.highlightedIndex (state (self w)) = 0 →
  State.highlightedIndex (state (self (exec (press_all (replicate k Up)) w))) = 0.
Proof.
  revert w. induction k as [|k IH]; intros w Hidle H0; [done|].
  simpl replicate. destruct (press_all_cons Up (replicate k Up) w) as [_ ->].
  apply IH; [apply dispatch_idle|].
  rewrite press_state by done. simpl. rewrite H0. unfold clamp. lia.
Qed.

Lemma press_down_at_bottom (k : nat) (n : Z) (w : World T) :
  idle w → 1 ≤ n → State.highlightedIndex (state (self w)) = n - 1 →
  (eval (press_all (replicate k Down)) w).*1 = replicate k n →
  State.highlightedIndex (state (self (exec (press_all (replicate k Down)) w))) = n - 1.
Proof.
  revert w. induction k as [|k IH]; intros w Hidle Hn Hlast Hsizes; [done|].
  simpl replicate in *. destruct (press_all_cons Down (replicate k Down) w) as [Hev ->].
  rewrite Hev in Hsizes. simpl in Hsizes. injection Hsizes as Hsize Hrest.
  apply IH; [apply dispatch_idle|done| |done].
  rewrite press_state by done. simpl. rewrite Hlast, Hsize. unfold clamp. lia.
Qed.

(** C2, as amended: every ArrowUp (step -1) or ArrowDown (step +1) sets the
    highlighted index to [max 0 (min (current + step) (count - 1))], where
    [count] is [itemCount] if set and the registry size otherwise.  So along
    any sequence of arrow keys the index after each move is at least 0, at
    most [count - 1] whenever [count] is at least 1, and 0 when [count] is 0
    or less; ArrowUp repeated at index 0 stays at 0, ArrowDown repeated at
    the last index stays there: there is no wraparound. *)
Theorem navigation_is_clamped (w : World T) (l : list Arrow) :
  idle w →
  (∀ a, State.highlightedIndex (state (self (exec (press a) w)))
        = clamp (State.highlightedIndex (state (self w)) + arrow_step a) 0
            (default (Z.of_nat (size (items (self w)))) (itemCount (self w)) - 1))
  ∧ Forall (λ ni, 0 ≤ ni.2 ∧ (1 ≤ ni.1 → ni.2 ≤ ni.1 - 1) ∧ (ni.1 ≤ 0 → ni.2 = 0))
      (eval (press_all l) w)
  ∧ (∀ k, State.highlightedIndex (state (self w)) = 0 →
          State.highlightedIndex (state (self (exec (press_all (replicate k Up)) w))) = 0)
  ∧ (∀ k n, 1 ≤ n → State.highlightedIndex (state (self w)) = n - 1 →
            (eval (press_all (replicate k Down)) w).*1 = replicate k n →
            State.highlightedIndex
              (state (self (exec (press_all (replicate k Down)) w))) = n - 1).
Proof.
  intros Hidle. repeat split.
  - intros a. by rewrite press_state.
  - by apply press_all_range.
  - intros k. by apply press_up_at_top.
  - intros k n. by apply press_down_at_bottom.
Qed.
End Navigation.

Lemma navigation_is_clamped_witness :
  let w := third_highlighted in
  let w0 := first_highlighted in
  (idle w ∧ idle w0
   ∧ State.highlightedIndex (state (self w)) = 3 - 1
   ∧ State.highlightedIndex (state (self w0)) = 0
   ∧ (eval (press_all (replicate 5 Down)) w).*1 = replicate 5 3)
  ∧ State.highlightedIndex (state (self (exec (press Up) w))) = 1
  ∧ State.highlightedIndex (state (self (exec (press_all (replicate 5 Down)) w))) = 2
  ∧ State.highlightedIndex (state (self (exec (press_all (replicate 5 Up)) w0))) = 0.
Proof.
  intros w w0.
  assert (idle w) as Hi by reflexivity.
  assert (idle w0) as Hi0 by reflexivity.
  assert (State.highlightedIndex (state (self w)) = 3 - 1) as Hlast
    by (vm_compute; reflexivity).
  assert (State.highlightedIndex (state (self w0)) = 0) as Hfirst
    by (vm_compute; reflexivity).
  assert ((eval (press_all (replicate 5 Down)) w).*1 = replicate 5 3) as Hsizes
    by (vm_compute; reflexivity).
  destruct (navigation_is_clamped w [] Hi) as (Hstep & _ & _ & Hdown).
  destruct (navigation_is_clamped w0 [] Hi0) as (_ & _ & Hup & _).
  split; [by repeat split|].
  split; [rewrite (Hstep Up); vm_compute; reflexivity|].
  split; [exact (Hdown 5%nat 3 ltac:(lia) Hlast Hsizes)|].
  exact (Hup 5%nat Hfirst).
Defined.

(** ArrowDown on an empty list: the index is 0, while [count - 1] is -1. *)
Lemma empty_list_index_outside_range :
  let w := no_items in
  let w' := exec (press Down) w in
  idle w
  ∧ default (Z.of_nat (size (items (self w)))) (itemCount (self w)) = 0
  ∧ default (Z.of_nat (size (items (self w')))) (itemCount (self w')) = 0
  ∧ State.highlightedIndex (state (self w')) = 0
  ∧ ¬ (0 ≤ State.highlightedIndex (state (self w'))
       ≤ default (Z.of_nat (size (items (self w)))) (itemCount (self w)) - 1).
Proof. vm_compute. repeat split; try done. intros [_ Hle]. by apply Hle. Qed.

Section Timers.
Context {T : Type} `{!Item T}.

Lemma pop_due_none (target : nat) (w : World T) :
  match pop_earliest (queue (window w)) with
  | Some (t, _) => (target < timer_due t)%nat
  | None => True
  end →
  pop_due target w = (None, w).
Proof.
  intros Hq. unfold pop_due.
  destruct (pop_earliest (queue (window w))) as [[t rest]|]; [|done].
  apply Nat.leb_gt in Hq. by rewrite Hq.
Qed.

Lemma pop_due_some (target : nat) (t : Timer) (rest : list Timer) (w : World T) :
  pop_earliest (queue (window w)) = Some (t, rest) →
  (timer_due t ≤ target)%nat →
  pop_due target w
  = (Some t,
     mkWorld (self w)
       (mkWindow (Nat.max (now (window w)) (timer_due t)) (next_id (window w)) rest)
       (trace w)).
Proof.
  intros Hp Hd. unfold pop_due. rewrite Hp.
  apply Nat.leb_le in Hd. by rewrite Hd.
Qed.

(** No timer is due: time passes and nothing runs. *)
Lemma run_timers_quiet (fuel target : nat) (w : World T) :
  match pop_earliest (queue (window w)) with
  | Some (t, _) => (target < timer_due t)%nat
  | None => True
  end →
  exec (run_timers fuel target) w = w.
Proof.
  intros Hq. destruct fuel as [|fuel]; [done|]. simpl.
  rewrite exec_bind. unfold eval, exec at 2. by rewrite pop_due_none.
Qed.

(** The earliest timer is due: its callback runs, then the update cycle. *)
Lemma run_timers_fire (fuel target : nat) (t : Timer) (rest : list Timer) (w : World T) :
  pop_earliest (queue (window w)) = Some (t, rest) →
  (timer_due t ≤ target)%nat →
  exec (run_timers (S fuel) target) w
  = exec (run_timers fuel target)
      (exec (dispatch (run_callback (timer_callback t)))
         (mkWorld (self w)
            (mkWindow (Nat.max (now (window w)) (timer_due t)) (next_id (window w)) rest)
            (trace w))).
Proof.
  intros Hp Hd. simpl. rewrite exec_bind. unfold eval, exec at 2.
  rewrite (pop_due_some target t rest w Hp Hd). simpl. by rewrite exec_bind.
Qed.

Lemma advance_exec (dt : nat) (w : World T) :
  let w' := exec (run_timers (length (queue (window w))) (now (window w) + dt)) w in
  exec (advance dt) w
  = mkWorld (self w')
      (mkWindow (now (window w) + dt) (next_id (window w')) (queue (window w')))
      (trace w').
Proof. reflexivity. Qed.

Lemma blur_exec (cb : bool) (e : Event) (w : World T) :
  let win := window w in
  exec (makehandleInputBlur cb e) w
  = mkWorld (set_blurTimeout (Some (next_id win)) (self w))
      (mkWindow (now win) (S (next_id win))
         (from_option (λ id, cancel id (queue win)) (queue win) (blurTimeout (self w))
          ++ [mkTimer (next_id win) (now win + 200) (BlurClose e cb)]))
      (trace w).
Proof.
  unfold makehandleInputBlur. rewrite exec_bind, exec_gets, eval_gets.
  by destruct (blurTimeout (self w)).
Qed.

Lemma mousedown_exec (w : World T) :
  let win := window w in
  exec handleMenuMouseDown w
  = mkWorld (set_cancelCloseTimeout (Some (next_id win)) (self w))
      (mkWindow (now win) (S (next_id win))
         (from_option (λ id, cancel id (queue win)) (queue win)
            (cancelCloseTimeout (self w))
          ++ [mkTimer (next_id win) (now win + 0) CancelBlur]))
      (trace w).
Proof.
  unfold handleMenuMouseDown. rewrite exec_bind, exec_gets, eval_gets.
  by destruct (cancelCloseTimeout (self w)).
Qed.

Lemma clickOutside_exec (w : World T) :
  let win := window w in
  exec handleClickOutside w
  = mkWorld (self w)
      (mkWindow (now win) (S (next_id win))
         (from_option (λ id, cancel id (queue win)) (queue win) (blurTimeout (self w))
          ++ [mkTimer (next_id win) (now win + 0) ResolveClickOutside]))
      (trace w).
Proof.
  unfold handleClickOutside. rewrite exec_bind, exec_gets, eval_gets.
  by destruct (blurTimeout (self w)).
Qed.

Lemma clearTimeout_some (id : nat) (w : World T) :
  exec (clearTimeout (Some id)) w
  = mkWorld (self w)
      (mkWindow (now (window w)) (next_id (window w)) (cancel id (queue (window w))))
      (trace w).
Proof. reflexivity. Qed.

Lemma cancel_nil (id : nat) : cancel id [] = [].
Proof. reflexivity. Qed.

Lemma cancel_hit (id due : nat) (cb : TimerCallback) :
  cancel id [mkTimer id due cb] = [].
Proof. unfold cancel. rewrite filter_cons_False; [done|]. simpl. by intros Hne. Qed.

Lemma cancel_hit' (t : Timer) : cancel (timer_id t) [t] = [].
Proof. destruct t. apply cancel_hit. Qed.

Lemma cancel_miss (id : nat) (t : Timer) :
  timer_id t ≠ id → cancel id [t] = [t].
Proof. intros Hne. unfold cancel. by rewrite filter_cons_True. Qed.


Lemma from_option_cancel_nil (h : option nat) :
  from_option (λ id, cancel id []) [] h = [].
Proof. by destruct h. Qed.

Lemma from_option_cancel_miss (h : option nat) (t : Timer) :
  from_option (λ id, (id <? timer_id t)%nat) true h = true →
  from_option (λ id, cancel id [t]) [t] h = [t].
Proof.
  destruct h as [id|]; simpl; [|done]. intros Hlt%Nat.ltb_lt.
  apply cancel_miss. lia.
Qed.

(** The cancellation timer armed by a menu mousedown fires before the
    blur-close timer and removes it. *)
Lemma cancel_fires_first (fuel target : nat) (tb tc : Timer) (q : list Timer)
    (c : AutoComplete T) (win : Window) (tr : list (Effect T)) :
  pending c = [] →
  blurTimeout c = Some (timer_id tb) →
  timer_callback tc = CancelBlur →
  timer_id tc ≠ timer_id tb →
  (timer_due tc < timer_due tb)%nat →
  (timer_due tc ≤ target)%nat →
  q = [tb; tc] ∨ q = [tc; tb] →
  queue win = q →
  ∃ t', exec (run_timers (S (S fuel)) target) (mkWorld c win tr)
        = mkWorld c (mkWindow t' (next_id win) []) tr.
Proof.
  intros Hp Hb Hcb Hid Hdue Htarget Hq Hwin.
  assert (pop_earliest q = Some (tc, [tb])) as Hpop.
  { destruct Hq as [-> | ->]; simpl.
    - apply Nat.ltb_lt in Hdue. by rewrite Hdue.
    - assert ((timer_due tb <? timer_due tc)%nat = false) as -> by (apply Nat.ltb_ge; lia).
      done. }
  rewrite (run_timers_fire (S fuel) target tc [tb]); [|simpl; by rewrite Hwin|done].
  assert (exec (run_callback (timer_callback tc))
            (mkWorld c (mkWindow (Nat.max (now win) (timer_due tc)) (next_id win) [tb]) tr)
          = mkWorld c (mkWindow (Nat.max (now win) (timer_due tc)) (next_id win) []) tr)
    as Hrun.
  { rewrite Hcb. cbn [run_callback]. rewrite exec_bind, exec_gets, eval_gets.
    cbn [self]. rewrite Hb, clearTimeout_some. cbn [self window trace now next_id queue].
    by rewrite cancel_hit'. }
  cbn [self window trace now next_id].
  rewrite dispatch_self_idle; rewrite Hrun; [|done].
  eexists. by rewrite run_timers_quiet.
Qed.

Lemma handles_issued_spec (w : World T) :
  handles_issued w = true →
  from_option (λ id, (id <? next_id (window w))%nat) true (blurTimeout (self w)) = true
  ∧ from_option (λ id, (id <? next_id (window w))%nat) true (cancelCloseTimeout (self w)) = true.
Proof. unfold handles_issued. by intros [? ?]%andb_prop. Qed.

Lemma from_option_lt_mono (h : option nat) (n m : nat) :
  (n ≤ m)%nat →
  from_option (λ id, (id <? n)%nat) true h = true →
  from_option (λ id, (id <? m)%nat) true h = true.
Proof.
  intros Hle. destruct h as [id|]; simpl; [|done].
  intros ?%Nat.ltb_lt. apply Nat.ltb_lt. lia.
Qed.

(** C6: the input blurs, arming the 200-unit close timer, and a mousedown on
    the menu follows less than 200 units later, or the host delivers the
    mousedown first and the blur right after it.  Either way the
    zero-delay timer of the mousedown fires before the blur-close timer and
    cancels it: no callback is called ([onClose] in particular), the state is
    unchanged (the menu stays open) and no timer is left pending. *)
Theorem blur_then_menu_mousedown_stays_open
    (onBlur : bool) (e : Event) (d d' : nat) (w : World T) :
  idle w →
  queue (window w) = [] →
  handles_issued w = true →
  (d < 200)%nat →
  let w1 := exec (blur_then_mousedown onBlur e d d') w in
  let w2 := exec (mousedown_then_blur onBlur e d') w in
  (trace w1 = trace w
   ∧ state (self w1) = state (self w)
   ∧ isOpen (self w1) = isOpen (self w)
   ∧ queue (window w1) = [])
  ∧ (trace w2 = trace w
     ∧ state (self w2) = state (self w)
     ∧ isOpen (self w2) = isOpen (self w)
     ∧ queue (window w2) = []).
Proof.
  intros Hidle Hq Hh Hd w1 w2.
  destruct (handles_issued_spec w Hh) as [Hhb Hhc].
  destruct w as [c [t0 nid q] tr]. unfold idle in Hidle. simpl in *. subst q.
  split.
  - subst w1 w2. unfold blur_then_mousedown.
    rewrite exec_bind, dispatch_self_idle; rewrite blur_exec; [|done].
    cbn [self window trace now next_id queue]. rewrite from_option_cancel_nil. simpl app.
    rewrite exec_bind, advance_exec. cbn [self window trace now next_id queue length].
    rewrite run_timers_quiet by (simpl; lia).
    cbn [self window trace now next_id queue].
    rewrite exec_bind, dispatch_self_idle; rewrite mousedown_exec; [|done].
    cbn [self window trace now next_id queue cancelCloseTimeout set_blurTimeout].
    rewrite (from_option_cancel_miss _ (mkTimer nid (t0 + 200) (BlurClose e onBlur))) by done.
    rewrite advance_exec. cbn [self window trace now next_id queue length app].
    edestruct (cancel_fires_first 0 (t0 + d + d')
                 (mkTimer nid (t0 + 200) (BlurClose e onBlur))
                 (mkTimer (S nid) (t0 + d + 0) CancelBlur)) as [t' ->];
      [| | | | | |left; reflexivity|reflexivity|]; simpl; try done; try lia.
  - subst w1 w2. unfold mousedown_then_blur.
    rewrite exec_bind, dispatch_self_idle; rewrite mousedown_exec; [|done].
    cbn [self window trace now next_id queue]. rewrite from_option_cancel_nil. simpl app.
    rewrite exec_bind, dispatch_self_idle; rewrite blur_exec; [|done].
    cbn [self window trace now next_id queue blurTimeout set_cancelCloseTimeout].
    rewrite (from_option_cancel_miss _ (mkTimer nid (t0 + 0) CancelBlur))
      by (eapply from_option_lt_mono; [|exact Hhb]; simpl; lia).
    rewrite advance_exec. cbn [self window trace now next_id queue length app].
    edestruct (cancel_fires_first 0 (t0 + d')
                 (mkTimer (S nid) (t0 + 200) (BlurClose e onBlur))
                 (mkTimer nid (t0 + 0) CancelBlur)) as [t' ->];
      [| | | | | |right; reflexivity|reflexivity|]; simpl; try done; try lia.
Qed.

Lemma getItemProps_silent a : silent (T:=T) (exec (getItemProps a)).
Proof.
  intros w. unfold getItemProps.
  destruct a as [[idx [it|]]|]; simpl.
  - exists []. by rewrite app_nil_r.
  - by exists [ConsoleWarn "getItemProps requires an object with an `item` key"].
  - by exists [ConsoleWarn "getItemProps requires an object with an `item` key"].
Qed.

Lemma run_calls_silent calls : silent (T:=T) (exec (run_calls calls)).
Proof.
  induction calls as [|c calls IH]; intros w.
  - exists []. by rewrite app_nil_r.
  - destruct c as [a|a]; simpl.
    + rewrite exec_bind. apply (IH (exec (getMenuProps a) w)).
    + rewrite exec_bind.
      destruct (getItemProps_silent a w) as (a1 & E1 & N1).
      destruct (eval (getItemProps a) w) as [exn|ip].
      * exists a1. by rewrite <- E1.
      * destruct (IH (exec (getItemProps a) w)) as (a2 & E2 & N2).
        exists (a1 ++ a2). rewrite E2, E1, <- app_assoc. split; [done|].
        unfold notifications in *. by rewrite List.filter_app, N1, N2.
Qed.

Lemma render_silent : silent (T:=T) (exec render).
Proof.
  intros w. unfold render. rewrite !exec_bind, !exec_gets, !eval_gets.
  apply run_calls_silent.
Qed.

Lemma flush_silent : silent (T:=T) (exec flush).
Proof.
  intros w. unfold flush. rewrite exec_bind, exec_gets, eval_gets.
  destruct (pending (self w)) as [|u us]; [exists []; by rewrite app_nil_r|].
  rewrite !exec_bind, exec_gets, eval_gets.
  set (w0 := exec (modify _) _).
  assert (trace w0 = trace w) as <- by done.
  destruct (render_silent w0) as (a1 & E1 & N1).
  destruct (eval render w0) as [exn|].
  - exists (a1 ++ [Uncaught exn]). simpl. rewrite E1, <- app_assoc. split; [done|].
    unfold notifications in *. by rewrite List.filter_app, N1.
  - exists a1. by rewrite <- E1.
Qed.

Lemma closeMenu_exec (w : World T) :
  let p := props (self w) in
  exec closeMenu w =
  mkWorld
    (set_pending
       (pending (self w)
        ++ (if isControlled (self w) then []
            else [UFunction (fun s =>
                    {| Patch.highlightedIndex := None;
                       Patch.inputValue :=
                         Some (if truthy (Props.resetInputOnClose p)
                               then EmptyString else State.inputValue s);
                       Patch.isOpen := Some false;
                       Patch.selectedItem := None |})]))
       (self w))
    (window w)
    (trace w ++ (if Props.onClose p then [OnClose] else [])).
Proof.
  destruct w as [c win tr]. unfold closeMenu. run.
  destruct (Props.onClose (props c)), (isControlled c) eqn:Hc; simpl; rewrite ?Hc; simpl;
    unfold set_pending; destruct c; simpl; by rewrite ?app_nil_r.
Qed.

Lemma cancel_tracked_no_blur (w : World T) :
  blur_tracked w = true →
  forallb (λ t, negb (is_blur_close t))
    (from_option (λ id, cancel id (queue (window w))) (queue (window w))
       (blurTimeout (self w))) = true.
Proof.
  unfold blur_tracked. rewrite !List.forallb_forall. intros Htr t Hin.
  destruct (is_blur_close t) eqn:Hb; [exfalso|done].
  destruct (blurTimeout (self w)) as [id|] eqn:Hbt; simpl in Hin.
  - apply list_elem_of_In, list_elem_of_filter in Hin as [Hne Hin].
    apply list_elem_of_In, Htr in Hin. rewrite Hb in Hin. simpl in Hin.
    apply bool_decide_eq_true in Hin. congruence.
  - apply Htr in Hin. rewrite Hb in Hin. simpl in Hin.
    first [discriminate Hin | by apply bool_decide_eq_true in Hin].
Qed.

Lemma cancel_subset (h : option nat) (q : list Timer) (t : Timer) :
  In t (from_option (λ id, cancel id q) q h) → In t q.
Proof.
  destruct h as [id|]; simpl; [|done]. intros Hin.
  apply list_elem_of_In, list_elem_of_filter in Hin as [_ Hin].
  by apply list_elem_of_In.
Qed.

Lemma cancel_tracked_only_blur (w : World T) :
  blur_tracked w = true →
  forallb is_blur_close (queue (window w)) = true →
  from_option (λ id, cancel id (queue (window w))) (queue (window w))
    (blurTimeout (self w)) = [].
Proof.
  intros Htr Hall. pose proof (cancel_tracked_no_blur w Htr) as Hno.
  rewrite List.forallb_forall in Hall, Hno.
  destruct (from_option _ _ _) as [|t q'] eqn:Hq; [done|exfalso].
  assert (In t (t :: q')) as Hin by (by left).
  pose proof (Hno t Hin) as Hnb.
  rewrite <- Hq in Hin. apply cancel_subset, Hall in Hin.
  by rewrite Hin in Hnb.
Qed.

(** C7: an outside-click notification cancels the pending blur-close timer
    at once and closes nothing yet: all it arms is one zero-delay timer; no
    blur-close timer is pending afterwards.  When that timer fires, one
    scheduling tick later, [closeMenu] runs: with only the blur-close pending
    before the click, [onClose] is called exactly once, [onBlur] never, the
    menu is closed (when not controlled) and no timer is left. *)
Theorem click_outside_cancels_blur_close (d' : nat) (w : World T) :
  idle w →
  blur_tracked w = true →
  let w1 := exec (dispatch handleClickOutside) w in
  let w2 := exec (advance d') w1 in
  let tick := mkTimer (next_id (window w)) (now (window w) + 0) ResolveClickOutside in
  (self w1 = self w
   ∧ trace w1 = trace w
   ∧ queue (window w1)
     = from_option (λ id, cancel id (queue (window w))) (queue (window w))
         (blurTimeout (self w)) ++ [tick]
   ∧ forallb (λ t, negb (is_blur_close t)) (queue (window w1)) = true)
  ∧ (forallb is_blur_close (queue (window w)) = true →
       queue (window w1) = [tick]
       ∧ notifications (trace w2)
         = notifications (trace w)
           ++ (if Props.onClose (props (self w)) then [OnClose] else [])
       ∧ queue (window w2) = []
       ∧ (isControlled (self w) = false → State.isOpen (state (self w2)) = false)).
Proof.
  intros Hidle Htr w1 w2 tick. unfold idle in Hidle.
  assert (w1 = mkWorld (self w)
                 (mkWindow (now (window w)) (S (next_id (window w)))
                    (from_option (λ id, cancel id (queue (window w))) (queue (window w))
                       (blurTimeout (self w)) ++ [tick]))
                 (trace w)) as Hw1.
  { subst w1. rewrite dispatch_self_idle; rewrite clickOutside_exec; done. }
  split.
  { rewrite Hw1. cbn [self window trace queue]. repeat split.
    rewrite forallb_app, (cancel_tracked_no_blur w Htr). done. }
  intros Hall.
  rewrite (cancel_tracked_only_blur w Htr Hall) in Hw1. simpl app in Hw1.
  split; [by rewrite Hw1|].
  assert (∃ t' noise,
            w2 = mkWorld (self w2) (mkWindow t' (S (next_id (window w))) [])
                   (trace w ++ (if Props.onClose (props (self w)) then [OnClose] else [])
                    ++ noise)
            ∧ notifications noise = []
            ∧ state (self w2)
              = apply_updates (state (self w))
                  (if isControlled (self w) then []
                   else [UFunction (fun s =>
                     {| Patch.highlightedIndex := None;
                        Patch.inputValue :=
                          Some (if truthy (Props.resetInputOnClose (props (self w)))
                                then EmptyString else State.inputValue s);
                        Patch.isOpen := Some false;
                        Patch.selectedItem := None |})]))
    as (t' & noise & Hw2 & Hnoise & Hstate).
  { subst w2. rewrite advance_exec, Hw1. cbn [self window trace now next_id queue length].
    rewrite (run_timers_fire 0 _ tick []); [|done|subst tick; simpl; lia].
    cbn [run_timers timer_callback tick self window trace now next_id queue].
    change (exec (mret ()) ?x) with x.
    set (w0 := mkWorld (self w) _ (trace w)).
    pose proof (closeMenu_exec w0) as Hclose. simpl in Hclose.
    rewrite Hidle in Hclose. simpl in Hclose.
    unfold dispatch. rewrite exec_bind. cbn [run_callback].
    destruct (flush_silent (exec closeMenu w0)) as (noise & Etr & Hn).
    destruct (flush_spec (exec closeMenu w0)) as (Hp & Hs & _ & Hwin & _).
    eexists _, noise. split; [|split; [done|]].
    - cbn [self window trace now next_id queue]. rewrite Etr, Hwin, Hclose.
      cbn [self window trace now next_id queue]. by rewrite <- app_assoc.
    - cbn [self]. rewrite Hs, Hclose. by cbn. }
  rewrite Hw2. cbn [self window trace queue]. split; [|split; [done|]].
  - unfold notifications in *. rewrite !List.filter_app, Hnoise, app_nil_r.
    by destruct (Props.onClose (props (self w))).
  - intros Hu. rewrite Hstate, Hu. done.
Qed.


End Timers.

(** ** What holds of every world the host can reach *)

Section Reachable.
Context {T : Type} `{!Item T}.

Lemma keeps_bind {A B} (c : M T A) (k : A → M T B) :
  keeps_timers c → (∀ a, keeps_timers (k a)) → keeps_timers (c ≫= k).
Proof. intros Hc Hk w Hw. rewrite exec_bind. by apply Hk, Hc. Qed.

Lemma keeps_ret {A} (a : A) : keeps_timers (mret a : M T A).
Proof. by intros w Hw. Qed.

Lemma keeps_gets {A} (f : AutoComplete T → A) : keeps_timers (gets f).
Proof. by intros w Hw. Qed.

Lemma keeps_emit (eff : Effect T) : keeps_timers (emit eff).
Proof. by intros w Hw. Qed.

Lemma keeps_call_opt (b : bool) (eff : Effect T) : keeps_timers (call_opt b eff).
Proof. destruct b; [apply keeps_emit|apply keeps_ret]. Qed.

Lemma keeps_when (b : bool) (c : M T unit) : keeps_timers c → keeps_timers (when b c).
Proof. destruct b; [done|]. intros _. apply keeps_ret. Qed.

(** Assignments that leave the two timer handles alone. *)
Lemma keeps_modify (f : AutoComplete T → AutoComplete T) :
  (∀ c, blurTimeout (f c) = blurTimeout c
        ∧ cancelCloseTimeout (f c) = cancelCloseTimeout c) →
  keeps_timers (modify f).
Proof.
  intros Hf w [Hb Hh]. destruct (Hf (self w)) as [Eb Ec].
  split.
  - unfold blur_tracked in *. simpl. by rewrite Eb.
  - unfold handles_issued in *. simpl. by rewrite Eb, Ec.
Qed.

Lemma keeps_setState (u : Update T) : keeps_timers (setState u).
Proof. by apply keeps_modify. Qed.

Lemma forallb_filter_keeps {A} (f : A → bool) (P : A → Prop) `{!∀ x, Decision (P x)}
    (l : list A) :
  forallb f l = true → forallb f (filter P l) = true.
Proof.
  rewrite !List.forallb_forall. intros Hall x Hin. apply Hall.
  apply list_elem_of_In, list_elem_of_filter in Hin as [_ Hin].
  by apply list_elem_of_In.
Qed.

Lemma keeps_clearTimeout (h : option nat) : keeps_timers (clearTimeout h : M T unit).
Proof.
  intros w [Hb Hh]. destruct h as [id|]; [|done]. split; [|done].
  unfold blur_tracked in *. simpl. by apply forallb_filter_keeps.
Qed.

Ltac keeps_step :=
  first
    [ apply keeps_bind; [|intros ?]
    | apply keeps_ret | apply keeps_gets | apply keeps_emit | apply keeps_call_opt
    | apply keeps_setState | apply keeps_clearTimeout
    | apply keeps_when
    | by apply keeps_modify
    | match goal with
      | |- keeps_timers (if ?b then _ else _) => destruct b
      | |- keeps_timers (match ?o with _ => _ end) => destruct o
      end ].

Ltac keeps := repeat keeps_step.

Lemma keeps_openMenu : keeps_timers (T:=T) openMenu.
Proof. unfold openMenu. keeps. Qed.

Lemma keeps_closeMenu : keeps_timers (T:=T) closeMenu.
Proof. unfold closeMenu. keeps. Qed.

Lemma keeps_keydown (cb : bool) (e : Event) : keeps_timers (T:=T) (makeHandleInputKeydown cb e).
Proof. unfold makeHandleInputKeydown. keeps. Qed.

Lemma keeps_change (cb : bool) (e : Event) : keeps_timers (T:=T) (makeHandleInputChange cb e).
Proof. unfold makeHandleInputChange. keeps. Qed.

Lemma keeps_focus (cb : bool) (e : Event) : keeps_timers (T:=T) (makeHandleInputFocus cb e).
Proof. unfold makeHandleInputFocus. keeps. Qed.

Lemma keeps_click (X : T) (index : Z) (e : Event) :
  keeps_timers (T:=T) (makeHandleItemClick X index e).
Proof. unfold makeHandleItemClick. keeps. Qed.

Lemma keeps_mouseEnter (X : T) (index : Z) (e : Event) :
  keeps_timers (T:=T) (makeHandleMouseEnter X index e).
Proof. unfold makeHandleMouseEnter. keeps. Qed.


Lemma flush_keeps : keeps_timers (T:=T) flush.
Proof.
  intros w [Hb Hh]. destruct (flush_spec w) as (_ & _ & _ & Hw & Eb & Ec).
  split.
  - unfold blur_tracked in *. by rewrite Hw, Eb.
  - unfold handles_issued in *. by rewrite Hw, Eb, Ec.
Qed.

Lemma keeps_dispatch (h : M T unit) : keeps_timers h → keeps_timers (dispatch h).
Proof. intros Hh. unfold dispatch. apply keeps_bind; [done|intros _; apply flush_keeps]. Qed.

Lemma snoc_forallb {A} (f : A → bool) (l : list A) (x : A) :
  forallb f (l ++ [x]) = forallb f l && f x.
Proof. by rewrite forallb_app; simpl; rewrite andb_true_r. Qed.

Lemma from_option_lt_S (h : option nat) (n : nat) :
  from_option (λ id, (id <? n)%nat) true h = true →
  from_option (λ id, (id <? S n)%nat) true h = true.
Proof.
  destruct h as [id|]; simpl; [|done].
  intros ?%Nat.ltb_lt. apply Nat.ltb_lt. lia.
Qed.

Lemma keeps_blur (cb : bool) (e : Event) : keeps_timers (T:=T) (makehandleInputBlur cb e).
Proof.
  intros w [Hb Hh]. rewrite blur_exec. split.
  - unfold blur_tracked. cbn [self window queue blurTimeout set_blurTimeout].
    rewrite snoc_forallb. simpl. rewrite bool_decide_eq_true_2 by done.
    rewrite andb_true_r.
    pose proof (cancel_tracked_no_blur w Hb) as Hno.
    rewrite List.forallb_forall in *. intros t Hin. apply Hno in Hin.
    apply negb_true_iff in Hin. by rewrite Hin.
  - unfold handles_issued in *. simpl.
    apply andb_prop in Hh as [_ Hc]. rewrite (from_option_lt_S _ _ Hc).
    rewrite andb_true_r. apply Nat.ltb_lt. lia.
Qed.

Lemma keeps_mouseDown : keeps_timers (T:=T) handleMenuMouseDown.
Proof.
  intros w [Hb Hh]. rewrite mousedown_exec. split.
  - unfold blur_tracked in *. cbn [self window queue blurTimeout set_cancelCloseTimeout].
    rewrite snoc_forallb. simpl. rewrite andb_true_r.
    destruct (cancelCloseTimeout (self w)); simpl; [|done].
    by apply forallb_filter_keeps.
  - unfold handles_issued in *. simpl.
    apply andb_prop in Hh as [Hc _]. rewrite (from_option_lt_S _ _ Hc). simpl.
    apply Nat.ltb_lt. lia.
Qed.

Lemma keeps_clickOutside : keeps_timers (T:=T) handleClickOutside.
Proof.
  intros w [Hb Hh]. rewrite clickOutside_exec. split.
  - unfold blur_tracked in *. cbn [self window queue].
    rewrite snoc_forallb. simpl. rewrite andb_true_r.
    destruct (blurTimeout (self w)); simpl; [|done].
    by apply forallb_filter_keeps.
  - unfold handles_issued in *. simpl.
    apply andb_prop in Hh as [Hb' Hc].
    by rewrite (from_option_lt_S _ _ Hb'), (from_option_lt_S _ _ Hc).
Qed.

Lemma keeps_run_callback (cb : TimerCallback) : keeps_timers (T:=T) (run_callback cb).
Proof. destruct cb; simpl; keeps. Qed.

Lemma pop_earliest_In (q rest : list Timer) (t x : Timer) :
  pop_earliest q = Some (t, rest) → In x rest → In x q.
Proof.
  revert t rest. induction q as [|y q IH]; intros t rest; simpl; [done|].
  destruct (pop_earliest q) as [[z rest']|] eqn:Hq.
  - destruct (timer_due z <? timer_due y)%nat; intros [= <- <-].
    + intros [->|Hin]; [by left|right; by eapply IH].
    + by right.
  - intros [= <- <-]. by right.
Qed.

Lemma keeps_pop_due (target : nat) : keeps_timers (T:=T) (pop_due target).
Proof.
  intros w [Hb Hh]. unfold exec, pop_due.
  destruct (pop_earliest (queue (window w))) as [[t rest]|] eqn:Hp; [|done].
  destruct (timer_due t <=? target)%nat; [|done]. split; [|done].
  unfold blur_tracked in *. simpl. rewrite List.forallb_forall in *.
  intros x Hin. apply Hb. by eapply pop_earliest_In.
Qed.

Lemma keeps_run_timers (fuel target : nat) : keeps_timers (T:=T) (run_timers fuel target).
Proof.
  induction fuel as [|fuel IH]; simpl; [apply keeps_ret|].
  apply keeps_bind; [apply keeps_pop_due|]. intros [t|]; [|apply keeps_ret].
  apply keeps_bind; [|done]. apply keeps_dispatch, keeps_run_callback.
Qed.

Lemma keeps_advance (dt : nat) : keeps_timers (T:=T) (advance dt).
Proof.
  intros w Hw. rewrite advance_exec.
  by destruct (keeps_run_timers (length (queue (window w))) (now (window w) + dt) w Hw).
Qed.

Lemma pop_earliest_None (q : list Timer) : pop_earliest q = None → q = [].
Proof.
  destruct q as [|y q]; [done|]. simpl.
  destruct (pop_earliest q) as [[z rest']|]; [|done].
  by destruct (timer_due z <? timer_due y)%nat.
Qed.

Lemma pop_earliest_min (q rest : list Timer) (t x : Timer) :
  pop_earliest q = Some (t, rest) → In x q → (timer_due t ≤ timer_due x)%nat.
Proof.
  revert t rest. induction q as [|y q IH]; intros t rest; simpl; [done|].
  destruct (pop_earliest q) as [[z rest']|] eqn:Hq.
  - destruct (timer_due z <? timer_due y)%nat eqn:Hlt; intros [= <- <-].
    + apply Nat.ltb_lt in Hlt. intros [<-|Hin]; [lia|by eapply IH].
    + apply Nat.ltb_ge in Hlt. intros [<-|Hin]; [lia|].
      specialize (IH z rest' eq_refl Hin). lia.
  - intros [= <- <-] [<-|Hin]; [lia|]. apply pop_earliest_None in Hq. by subst q.
Qed.

Lemma pop_earliest_length (q rest : list Timer) (t : Timer) :
  pop_earliest q = Some (t, rest) → length q = S (length rest).
Proof.
  revert t rest. induction q as [|y q IH]; intros t rest; simpl; [done|].
  destruct (pop_earliest q) as [[z rest']|] eqn:Hq.
  - destruct (timer_due z <? timer_due y)%nat; intros [= <- <-]; [|done].
    simpl. f_equal. by eapply IH.
  - by intros [= <- <-].
Qed.

(** A timer callback arms no timer: afterwards the queue is what it was,
    less what the callback cancelled. *)
Lemma callback_queue (cb : TimerCallback) (w : World T) :
  ∃ h, queue (window (exec (dispatch (run_callback cb)) w))
       = from_option (λ id, cancel id (queue (window w))) (queue (window w)) h.
Proof.
  unfold dispatch. rewrite exec_bind.
  destruct (flush_spec (exec (run_callback cb) w)) as (_ & _ & _ & -> & _).
  destruct cb as [e supplied| |]; simpl.
  - exists None. rewrite exec_bind, closeMenu_exec. by destruct supplied.
  - exists (blurTimeout (self w)). rewrite exec_bind, exec_gets, eval_gets.
    by destruct (blurTimeout (self w)).
  - exists None. by rewrite closeMenu_exec.
Qed.

Lemma cancel_length (h : option nat) (q : list Timer) :
  (length (from_option (λ id, cancel id q) q h) ≤ length q)%nat.
Proof. destruct h; simpl; [apply length_filter|done]. Qed.

(** The queue length is fuel enough: once [run_timers] returns, every timer
    still pending is due later than the target. *)
Lemma run_timers_complete (fuel target : nat) (w : World T) (x : Timer) :
  (length (queue (window w)) ≤ fuel)%nat →
  In x (queue (window (exec (run_timers fuel target) w))) →
  (target < timer_due x)%nat.
Proof.
  revert w. induction fuel as [|fuel IH]; intros w Hlen.
  { change (exec (run_timers 0 target) w) with w.
    destruct (queue (window w)) eqn:Hq; simpl in *; [by intros []|lia]. }
  destruct (pop_earliest (queue (window w))) as [[t rest]|] eqn:Hp.
  - destruct (decide (timer_due t ≤ target)%nat) as [Hdue|Hdue].
    + rewrite (run_timers_fire fuel target t rest w Hp Hdue).
      apply IH.
      destruct (callback_queue (timer_callback t)
                  (mkWorld (self w)
                     (mkWindow (Nat.max (now (window w)) (timer_due t))
                        (next_id (window w)) rest) (trace w))) as [h ->].
      cbn [window queue]. pose proof (cancel_length h rest).
      apply pop_earliest_length in Hp. lia.
    + rewrite run_timers_quiet by (rewrite Hp; lia).
      intros Hin. pose proof (pop_earliest_min _ _ _ _ Hp Hin). lia.
  - rewrite run_timers_quiet by (by rewrite Hp).
    apply pop_earliest_None in Hp. by rewrite Hp.
Qed.

Lemma advance_complete (dt : nat) (w : World T) (x : Timer) :
  let w' := exec (advance dt) w in
  now (window w') = (now (window w) + dt)%nat
  ∧ (In x (queue (window w')) → (now (window w') < timer_due x)%nat).
Proof.
  intros w'. subst w'. rewrite advance_exec. cbn [window now queue]. split; [done|].
  by apply run_timers_complete.
Qed.

Lemma keeps_deliver (ev : HostEvent) : keeps_timers (T:=T) (deliver ev).
Proof.
  destruct ev; simpl; try apply keeps_dispatch.
  - apply keeps_change.
  - apply keeps_focus.
  - apply keeps_blur.
  - apply keeps_keydown.
  - apply keeps_click.
  - apply keeps_mouseEnter.
  - apply keeps_mouseDown.
  - apply keeps_clickOutside.
  - apply keeps_openMenu.
  - apply keeps_closeMenu.
  - apply keeps_advance.
Qed.

Lemma run_timers_idle (fuel target : nat) (w : World T) :
  idle w → idle (exec (run_timers fuel target) w).
Proof.
  revert w. induction fuel as [|fuel IH]; intros w Hw; [done|]. simpl.
  rewrite exec_bind. 
  assert (idle (exec (pop_due target) w)) as Hw'.
  { unfold exec, pop_due. destruct (pop_earliest _) as [[t rest]|]; [|done].
    by destruct (_ <=? _)%nat. }
  destruct (eval (pop_due target) w) as [t|]; [|done].
  rewrite exec_bind. apply IH, dispatch_idle.
Qed.

Lemma deliver_idle (ev : HostEvent) (w : World T) : idle w → idle (exec (deliver ev) w).
Proof.
  intros Hw. destruct ev; simpl; try apply dispatch_idle.
  rewrite advance_exec. by apply run_timers_idle.
Qed.

Lemma mount_ok (p : Props.t T) : idle (mount p) ∧ timers_ok (mount p).
Proof.
  unfold mount. rewrite exec_bind.
  match goal with |- context [exec render ?w0] =>
    pose proof (render_frame w0) as [_ _ Hp Hw Hb Hc]; simpl in *;
    set (w1 := exec render w0) in *; set (r := eval render w0) end.
  assert (idle (exec (match r with Some exn => emit (Uncaught exn) | None => mret () end) w1)
          ∧ timers_ok (exec (match r with Some exn => emit (Uncaught exn) | None => mret () end) w1));
    [|done].
  assert (idle w1 ∧ timers_ok w1) as [Hi Ht]; [|by destruct r].
  split; [done|]. split.
  - unfold blur_tracked. by rewrite Hw.
  - unfold handles_issued. by rewrite Hw, Hb, Hc.
Qed.

(** Whatever the host delivers after mounting, the component is again at
    rest, its pending blur-close timers are the one [this.blurTimeout]
    names, and its handles were issued before. *)
Lemma reachable_ok (p : Props.t T) (evs : list HostEvent) :
  let w := exec (deliver_all evs) (mount p) in
  idle w ∧ timers_ok w.
Proof.
  simpl. generalize (mount_ok p). generalize (mount p).
  induction evs as [|ev evs IH]; intros w [Hi Ht]; [done|].
  simpl. rewrite exec_bind. apply IH. split.
  - by apply deliver_idle.
  - by apply keeps_deliver.
Qed.
End Reachable.

Lemma blur_then_menu_mousedown_stays_open_witness :
  let w := opened in
  let w1 := exec (blur_then_mousedown true FocusEvent 50 500) w in
  let w2 := exec (mousedown_then_blur true FocusEvent 500) w in
  (idle w ∧ queue (window w) = [] ∧ handles_issued w = true ∧ (50 < 200)%nat)
  ∧ State.isOpen (state (self w)) = true
  ∧ (trace w1 = trace w ∧ State.isOpen (state (self w1)) = true ∧ queue (window w1) = [])
  ∧ (trace w2 = trace w ∧ State.isOpen (state (self w2)) = true ∧ queue (window w2) = []).
Proof.
  intros w w1 w2.
  assert (idle w) as Hi by reflexivity.
  assert (queue (window w) = []) as Hq by reflexivity.
  assert (handles_issued w = true) as Hh by reflexivity.
  assert (50 < 200)%nat as Hd by lia.
  assert (State.isOpen (state (self w)) = true) as Ho by (vm_compute; reflexivity).
  destruct (blur_then_menu_mousedown_stays_open true FocusEvent 50 500 w Hi Hq Hh Hd)
    as ((Ht1 & Hs1 & _ & Hq1) & (Ht2 & Hs2 & _ & Hq2)).
  split; [by repeat split|]. split; [exact Ho|].
  split; (split; [done|split; [|done]]).
  - fold w1 in Hs1. by rewrite Hs1.
  - fold w2 in Hs2. by rewrite Hs2.
Defined.

(** Without the mousedown the blur-close timer does fire: after 200 time
    units [onClose] and the caller's [onBlur] are called and the menu is
    closed. *)
Example blur_alone_closes :
  let w := exec (deliver_all [InputBlur true; Elapse 200]) opened in
  trace w = trace opened ++ [OnClose; OnBlur FocusEvent]
  ∧ State.isOpen (state (self opened)) = true
  ∧ State.isOpen (state (self w)) = false
  ∧ queue (window w) = [].
Proof. vm_compute. by repeat split. Qed.

Lemma click_outside_cancels_blur_close_witness :
  let w := blurred in
  let w1 := exec (dispatch handleClickOutside) w in
  let w2 := exec (advance 0) w1 in
  (idle w ∧ blur_tracked w = true ∧ forallb is_blur_close (queue (window w)) = true)
  ∧ queue (window w) = [mkTimer 1 200 (BlurClose FocusEvent true)]
  ∧ queue (window w1) = [mkTimer 2 50 ResolveClickOutside]
  ∧ trace w1 = trace w
  ∧ notifications (trace w2) = notifications (trace w) ++ [OnClose]
  ∧ State.isOpen (state (self w2)) = false
  ∧ queue (window w2) = [].
Proof.
  intros w w1 w2.
  assert (idle w) as Hi by reflexivity.
  assert (blur_tracked w = true) as Hb by (vm_compute; reflexivity).
  assert (forallb is_blur_close (queue (window w)) = true) as Hall
    by (vm_compute; reflexivity).
  destruct (click_outside_cancels_blur_close 0 w Hi Hb) as ((_ & Ht1 & _ & _) & Hafter).
  destruct (Hafter Hall) as (Hq1 & Hn & Hq2 & Hc).
  split; [by repeat split|].
  split; [vm_compute; reflexivity|].
  split; [exact Hq1|]. split; [exact Ht1|]. split; [exact Hn|].
  split; [apply Hc; vm_compute; reflexivity|exact Hq2].
Defined.

Section Registration.
Context {T : Type} `{!Item T}.

(** Registering a real item never throws. *)
Lemma getItemProps_with_item (index : option Z) (X : T) (w : World T) :
  let newIndex := default (Z.of_nat (size (items (self w)))) index in
  eval (getItemProps (Some (GetItemArgs.mk index (Some X)))) w
  = inr {| data_test_id := item_data_test_id X;
           onClick := makeHandleItemClick X newIndex;
           onMouseEnter := makeHandleMouseEnter X newIndex |}
  ∧ trace (exec (getItemProps (Some (GetItemArgs.mk index (Some X)))) w) = trace w
  ∧ items (self (exec (getItemProps (Some (GetItemArgs.mk index (Some X)))) w))
    = <[newIndex := Some X]> (items (self w)).
Proof. done. Qed.

(** C9, on the code: [getItemProps] called without an item logs the warning
    and registers [undefined] under the computed index (the given index, or
    the registry size), and then throws a [TypeError] on reading
    ['data-test-id'] of the missing item: no props are returned. *)
Theorem getItemProps_without_item_throws (index : option Z) (w : World T) :
  let itemProps := Some (GetItemArgs.mk index None) in
  let newIndex := default (Z.of_nat (size (items (self w)))) index in
  eval (getItemProps itemProps) w
  = inl (TypeError "Cannot read properties of undefined (reading 'data-test-id')")
  ∧ eval (getItemProps None) w
    = inl (TypeError "Cannot read properties of undefined (reading 'data-test-id')")
  ∧ trace (exec (getItemProps itemProps) w)
    = trace w ++ [ConsoleWarn "getItemProps requires an object with an `item` key"]
  ∧ items (self (exec (getItemProps itemProps) w))
    = <[newIndex := None]> (items (self w)).
Proof. done. Qed.
End Registration.

(** A render pass that registers an item-less entry: the warning is logged,
    the exception escapes [render], and the item after it is never
    registered. *)
Example render_aborted_by_missing_item :
  let w := mount (listening_props careless_children) in
  trace w
  = [ConsoleWarn "getItemProps requires an object with an `item` key";
     Uncaught (TypeError "Cannot read properties of undefined (reading 'data-test-id')")]
  ∧ items (self w) !! 0 = Some None
  ∧ items (self w) !! 1 = None.
Proof. vm_compute. by repeat split. Qed.

(** The scenario of the specification with the default props: three items,
    ArrowDown twice, Enter.  The default [itemToString] yields the empty
    string. *)
Example default_props_scenario :
  let w0 := mount (defaultProps (list_children three_items)) in
  let w := exec (deliver_all [InputFocus false;
                              InputKeyDown false "ArrowDown";
                              InputKeyDown false "ArrowDown"]) w0 in
  let w' := exec (deliver (InputKeyDown false "Enter")) w in
  State.highlightedIndex (state (self w)) = 2
  ∧ State.isOpen (state (self w)) = true
  ∧ State.selectedItem (state (self w')) = Some (mkEntry 3 None)
  ∧ State.inputValue (state (self w')) = EmptyString
  ∧ State.isOpen (state (self w')) = false.
Proof. vm_compute. by repeat split. Qed.

(** * Further properties of the component *)


(** ** Which handlers arm timers *)

Section Calm.
Context {T : Type} `{!Item T}.

Lemma arms_nothing_refl (w : World T) : arms_nothing w w.
Proof. by split. Qed.

Lemma arms_nothing_trans (w1 w2 w3 : World T) :
  arms_nothing w1 w2 → arms_nothing w2 w3 → arms_nothing w1 w3.
Proof. intros [] []; split; try congruence. by etrans. Qed.

Lemma calm_bind {A B} (c : M T A) (k : A → M T B) :
  calm c → (∀ a, calm (k a)) → calm (c ≫= k).
Proof.
  intros Hc Hk w. rewrite exec_bind.
  eapply arms_nothing_trans; [apply Hc|apply Hk].
Qed.

Lemma calm_ret {A} (a : A) : calm (mret a : M T A).
Proof. intros w. apply arms_nothing_refl. Qed.

Lemma calm_gets {A} (f : AutoComplete T → A) : calm (gets f).
Proof. intros w. apply arms_nothing_refl. Qed.

Lemma calm_emit (eff : Effect T) : calm (emit eff).
Proof. intros w. by split. Qed.

Lemma calm_call_opt (b : bool) (eff : Effect T) : calm (call_opt b eff).
Proof. destruct b; [apply calm_emit|apply calm_ret]. Qed.

Lemma calm_when (b : bool) (c : M T unit) : calm c → calm (when b c).
Proof. destruct b; [done|]. intros _. apply calm_ret. Qed.

Lemma calm_modify (f : AutoComplete T → AutoComplete T) :
  (∀ c, blurTimeout (f c) = blurTimeout c
        ∧ cancelCloseTimeout (f c) = cancelCloseTimeout c) →
  calm (modify f).
Proof. intros Hf w. destruct (Hf (self w)). by split. Qed.

Lemma calm_setState (u : Update T) : calm (setState u).
Proof. by apply calm_modify. Qed.

Lemma calm_clearTimeout (h : option nat) : calm (clearTimeout h : M T unit).
Proof.
  intros w. destruct h as [id|]; [|apply arms_nothing_refl].
  split; try done. apply sublist_filter.
Qed.

Lemma calm_flush : calm (T:=T) flush.
Proof.
  intros w. destruct (flush_spec w) as (_ & _ & _ & Hw & Eb & Ec).
  split; try done; by rewrite Hw.
Qed.

Lemma calm_dispatch (h : M T unit) : calm h → calm (dispatch h).
Proof. intros Hh. unfold dispatch. apply calm_bind; [done|intros _; apply calm_flush]. Qed.

Ltac calm_step :=
  first
    [ apply calm_bind; [|intros ?]
    | apply calm_ret | apply calm_gets | apply calm_emit | apply calm_call_opt
    | apply calm_setState | apply calm_clearTimeout
    | apply calm_when
    | by apply calm_modify
    | match goal with
      | |- calm (if ?b then _ else _) => destruct b
      | |- calm (match ?o with _ => _ end) => destruct o
      end ].

Ltac calms := repeat calm_step.

Lemma calm_openMenu : calm (T:=T) openMenu.
Proof. unfold openMenu. calms. Qed.

Lemma calm_closeMenu : calm (T:=T) closeMenu.
Proof. unfold closeMenu. calms. Qed.

Lemma calm_keydown (cb : bool) (e : Event) : calm (T:=T) (makeHandleInputKeydown cb e).
Proof. unfold makeHandleInputKeydown. calms. Qed.

Lemma calm_change (cb : bool) (e : Event) : calm (T:=T) (makeHandleInputChange cb e).
Proof. unfold makeHandleInputChange. calms. Qed.

Lemma calm_focus (cb : bool) (e : Event) : calm (T:=T) (makeHandleInputFocus cb e).
Proof. unfold makeHandleInputFocus. calms. Qed.

Lemma calm_click (X : T) (index : Z) (e : Event) :
  calm (T:=T) (makeHandleItemClick X index e).
Proof. unfold makeHandleItemClick. calms. Qed.

Lemma calm_mouseEnter (X : T) (index : Z) (e : Event) :
  calm (T:=T) (makeHandleMouseEnter X index e).
Proof. unfold makeHandleMouseEnter. calms. Qed.

Lemma calm_run_callback (cb : TimerCallback) : calm (T:=T) (run_callback cb).
Proof. destruct cb; simpl; calms. Qed.

Lemma pop_earliest_sublist (q rest : list Timer) (t : Timer) :
  pop_earliest q = Some (t, rest) → rest `sublist_of` q.
Proof.
  revert t rest. induction q as [|y q IH]; intros t rest; simpl; [done|].
  destruct (pop_earliest q) as [[z rest']|] eqn:Hq.
  - destruct (timer_due z <? timer_due y)%nat; intros [= <- <-].
    + apply sublist_skip. by eapply IH.
    + by apply sublist_cons.
  - intros [= <- <-]. by apply sublist_cons.
Qed.

Lemma calm_pop_due (target : nat) : calm (T:=T) (pop_due target).
Proof.
  intros w. unfold exec, pop_due.
  destruct (pop_earliest (queue (window w))) as [[t rest]|] eqn:Hp;
    [|apply arms_nothing_refl].
  destruct (timer_due t <=? target)%nat; [|apply arms_nothing_refl].
  split; try done. simpl. by eapply pop_earliest_sublist.
Qed.

Lemma calm_run_timers (fuel target : nat) : calm (T:=T) (run_timers fuel target).
Proof.
  induction fuel as [|fuel IH]; simpl; [apply calm_ret|].
  apply calm_bind; [apply calm_pop_due|]. intros [t|]; [|apply calm_ret].
  apply calm_bind; [|done]. apply calm_dispatch, calm_run_callback.
Qed.

Lemma calm_advance (dt : nat) : calm (T:=T) (advance dt).
Proof.
  intros w. rewrite advance_exec.
  by destruct (calm_run_timers (length (queue (window w))) (now (window w) + dt) w).
Qed.

Lemma calm_deliver (ev : HostEvent (T:=T)) :
  arms_timer ev = false → calm (deliver ev).
Proof.
  intros Hev. destruct ev; simpl in *; try done; try apply calm_dispatch.
  - apply calm_change.
  - apply calm_focus.
  - apply calm_keydown.
  - apply calm_click.
  - apply calm_mouseEnter.
  - apply calm_openMenu.
  - apply calm_closeMenu.
  - apply calm_advance.
Qed.

(** X9: only a blur of the input, a mousedown on the menu and an outside click
    arm a timer. *)
Theorem only_blur_mousedown_outside_click_arm_timers
    (ev : HostEvent (T:=T)) (w : World T) :
  arms_timer ev = false →
  let w' := exec (deliver ev) w in
  queue (window w') `sublist_of` queue (window w)
  ∧ next_id (window w') = next_id (window w)
  ∧ blurTimeout (self w') = blurTimeout (self w)
  ∧ cancelCloseTimeout (self w') = cancelCloseTimeout (self w).
Proof. intros Hev. by destruct (calm_deliver ev Hev w). Qed.
End Calm.


(** ** Pending timers *)

Section Pending.
Context {T : Type} `{!Item T}.

Lemma forallb_sublist {A} (f : A → bool) (l1 l2 : list A) :
  l1 `sublist_of` l2 → forallb f l2 = true → forallb f l1 = true.
Proof.
  intros Hsub. rewrite !List.forallb_forall. intros Hall x Hin. apply Hall.
  apply list_elem_of_In. eapply sublist_subseteq; [done|]. by apply list_elem_of_In.
Qed.

Lemma filter_length_sublist {A} (f : A → bool) (l1 l2 : list A) :
  l1 `sublist_of` l2 →
  (length (List.filter f l1) ≤ length (List.filter f l2))%nat.
Proof.
  induction 1 as [|x l1 l2 _ IH|x l1 l2 _ IH]; simpl; [done|..];
    destruct (f x); simpl; lia.
Qed.

Lemma arms_nothing_blur_tracked (w w' : World T) :
  arms_nothing w w' → blur_tracked w = true → blur_tracked w' = true.
Proof.
  intros [Eb _ _ Hq]. unfold blur_tracked. rewrite Eb. by apply forallb_sublist.
Qed.

Lemma arms_nothing_cancel_tracked (w w' : World T) :
  arms_nothing w w' → cancel_tracked w = true → cancel_tracked w' = true.
Proof.
  intros [_ Ec _ Hq]. unfold cancel_tracked. rewrite Ec. by apply forallb_sublist.
Qed.

Lemma dispatch_window (h : M T unit) (w : World T) :
  window (exec (dispatch h) w) = window (exec h w)
  ∧ blurTimeout (self (exec (dispatch h) w)) = blurTimeout (self (exec h w))
  ∧ cancelCloseTimeout (self (exec (dispatch h) w)) = cancelCloseTimeout (self (exec h w)).
Proof.
  unfold dispatch. rewrite exec_bind.
  by destruct (flush_spec (exec h w)) as (_ & _ & _ & ? & ? & ?).
Qed.

(** The timers the cancellation handle does not name, once the named one
    is cleared: no cancellation timer is among them. *)
Lemma cancel_tracked_no_cancel (w : World T) :
  cancel_tracked w = true →
  forallb (λ t, negb (is_cancel_blur t))
    (from_option (λ id, cancel id (queue (window w))) (queue (window w))
       (cancelCloseTimeout (self w))) = true.
Proof.
  unfold cancel_tracked. rewrite !List.forallb_forall. intros Htr t Hin.
  destruct (is_cancel_blur t) eqn:Hb; [exfalso|done].
  destruct (cancelCloseTimeout (self w)) as [id|] eqn:Hbt; simpl in Hin.
  - apply list_elem_of_In, list_elem_of_filter in Hin as [Hne Hin].
    apply list_elem_of_In, Htr in Hin. rewrite Hb in Hin. simpl in Hin.
    apply bool_decide_eq_true in Hin. congruence.
  - apply Htr in Hin. rewrite Hb in Hin. simpl in Hin.
    first [discriminate Hin | by apply bool_decide_eq_true in Hin].
Qed.

Lemma filter_none {A} (f : A → bool) (l : list A) :
  forallb (λ x, negb (f x)) l = true → List.filter f l = [].
Proof.
  induction l as [|x l IH]; simpl; [done|].
  intros [Hx Hl]%andb_prop. apply negb_true_iff in Hx. rewrite Hx. by apply IH.
Qed.

Lemma from_option_cancel_sublist (h : option nat) (q : list Timer) :
  from_option (λ id, cancel id q) q h `sublist_of` q.
Proof. destruct h; simpl; [apply sublist_filter|done]. Qed.

(** X6: each blur re-arms the close timer: the one armed before is cancelled, so
    the only blur-close timer pending afterwards is the new one, due 200 time
    units later. *)
Theorem blur_rearms_the_close_timer (cb : bool) (e : Event) (w : World T) :
  blur_tracked w = true →
  let w' := exec (dispatch (makehandleInputBlur cb e)) w in
  let armed := mkTimer (next_id (window w)) (now (window w) + 200) (BlurClose e cb) in
  List.filter is_blur_close (queue (window w')) = [armed]
  ∧ blurTimeout (self w') = Some (timer_id armed)
  ∧ List.filter (λ t, negb (is_blur_close t)) (queue (window w'))
    = List.filter (λ t, negb (is_blur_close t))
        (from_option (λ id, cancel id (queue (window w))) (queue (window w))
           (blurTimeout (self w))).
Proof.
  intros Hb w' armed. subst w'.
  destruct (dispatch_window (makehandleInputBlur cb e) w) as (-> & -> & _).
  rewrite blur_exec. cbn [window queue self blurTimeout set_blurTimeout].
  rewrite !List.filter_app. simpl.
  rewrite (filter_none _ _ (cancel_tracked_no_blur w Hb)).
  by rewrite app_nil_r.
Qed.

End Pending.


Section Tidy.
Context {T : Type} `{!Item T}.

Lemma arms_nothing_tidy (w w' : World T) : arms_nothing w w' → tidy w → tidy w'.
Proof.
  intros Hcalm (Hb & Hc & Hnb & Hnc). repeat split.
  - by eapply arms_nothing_blur_tracked.
  - by eapply arms_nothing_cancel_tracked.
  - pose proof (filter_length_sublist is_blur_close _ _ (calm_queue _ _ Hcalm)). lia.
  - pose proof (filter_length_sublist is_cancel_blur _ _ (calm_queue _ _ Hcalm)). lia.
Qed.

Lemma dispatch_tidy (h : M T unit) (w : World T) :
  tidy (exec h w) → tidy (exec (dispatch h) w).
Proof.
  apply arms_nothing_tidy. unfold dispatch. rewrite exec_bind. apply calm_flush.
Qed.

Lemma blur_tidy (cb : bool) (e : Event) (w : World T) :
  tidy w → tidy (exec (makehandleInputBlur cb e) w).
Proof.
  intros (Hb & Hc & Hnb & Hnc).
  rewrite blur_exec. repeat split.
  - unfold blur_tracked. cbn [self window queue blurTimeout set_blurTimeout].
    rewrite snoc_forallb. simpl. rewrite bool_decide_eq_true_2 by done.
    rewrite andb_true_r.
    pose proof (cancel_tracked_no_blur w Hb) as Hno.
    rewrite List.forallb_forall in *. intros t Hin. apply Hno in Hin.
    apply negb_true_iff in Hin. by rewrite Hin.
  - unfold cancel_tracked in *. cbn [self window queue cancelCloseTimeout set_blurTimeout].
    rewrite snoc_forallb. simpl. rewrite andb_true_r.
    eapply forallb_sublist; [apply from_option_cancel_sublist|done].
  - cbn [window queue]. rewrite List.filter_app. simpl.
    rewrite (filter_none _ _ (cancel_tracked_no_blur w Hb)). simpl. lia.
  - cbn [window queue]. rewrite List.filter_app, length_app. simpl.
    pose proof (filter_length_sublist is_cancel_blur _ _
                  (from_option_cancel_sublist (blurTimeout (self w)) (queue (window w)))).
    lia.
Qed.

Lemma mouseDown_tidy (w : World T) : tidy w → tidy (exec handleMenuMouseDown w).
Proof.
  intros (Hb & Hc & Hnb & Hnc).
  pose proof (from_option_cancel_sublist (cancelCloseTimeout (self w)) (queue (window w)))
    as Hsub.
  rewrite mousedown_exec. repeat split.
  - unfold blur_tracked in *. cbn [self window queue blurTimeout set_cancelCloseTimeout].
    rewrite snoc_forallb. simpl. rewrite andb_true_r.
    by eapply forallb_sublist.
  - unfold cancel_tracked. cbn [self window queue cancelCloseTimeout set_cancelCloseTimeout].
    rewrite snoc_forallb. simpl. rewrite bool_decide_eq_true_2 by done.
    rewrite andb_true_r.
    pose proof (cancel_tracked_no_cancel w Hc) as Hno.
    rewrite List.forallb_forall in *. intros t Hin. apply Hno in Hin.
    apply negb_true_iff in Hin. by rewrite Hin.
  - cbn [window queue]. rewrite List.filter_app, length_app. simpl.
    pose proof (filter_length_sublist is_blur_close _ _ Hsub). lia.
  - cbn [window queue]. rewrite List.filter_app. simpl.
    rewrite (filter_none _ _ (cancel_tracked_no_cancel w Hc)). simpl. lia.
Qed.

Lemma clickOutside_tidy (w : World T) : tidy w → tidy (exec handleClickOutside w).
Proof.
  intros (Hb & Hc & Hnb & Hnc).
  pose proof (from_option_cancel_sublist (blurTimeout (self w)) (queue (window w)))
    as Hsub.
  rewrite clickOutside_exec. repeat split.
  - unfold blur_tracked in *. cbn [self window queue].
    rewrite snoc_forallb. simpl. rewrite andb_true_r. by eapply forallb_sublist.
  - unfold cancel_tracked in *. cbn [self window queue].
    rewrite snoc_forallb. simpl. rewrite andb_true_r. by eapply forallb_sublist.
  - cbn [window queue]. rewrite List.filter_app, length_app. simpl.
    pose proof (filter_length_sublist is_blur_close _ _ Hsub). lia.
  - cbn [window queue]. rewrite List.filter_app, length_app. simpl.
    pose proof (filter_length_sublist is_cancel_blur _ _ Hsub). lia.
Qed.

Lemma deliver_tidy (ev : HostEvent (T:=T)) (w : World T) :
  tidy w → tidy (exec (deliver ev) w).
Proof.
  intros Hw. destruct (arms_timer ev) eqn:Hev.
  - destruct ev; try done; simpl; apply dispatch_tidy.
    + by apply blur_tidy.
    + by apply mouseDown_tidy.
    + by apply clickOutside_tidy.
  - eapply arms_nothing_tidy; [|done]. by apply calm_deliver.
Qed.

Lemma mount_tidy (p : Props.t T) : tidy (mount p).
Proof.
  destruct (mount_ok p) as [_ [Hb Hh]].
  assert (queue (window (mount p)) = []) as Hq.
  { unfold mount. rewrite exec_bind.
    match goal with |- context [exec render ?w0] =>
      pose proof (render_frame w0) as [_ _ _ Hw _ _]; simpl in *;
      set (w1 := exec render w0) in *; set (r := eval render w0) end.
    assert (window (exec (match r with Some exn => emit (Uncaught exn) | None => mret () end) w1)
            = window w1) as -> by (by destruct r).
    by rewrite Hw. }
  repeat split; [done|..].
  - unfold cancel_tracked. by rewrite Hq.
  - rewrite Hq. simpl. lia.
  - rewrite Hq. simpl. lia.
Qed.

Lemma reachable_tidy (p : Props.t T) (evs : list (HostEvent (T:=T))) :
  tidy (exec (deliver_all evs) (mount p)).
Proof.
  generalize (mount_tidy p). generalize (mount p).
  induction evs as [|ev evs IH]; intros w Hw; [done|].
  simpl. rewrite exec_bind. by apply IH, deliver_tidy.
Qed.

(** X11: in every world the host can reach after mounting, at most one
    blur-close timer and at most one cancellation timer are pending. *)
Theorem at_most_one_timer_of_each_kind (p : Props.t T) (evs : list (HostEvent (T:=T))) :
  let w := exec (deliver_all evs) (mount p) in
  (length (List.filter is_blur_close (queue (window w))) ≤ 1)%nat
  ∧ (length (List.filter is_cancel_blur (queue (window w))) ≤ 1)%nat.
Proof. by destruct (reachable_tidy p evs) as (_ & _ & ? & ?). Qed.

Lemma unmount_exec (w : World T) :
  let q1 := from_option (λ id, cancel id (queue (window w))) (queue (window w))
              (blurTimeout (self w)) in
  exec componentWillUnmount w
  = mkWorld (self w)
      (mkWindow (now (window w)) (next_id (window w))
         (from_option (λ id, cancel id q1) q1 (cancelCloseTimeout (self w))))
      (trace w).
Proof.
  intros q1. subst q1. unfold componentWillUnmount.
  rewrite !exec_bind, !exec_gets, !eval_gets.
  destruct w as [c [t n q] tr]. cbn [self window queue].
  destruct (blurTimeout c) as [i|]; cbn; by destruct (cancelCloseTimeout c).
Qed.

(** X10: unmounting cancels the blur-close timer and the cancellation timer:
    whatever happened since mounting, the only timers it leaves pending are
    continuations of [handleClickOutside], whose handle is not kept. *)
Theorem unmount_cancels_both_timers (p : Props.t T) (evs : list (HostEvent (T:=T))) :
  let w := exec (deliver_all evs) (mount p) in
  let w' := exec componentWillUnmount w in
  forallb is_tick (queue (window w')) = true
  ∧ queue (window w') `sublist_of` queue (window w)
  ∧ self w' = self w
  ∧ trace w' = trace w.
Proof.
  intros w w'. destruct (reachable_tidy p evs) as (Hb & Hc & _ & _). fold w in Hb, Hc.
  subst w'. rewrite unmount_exec.
  cbn [self window trace queue]. repeat split.
  - set (q1 := from_option _ _ (blurTimeout (self w))).
    pose proof (cancel_tracked_no_blur w Hb) as Hnb. fold q1 in Hnb.
    assert (forallb (λ t, negb (is_cancel_blur t))
              (from_option (λ id, cancel id q1) q1 (cancelCloseTimeout (self w))) = true)
      as Hnc.
    { apply (cancel_tracked_no_cancel
               (mkWorld (self w) (mkWindow 0 0 q1) (trace w))).
      unfold cancel_tracked in *. simpl.
      eapply forallb_sublist; [apply from_option_cancel_sublist|done]. }
    assert (forallb (λ t, negb (is_blur_close t))
              (from_option (λ id, cancel id q1) q1 (cancelCloseTimeout (self w))) = true)
      as Hnb'.
    { eapply forallb_sublist; [apply from_option_cancel_sublist|done]. }
    rewrite List.forallb_forall in *. intros t Hin.
    specialize (Hnc t Hin). specialize (Hnb' t Hin).
    unfold is_tick, is_cancel_blur, is_blur_close in *.
    by destruct (timer_callback t).
  - etrans; apply from_option_cancel_sublist.
Qed.
End Tidy.


Section Handlers.
Context {T : Type} `{!Item T}.

(** [openMenu] on a disabled or controlled component only notifies. *)
Lemma openMenu_blocked (w : World T) :
  Props.disabled (props (self w)) || isControlled (self w) = true →
  exec openMenu w
  = mkWorld (self w) (window w)
      (trace w ++ if Props.onOpen (props (self w)) then [OnOpen] else []).
Proof.
  intros Hb. destruct w as [c win tr]. simpl in *. unfold openMenu. run.
  destruct (Props.onOpen (props c)); simpl; rewrite Hb; by rewrite ?app_nil_r.
Qed.

Lemma escape_keydown (cb : bool) (w : World T) :
  exec (makeHandleInputKeydown cb (KeyboardEvent "Escape")) w
  = exec (call_opt cb (OnKeyDown (KeyboardEvent "Escape"))) (exec closeMenu w).
Proof.
  unfold makeHandleInputKeydown.
  rewrite !exec_bind, !exec_gets, !eval_gets, !key_is_spec.
  repeat match goal with
    | |- context [bool_decide (?x = ?y)] =>
        let b := eval vm_compute in (bool_decide (x = y)) in
        change (bool_decide (x = y)) with b
    end.
  rewrite !andb_false_r. simpl. by rewrite ?exec_bind.
Qed.

(** X1: Escape closes the menu whatever the selection settings are: [onClose]
    is called, the key is not consumed, and an uncontrolled component ends
    closed, its input emptied when [resetInputOnClose] is set and kept
    otherwise. *)
Theorem escape_closes (cb : bool) (w : World T) :
  idle w →
  let e := KeyboardEvent "Escape" in
  let h := makeHandleInputKeydown cb e in
  let p := props (self w) in
  let s := state (self w) in
  trace (exec h w)
  = trace w ++ (if Props.onClose p then [OnClose] else [])
            ++ (if cb then [OnKeyDown e] else [])
  ∧ (isControlled (self w) = true → self (exec (dispatch h) w) = self w)
  ∧ (isControlled (self w) = false →
       state (self (exec (dispatch h) w))
       = {| State.highlightedIndex := State.highlightedIndex s;
            State.inputValue :=
              if truthy (Props.resetInputOnClose p) then EmptyString
              else State.inputValue s;
            State.isOpen := false;
            State.selectedItem := State.selectedItem s |}).
Proof.
  intros Hidle e h p s. unfold idle in Hidle. subst h e.
  pose proof (closeMenu_exec w) as Hc. simpl in Hc. rewrite Hidle in Hc. simpl in Hc.
  repeat split.
  - rewrite escape_keydown, Hc. destruct cb; simpl; by rewrite <- ?app_assoc, ?app_nil_r.
  - intros Hctl.
    assert (self (exec (makeHandleInputKeydown cb (KeyboardEvent "Escape")) w) = self w)
      as Hself.
    { rewrite escape_keydown, Hc, Hctl.
      destruct w as [[] ? ?]; simpl in *; subst. by destruct cb. }
    rewrite dispatch_self_idle; [done|]. by rewrite Hself.
  - intros Hctl. rewrite dispatch_state, escape_keydown, Hc, Hctl.
    by destruct cb.
Qed.

(** X2: a disabled item ignores the pointer, and Enter or Tab on it selects
    nothing. *)
Theorem disabled_item_is_inert (X : T) (index : Z) (e : Event) (cb : bool) (k : string)
    (w : World T) :
  truthy (item_disabled X) = true →
  exec (makeHandleItemClick X index e) w = w
  ∧ exec (makeHandleMouseEnter X index e) w = w
  ∧ (items (self w) !! State.highlightedIndex (state (self w)) = Some (Some X) →
     k = "Enter" ∨ k = "Tab" →
     let w' := exec (makeHandleInputKeydown cb (KeyboardEvent k)) w in
     self w' = self w
     ∧ window w' = window w
     ∧ List.filter is_onSelect (trace w') = List.filter is_onSelect (trace w)).
Proof.
  intros Hd. split; [|split].
  - unfold makeHandleItemClick. by rewrite Hd.
  - unfold makeHandleMouseEnter. by rewrite Hd.
  - intros Hi Hk. simpl.
    assert (exec (makeHandleInputKeydown cb (KeyboardEvent k)) w
            = exec (call_opt cb (OnKeyDown (KeyboardEvent k)))
                (exec (when (Props.shouldSelectWithEnter (props (self w))
                             && bool_decide (k = "Enter")
                             || Props.shouldSelectWithTab (props (self w))
                                && bool_decide (k = "Tab"))
                         (emit (PreventDefault (KeyboardEvent k)))) w)) as ->.
    { unfold makeHandleInputKeydown.
      rewrite !exec_bind, !exec_gets, !eval_gets, !key_is_spec, Hi.
      destruct (keys_distinct k Hk) as (-> & -> & ->).
      rewrite bool_decide_eq_true_2 by eauto. simpl. rewrite Hd. simpl.
      destruct (_ || _); simpl; by rewrite ?exec_bind. }
    destruct (_ || _), cb; simpl; rewrite ?List.filter_app; simpl;
      by rewrite ?app_nil_r.
Qed.

(** X8: a click on an enabled item cancels the pending blur-close timer. *)
Theorem item_click_cancels_blur_close (X : T) (index : Z) (e : Event) (w : World T) :
  truthy (item_disabled X) = false →
  blur_tracked w = true →
  let w' := exec (dispatch (makeHandleItemClick X index e)) w in
  queue (window w')
  = from_option (λ id, cancel id (queue (window w))) (queue (window w))
      (blurTimeout (self w))
  ∧ forallb (λ t, negb (is_blur_close t)) (queue (window w')) = true.
Proof.
  intros Hd Hb w'.
  assert (queue (window w')
          = from_option (λ id, cancel id (queue (window w))) (queue (window w))
              (blurTimeout (self w))) as Hq.
  { subst w'. destruct (dispatch_window (makeHandleItemClick X index e) w) as (-> & _).
    rewrite click_selects by done.
    set (w0 := exec (setState _) _).
    assert (window (exec (handleSelect X e) w0) = window w0) as ->.
    { destruct (Props.closeOnSelect (props (self w0))) eqn:Hc.
      - by rewrite handleSelect_closing.
      - by rewrite handleSelect_staying. }
    subst w0. by destruct (blurTimeout (self w)). }
  split; [done|]. rewrite Hq. by apply cancel_tracked_no_blur.
Qed.

End Handlers.


Section Opening.
Context {T : Type} `{!Item T}.

(** X7: left alone, the blur-close timer fires 200 time units after the blur:
    nothing happens before; then [closeMenu] runs and, only then, the
    caller's [onBlur]. *)
Theorem blur_closes_after_200 (cb : bool) (e : Event) (d : nat) (w : World T) :
  idle w →
  queue (window w) = [] →
  let w' := exec (dispatch (makehandleInputBlur cb e);; advance d) w in
  let armed := mkTimer (next_id (window w)) (now (window w) + 200) (BlurClose e cb) in
  ((d < 200)%nat →
     trace w' = trace w ∧ state (self w') = state (self w)
     ∧ queue (window w') = [armed])
  ∧ ((200 ≤ d)%nat →
       notifications (trace w')
       = notifications (trace w)
         ++ (if Props.onClose (props (self w)) then [OnClose] else [])
         ++ (if cb then [OnBlur e] else [])
       ∧ queue (window w') = []
       ∧ (isControlled (self w) = false → State.isOpen (state (self w')) = false)).
Proof.
  intros Hidle Hq w' armed. unfold idle in Hidle.
  assert (exec (dispatch (makehandleInputBlur cb e)) w
          = mkWorld (set_blurTimeout (Some (next_id (window w))) (self w))
              (mkWindow (now (window w)) (S (next_id (window w))) [armed])
              (trace w)) as Hw1.
  { rewrite dispatch_self_idle; rewrite blur_exec; [|done].
    rewrite Hq. by rewrite from_option_cancel_nil. }
  subst w'. rewrite exec_bind, Hw1, advance_exec.
  cbn [self window trace now next_id queue length].
  split.
  - intros Hd. rewrite run_timers_quiet by (simpl; lia). done.
  - intros Hd.
    rewrite (run_timers_fire 0 _ armed []); [|done|subst armed; simpl; lia].
    cbn [run_timers timer_callback armed self window trace now next_id queue].
    change (exec (mret ()) ?x) with x.
    set (w0 := mkWorld (set_blurTimeout _ (self w)) _ (trace w)).
    pose proof (closeMenu_exec w0) as Hclose. simpl in Hclose.
    rewrite Hidle in Hclose. simpl in Hclose.
    unfold dispatch. rewrite exec_bind. cbn [run_callback]. rewrite exec_bind.
    set (w1 := exec (call_opt cb (OnBlur e)) (exec closeMenu w0)).
    assert (w1 = mkWorld (self (exec closeMenu w0)) (window w0)
                   (trace w ++ (if Props.onClose (props (self w)) then [OnClose] else [])
                            ++ (if cb then [OnBlur e] else []))) as Hw1'.
    { subst w1. rewrite Hclose. subst w0.
      destruct cb; unfold exec, emit, ret; simpl; by rewrite <- ?app_assoc, ?app_nil_r. }
    destruct (flush_silent w1) as (noise & Etr & Hn).
    destruct (flush_spec w1) as (_ & Hs & _ & Hwin & _).
    cbn [self window trace queue]. rewrite Etr, Hwin, Hs, Hw1', Hclose.
    cbn [self window trace queue state pending set_pending set_blurTimeout].
    repeat split.
    + unfold notifications in *. rewrite !List.filter_app, Hn, app_nil_r.
      by destruct (Props.onClose (props (self w))), cb.
    + intros Hu. unfold isControlled in Hu |- *. simpl. by rewrite Hu.
Qed.

(** X14: a disabled component never opens: [openMenu], a focus and a change
    event still call [onOpen], but queue no opening and no highlight reset;
    the typed text is still taken. *)
Theorem disabled_never_opens (cb : bool) (v : string) (w : World T) :
  Props.disabled (props (self w)) = true →
  idle w →
  let s := state (self w) in
  let onOpen := if Props.onOpen (props (self w)) then [OnOpen] else [] in
  (self (exec openMenu w) = self w ∧ trace (exec openMenu w) = trace w ++ onOpen)
  ∧ (self (exec (makeHandleInputFocus cb FocusEvent) w) = self w
     ∧ trace (exec (makeHandleInputFocus cb FocusEvent) w)
       = trace w ++ onOpen ++ (if cb then [OnFocus FocusEvent] else []))
  ∧ state (self (exec (dispatch (makeHandleInputChange cb (ChangeEvent v))) w))
    = {| State.highlightedIndex := State.highlightedIndex s;
         State.inputValue := v;
         State.isOpen := State.isOpen s;
         State.selectedItem := State.selectedItem s |}.
Proof.
  intros Hd Hidle s onOpen. unfold idle in Hidle.
  assert (Props.disabled (props (self w)) || isControlled (self w) = true) as Hb
    by (by rewrite Hd).
  pose proof (openMenu_blocked w Hb) as Ho.
  split; [by rewrite Ho|]. split.
  - unfold makeHandleInputFocus. rewrite exec_bind, Ho.
    destruct cb; simpl; by rewrite <- ?app_assoc, ?app_nil_r.
  - rewrite dispatch_state. unfold makeHandleInputChange.
    rewrite !exec_bind, Ho. destruct cb; simpl; by rewrite Hidle.
Qed.

(** X15: focusing the input of an enabled, uncontrolled component opens the menu
    and puts the cursor back on the default index; the text and the
    selection are kept. *)
Theorem focus_opens (cb : bool) (w : World T) :
  isControlled (self w) = false →
  Props.disabled (props (self w)) = false →
  idle w →
  let s := state (self w) in
  state (self (exec (dispatch (makeHandleInputFocus cb FocusEvent)) w))
  = {| State.highlightedIndex :=
         default 0 (Props.defaultHighlightedIndex (props (self w)));
       State.inputValue := State.inputValue s;
       State.isOpen := true;
       State.selectedItem := State.selectedItem s |}.
Proof.
  intros Hu Hd Hidle s. unfold idle in Hidle.
  rewrite dispatch_state. unfold makeHandleInputFocus.
  rewrite exec_bind, (openMenu_opens w Hu Hd).
  destruct cb; simpl; by rewrite Hidle.
Qed.

Lemma getInputProps_eval (args : option GetInputArgs.t) (w : World T) :
  eval (getInputProps args) w
  = {| value := State.inputValue (state (self w));
       onChange := makeHandleInputChange (from_option GetInputArgs.onChange false args);
       onKeyDown := makeHandleInputKeydown (from_option GetInputArgs.onKeyDown false args);
       onFocus := makeHandleInputFocus (from_option GetInputArgs.onFocus false args);
       onBlur := makehandleInputBlur (from_option GetInputArgs.onBlur false args) |}.
Proof. reflexivity. Qed.

(** X13: the text typed into the input is the [value] that [getInputProps]
    reports after the update, whether or not the component is disabled or
    controlled. *)
Theorem typed_text_is_reported (args : option GetInputArgs.t) (v : string) (w : World T) :
  let w' := exec (dispatch (onChange (eval (getInputProps args) w) (ChangeEvent v))) w in
  value (eval (getInputProps args) w') = v.
Proof.
  intros w'. subst w'. rewrite !getInputProps_eval. cbn [value onChange].
  rewrite dispatch_state. unfold makeHandleInputChange. rewrite !exec_bind.
  set (cb := from_option _ _ _).
  assert (∃ us, pending (self (exec openMenu w)) = pending (self w) ++ us
                ∧ state (self (exec openMenu w)) = state (self w)) as (us & Hp & Hs).
  { destruct (Props.disabled (props (self w)) || isControlled (self w)) eqn:Hb.
    - rewrite (openMenu_blocked w Hb). exists []. by rewrite app_nil_r.
    - apply orb_false_elim in Hb as [Hd Hu].
      rewrite (openMenu_opens w Hu Hd). by eexists. }
  destruct cb; simpl; rewrite Hp, Hs, !apply_updates_app; done.
Qed.

End Opening.


Section Registry.
Context {T : Type} `{!Item T}.

Lemma holds_empty : holds (T:=T) ∅ [].
Proof. split; [done|]. intros z. rewrite lookup_empty. by case_decide. Qed.

Lemma holds_snoc (m : gmap Z (option T)) (l : list T) (x : T) :
  holds m l → holds (<[Z.of_nat (length l) := Some x]> m) (l ++ [x]).
Proof.
  intros [Hsize Hlook]. split.
  - rewrite map_size_insert_None, length_app; [simpl; lia|].
    rewrite Hlook. rewrite decide_True by lia. rewrite Nat2Z.id.
    by rewrite lookup_ge_None_2.
  - intros z. destruct (decide (z = Z.of_nat (length l))) as [->|Hne].
    + rewrite lookup_insert_eq, decide_True by lia.
      rewrite Nat2Z.id, lookup_app_r by lia. by rewrite Nat.sub_diag.
    + rewrite lookup_insert_ne by done. rewrite Hlook. case_decide; [|done].
      destruct (decide (Z.to_nat z < length l)%nat).
      * by rewrite lookup_app_l.
      * rewrite !lookup_ge_None_2; [done| |lia]. rewrite length_app. simpl. lia.
Qed.

Lemma holds_unique (m1 m2 : gmap Z (option T)) (l : list T) :
  holds m1 l → holds m2 l → m1 = m2.
Proof. intros [_ H1] [_ H2]. apply map_eq. intros z. by rewrite H1, H2. Qed.

Lemma register_item_exec (index : option Z) (x : T) (w : World T) :
  exec (getItemProps (Some (GetItemArgs.mk index (Some x)))) w
  = mkWorld
      (set_items (<[default (Z.of_nat (size (items (self w)))) index := Some x]>
                    (items (self w))) (self w))
      (window w) (trace w)
  ∧ ∃ ip, eval (getItemProps (Some (GetItemArgs.mk index (Some x)))) w = inr ip.
Proof. split; [done|]. by eexists. Qed.

Lemma run_register_from (l l0 : list T) (w : World T) :
  holds (items (self w)) l0 →
  let w' := exec (run_calls (register_from (length l0) l)) w in
  holds (items (self w')) (l0 ++ l)
  ∧ eval (run_calls (register_from (length l0) l)) w = None
  ∧ trace w' = trace w.
Proof.
  revert l0 w. induction l as [|x l IH]; intros l0 w Hw.
  { simpl. by rewrite app_nil_r. }
  unfold register_from. rewrite imap_cons. cbn [run_calls].
  rewrite exec_bind, eval_bind.
  destruct (register_item_exec (Some (Z.of_nat (length l0 + 0))) x w) as [Hex [ip ->]].
  rewrite Hex. cbn [default].
  set (w1 := mkWorld _ (window w) (trace w)).
  assert (holds (items (self w1)) (l0 ++ [x])) as Hw1.
  { subst w1. simpl. rewrite Nat.add_0_r. by apply holds_snoc. }
  specialize (IH (l0 ++ [x]) w1 Hw1). rewrite length_app in IH. simpl in IH.
  rewrite <- app_assoc in IH. simpl in IH.
  assert (imap ((λ i x0, CallGetItemProps
                  (Some (GetItemArgs.mk (Some (Z.of_nat (length l0 + i))) (Some x0)))) ∘ S) l
          = register_from (length l0 + 1) l) as ->.
  { unfold register_from. apply imap_ext. intros i y _. simpl. do 5 f_equal. lia. }
  done.
Qed.

Lemma run_append_all (l l0 : list T) (w : World T) :
  holds (items (self w)) l0 →
  let w' := exec (run_calls (append_all l)) w in
  holds (items (self w')) (l0 ++ l)
  ∧ eval (run_calls (append_all l)) w = None
  ∧ trace w' = trace w.
Proof.
  revert l0 w. induction l as [|x l IH]; intros l0 w Hw.
  { simpl. by rewrite app_nil_r. }
  unfold append_all. rewrite fmap_cons. cbn [run_calls].
  rewrite exec_bind, eval_bind.
  destruct (register_item_exec None x w) as [Hex [ip ->]].
  rewrite Hex. cbn [default].
  set (w1 := mkWorld _ (window w) (trace w)).
  assert (holds (items (self w1)) (l0 ++ [x])) as Hw1.
  { subst w1. simpl. destruct Hw as [Hsize Hlook]. rewrite Hsize.
    by apply holds_snoc. }
  specialize (IH (l0 ++ [x]) w1 Hw1).
  rewrite <- app_assoc in IH. done.
Qed.

Lemma holds_lookup (m : gmap Z (option T)) (l : list T) :
  holds m l →
  (∀ i : nat, m !! Z.of_nat i = Some <$> l !! i)
  ∧ (∀ z : Z, z < 0 ∨ Z.of_nat (length l) ≤ z → m !! z = None)
  ∧ size m = length l.
Proof.
  intros [Hsize Hlook]. repeat split; [| |done].
  - intros i. rewrite Hlook, decide_True by lia. by rewrite Nat2Z.id.
  - intros z [Hz|Hz]; rewrite Hlook.
    + by rewrite decide_False by lia.
    + rewrite decide_True by lia. rewrite lookup_ge_None_2; [done|lia].
Qed.

Lemma run_register_all (l : list T) (w : World T) :
  items (self w) = ∅ →
  let w' := exec (run_calls (register_all l)) w in
  holds (items (self w')) l
  ∧ eval (run_calls (register_all l)) w = None
  ∧ trace w' = trace w.
Proof.
  intros Hempty.
  assert (holds (items (self w)) []) as Hw by (rewrite Hempty; apply holds_empty).
  exact (run_register_from l [] w Hw).
Qed.

(** X3: registering the items of a list one after the other in an empty
    registry: with or without explicit indices 0, 1, ... the registry ends
    up the same, item [i] of the list at index [i] and nothing else; no
    warning is logged and nothing is thrown. *)
Theorem registration_in_order (l : list T) (w : World T) :
  items (self w) = ∅ →
  let w1 := exec (run_calls (register_all l)) w in
  let w2 := exec (run_calls (append_all l)) w in
  items (self w1) = items (self w2)
  ∧ (∀ i : nat, items (self w1) !! Z.of_nat i = Some <$> l !! i)
  ∧ (∀ z : Z, z < 0 ∨ Z.of_nat (length l) ≤ z → items (self w1) !! z = None)
  ∧ size (items (self w1)) = length l
  ∧ eval (run_calls (register_all l)) w = None
  ∧ eval (run_calls (append_all l)) w = None
  ∧ trace w1 = trace w ∧ trace w2 = trace w.
Proof.
  intros Hempty w1 w2.
  assert (holds (items (self w)) []) as Hw by (rewrite Hempty; apply holds_empty).
  destruct (run_register_all l w Hempty) as (H1 & E1 & T1).
  destruct (run_append_all l [] w Hw) as (H2 & E2 & T2).
  simpl in H2. fold w1 in H1, T1. fold w2 in H2, T2.
  split; [by eapply holds_unique|].
  destruct (holds_lookup _ _ H1) as (Hl & Hn & Hs).
  by repeat split.
Qed.

(** An update cycle forgets the registry it started with: the registry
    after it is what the render pass registers. *)
Lemma update_cycle_forgets_registry (m : gmap Z (option T)) (w : World T) :
  pending (self w) ≠ [] →
  exec flush (mkWorld (set_items m (self w)) (window w) (trace w)) = exec flush w.
Proof.
  intros Hp. unfold flush. rewrite !exec_bind, !exec_gets, !eval_gets.
  cbn [self pending set_items].
  destruct (pending (self w)) as [|u us]; [done|].
  by rewrite !exec_bind, !exec_gets, !eval_gets.
Qed.

End Registry.


Section Sign.
Context {T : Type} `{!Item T}.

Lemma nonneg_bind {A B} (c : M T A) (k : A → M T B) :
  keeps_nonneg c → (∀ a, keeps_nonneg (k a)) → keeps_nonneg (T:=T) (c ≫= k).
Proof. intros Hc Hk w Hw. rewrite exec_bind. by apply Hk, Hc. Qed.

Lemma nonneg_ret {A} (a : A) : keeps_nonneg (T:=T) (mret a).
Proof. by intros w Hw. Qed.

Lemma nonneg_gets {A} (f : AutoComplete T → A) : keeps_nonneg (T:=T) (gets f).
Proof. by intros w Hw. Qed.

Lemma nonneg_emit (eff : Effect T) : keeps_nonneg (T:=T) (emit eff).
Proof. by intros w Hw. Qed.

Lemma nonneg_call_opt (b : bool) (eff : Effect T) : keeps_nonneg (T:=T) (call_opt b eff).
Proof. destruct b; [apply nonneg_emit|apply nonneg_ret]. Qed.

Lemma nonneg_when (b : bool) (c : M T unit) : keeps_nonneg c → keeps_nonneg (T:=T) (when b c).
Proof. destruct b; [done|]. intros _. apply nonneg_ret. Qed.

Lemma nonneg_clearTimeout (h : option nat) : keeps_nonneg (T:=T) (clearTimeout h).
Proof. intros w Hw. by destruct h. Qed.

(** An update of the other fields, or one that sets a non-negative index. *)
Lemma nonneg_setState_object (p : Patch.t T) :
  from_option (λ i, bool_decide (0 ≤ i)) true (Patch.highlightedIndex p) = true →
  keeps_nonneg (T:=T) (setState (UObject p)).
Proof.
  intros Hp w (Hs & Hq & Hd). repeat split; try done. simpl.
  apply Forall_app. split; [done|]. constructor; [|done].
  intros s Hs'. simpl. unfold Patch.merge. simpl.
  destruct (Patch.highlightedIndex p) as [i|]; simpl in *; [|done].
  by apply bool_decide_eq_true in Hp.
Qed.

Lemma nonneg_setState_function (f : State.t T → Patch.t T) :
  (∀ s, Patch.highlightedIndex (f s) = None) →
  keeps_nonneg (T:=T) (setState (UFunction f)).
Proof.
  intros Hf w (Hs & Hq & Hd). repeat split; try done. simpl.
  apply Forall_app. split; [done|]. constructor; [|done].
  intros s Hs'. simpl. unfold Patch.merge. simpl. by rewrite Hf.
Qed.

Lemma nonneg_resetHighlightState : keeps_nonneg (T:=T) resetHighlightState.
Proof.
  intros w Hw. unfold resetHighlightState. rewrite exec_bind, exec_gets, eval_gets.
  apply nonneg_setState_object; [|done]. simpl.
  destruct Hw as (_ & _ & Hd). by apply bool_decide_eq_true_2.
Qed.

Lemma nonneg_moveHighlightedIndex (step : Z) :
  keeps_nonneg (T:=T) (moveHighlightedIndex step).
Proof.
  intros w Hw. unfold moveHighlightedIndex.
  rewrite !exec_bind, !exec_gets, !eval_gets.
  apply nonneg_setState_object; [|done]. simpl. apply bool_decide_eq_true_2. lia.
Qed.

Ltac nonneg_step :=
  first
    [ apply nonneg_resetHighlightState | apply nonneg_moveHighlightedIndex
    | apply nonneg_bind; [|intros ?]
    | apply nonneg_ret | apply nonneg_gets | apply nonneg_emit | apply nonneg_call_opt
    | apply nonneg_clearTimeout
    | apply nonneg_when
    | by apply nonneg_setState_object
    | by apply nonneg_setState_function
    | match goal with
      | |- keeps_nonneg (if ?b then _ else _) => destruct b
      | |- keeps_nonneg (match ?o with _ => _ end) => destruct o
      end ].

Ltac nonnegs := repeat nonneg_step.

Lemma nonneg_openMenu : keeps_nonneg (T:=T) openMenu.
Proof. unfold openMenu. nonnegs. Qed.

Lemma nonneg_closeMenu : keeps_nonneg (T:=T) closeMenu.
Proof. unfold closeMenu. nonnegs. Qed.

Lemma nonneg_keydown (cb : bool) (e : Event) :
  keeps_nonneg (T:=T) (makeHandleInputKeydown cb e).
Proof. unfold makeHandleInputKeydown. nonnegs. Qed.

Lemma nonneg_change (cb : bool) (e : Event) :
  keeps_nonneg (T:=T) (makeHandleInputChange cb e).
Proof. unfold makeHandleInputChange. nonnegs. Qed.

Lemma nonneg_focus (cb : bool) (e : Event) :
  keeps_nonneg (T:=T) (makeHandleInputFocus cb e).
Proof. unfold makeHandleInputFocus. nonnegs. Qed.

Lemma nonneg_click (X : T) (index : Z) (e : Event) :
  0 ≤ index → keeps_nonneg (T:=T) (makeHandleItemClick X index e).
Proof.
  intros Hi. unfold makeHandleItemClick. nonnegs.
  apply nonneg_setState_object. simpl. by apply bool_decide_eq_true_2.
Qed.

Lemma nonneg_mouseEnter (X : T) (index : Z) (e : Event) :
  0 ≤ index → keeps_nonneg (T:=T) (makeHandleMouseEnter X index e).
Proof.
  intros Hi. unfold makeHandleMouseEnter. nonnegs.
  apply nonneg_setState_object. simpl. by apply bool_decide_eq_true_2.
Qed.

Lemma nonneg_window_only (c : M T unit) :
  (∀ w, self (exec c w) = self w) → keeps_nonneg c.
Proof. intros Hc w Hw. unfold highlight_nonneg in *. by rewrite Hc. Qed.

Lemma nonneg_apply_updates (s : State.t T) (us : list (Update T)) :
  0 ≤ State.highlightedIndex s → Forall nonneg_update us →
  0 ≤ State.highlightedIndex (apply_updates s us).
Proof.
  intros Hs Hus. revert s Hs. induction Hus as [|u us Hu _ IH]; intros s Hs; [done|].
  simpl. apply IH. by apply Hu.
Qed.

Lemma nonneg_flush : keeps_nonneg (T:=T) flush.
Proof.
  intros w (Hs & Hq & Hd). destruct (flush_spec w) as (Ep & Es & Eq & _).
  unfold highlight_nonneg. rewrite Ep, Es, Eq. repeat split; [|done|done].
  by apply nonneg_apply_updates.
Qed.

Lemma nonneg_dispatch (h : M T unit) : keeps_nonneg h → keeps_nonneg (T:=T) (dispatch h).
Proof. intros Hh. unfold dispatch. apply nonneg_bind; [done|intros _; apply nonneg_flush]. Qed.


Lemma nonneg_self_fields (w w' : World T) :
  props (self w') = props (self w) →
  state (self w') = state (self w) →
  pending (self w') = pending (self w) →
  highlight_nonneg w → highlight_nonneg w'.
Proof. intros Ep Es Eq. unfold highlight_nonneg. by rewrite Ep, Es, Eq. Qed.

Lemma nonneg_blur (cb : bool) (e : Event) :
  keeps_nonneg (T:=T) (makehandleInputBlur cb e).
Proof. intros w. rewrite blur_exec. by apply nonneg_self_fields. Qed.

Lemma nonneg_mouseDown : keeps_nonneg (T:=T) handleMenuMouseDown.
Proof. intros w. rewrite mousedown_exec. by apply nonneg_self_fields. Qed.

Lemma nonneg_clickOutside : keeps_nonneg (T:=T) handleClickOutside.
Proof. intros w. rewrite clickOutside_exec. by apply nonneg_self_fields. Qed.

Lemma nonneg_run_callback (cb : TimerCallback) : keeps_nonneg (T:=T) (run_callback cb).
Proof. destruct cb; simpl; nonnegs. Qed.

Lemma nonneg_pop_due (target : nat) : keeps_nonneg (T:=T) (pop_due target).
Proof.
  intros w. apply nonneg_self_fields; unfold exec, pop_due;
    destruct (pop_earliest _) as [[t rest]|]; try done;
    by destruct (_ <=? _)%nat.
Qed.

Lemma nonneg_run_timers (fuel target : nat) :
  keeps_nonneg (T:=T) (run_timers fuel target).
Proof.
  induction fuel as [|fuel IH]; simpl; [apply nonneg_ret|].
  apply nonneg_bind; [apply nonneg_pop_due|]. intros [t|]; [|apply nonneg_ret].
  apply nonneg_bind; [|done]. apply nonneg_dispatch, nonneg_run_callback.
Qed.

Lemma nonneg_advance (dt : nat) : keeps_nonneg (T:=T) (advance dt).
Proof.
  intros w Hw. rewrite advance_exec.
  by pose proof (nonneg_run_timers (length (queue (window w))) (now (window w) + dt) w Hw).
Qed.

Lemma nonneg_deliver (ev : HostEvent (T:=T)) :
  index_nonneg ev = true → keeps_nonneg (deliver ev).
Proof.
  intros Hev. destruct ev; simpl in *; try apply nonneg_dispatch.
  - apply nonneg_change.
  - apply nonneg_focus.
  - apply nonneg_blur.
  - apply nonneg_keydown.
  - apply nonneg_click. by apply bool_decide_eq_true in Hev.
  - apply nonneg_mouseEnter. by apply bool_decide_eq_true in Hev.
  - apply nonneg_mouseDown.
  - apply nonneg_clickOutside.
  - apply nonneg_openMenu.
  - apply nonneg_closeMenu.
  - apply nonneg_advance.
Qed.

Lemma nonneg_mount (p : Props.t T) :
  0 ≤ default 0 (Props.defaultHighlightedIndex p) → highlight_nonneg (mount p).
Proof.
  intros Hd. unfold mount. rewrite exec_bind.
  match goal with |- context [exec render ?w0] =>
    pose proof (render_frame w0) as [Ep Es Eq _ _ _]; simpl in *;
    set (w1 := exec render w0) in *; set (r := eval render w0) end.
  apply (nonneg_self_fields w1); [by destruct r..|].
  unfold highlight_nonneg. rewrite Ep, Es, Eq. repeat split; [|done|done].
  simpl. destruct (Props.defaultHighlightedIndex p) as [n|]; simpl in *; [|done].
  by case_bool_decide.
Qed.

(** X12: with a non-negative default index and items registered under
    non-negative indices, the highlighted index is never negative, whatever
    the host delivers. *)
Theorem highlightedIndex_never_negative (p : Props.t T) (evs : list (HostEvent (T:=T))) :
  0 ≤ default 0 (Props.defaultHighlightedIndex p) →
  forallb index_nonneg evs = true →
  0 ≤ State.highlightedIndex (state (self (exec (deliver_all evs) (mount p)))).
Proof.
  intros Hd Hevs.
  assert (highlight_nonneg (exec (deliver_all evs) (mount p))) as (? & _); [|done].
  generalize (nonneg_mount p Hd). generalize (mount p).
  induction evs as [|ev evs IH]; intros w Hw; [done|].
  simpl in Hevs. apply andb_prop in Hevs as [Hev Hevs].
  simpl. rewrite exec_bind. apply IH; [done|]. by apply nonneg_deliver.
Qed.
End Sign.


Section Selecting.
Context {T : Type} `{!Item T}.

Local Abbreviation no_select := (adds_no (T:=T) is_onSelect).

Lemma no_select_bind {A B} (c : M T A) (k : A → M T B) :
  no_select c → (∀ a, no_select (k a)) → no_select (c ≫= k).
Proof.
  intros Hc Hk w. rewrite exec_bind.
  destruct (Hc w) as (a1 & E1 & F1).
  destruct (Hk (eval c w) (exec c w)) as (a2 & E2 & F2).
  exists (a1 ++ a2). rewrite E2, E1, <- app_assoc, List.filter_app, F1, F2. done.
Qed.

Lemma no_select_same {A} (c : M T A) :
  (∀ w, trace (exec c w) = trace w) → no_select c.
Proof. intros Hc w. exists []. by rewrite app_nil_r. Qed.

Lemma no_select_ret {A} (a : A) : no_select (mret a).
Proof. by apply no_select_same. Qed.

Lemma no_select_gets {A} (f : AutoComplete T → A) : no_select (gets f).
Proof. by apply no_select_same. Qed.

Lemma no_select_modify (f : AutoComplete T → AutoComplete T) : no_select (modify f).
Proof. by apply no_select_same. Qed.

Lemma no_select_setState (u : Update T) : no_select (setState u).
Proof. by apply no_select_same. Qed.

Lemma no_select_clearTimeout (h : option nat) : no_select (clearTimeout h).
Proof. apply no_select_same. intros w. by destruct h. Qed.

Lemma no_select_emit (eff : Effect T) : is_onSelect eff = false → no_select (emit eff).
Proof. intros He w. exists [eff]. simpl. by rewrite He. Qed.

Lemma no_select_call_opt (b : bool) (eff : Effect T) :
  is_onSelect eff = false → no_select (call_opt b eff).
Proof. intros He. destruct b; [by apply no_select_emit|apply no_select_ret]. Qed.

Lemma no_select_when (b : bool) (c : M T unit) : no_select c → no_select (when b c).
Proof. destruct b; [done|]. intros _. apply no_select_ret. Qed.

Ltac quiet_step :=
  first
    [ apply no_select_bind; [|intros ?]
    | apply no_select_ret | apply no_select_gets
    | by apply no_select_emit | by apply no_select_call_opt
    | apply no_select_setState | apply no_select_clearTimeout | apply no_select_modify
    | apply no_select_when
    | match goal with
      | |- adds_no _ (if ?b then _ else _) => destruct b
      | |- adds_no _ (match ?o with _ => _ end) => destruct o
      end ].

Ltac quiets := repeat quiet_step.

Lemma no_select_openMenu : no_select openMenu.
Proof. unfold openMenu, resetHighlightState. quiets. Qed.

Lemma no_select_closeMenu : no_select closeMenu.
Proof. unfold closeMenu. quiets. Qed.

Lemma no_select_moveHighlightedIndex (step : Z) : no_select (moveHighlightedIndex step).
Proof. unfold moveHighlightedIndex. quiets. Qed.

Lemma no_select_change (cb : bool) (e : Event) : no_select (makeHandleInputChange cb e).
Proof. unfold makeHandleInputChange. quiets. Qed.

Lemma no_select_focus (cb : bool) (e : Event) : no_select (makeHandleInputFocus cb e).
Proof. unfold makeHandleInputFocus. quiets. Qed.

Lemma no_select_mouseEnter (X : T) (index : Z) (e : Event) :
  no_select (makeHandleMouseEnter X index e).
Proof. unfold makeHandleMouseEnter. quiets. Qed.

Lemma no_select_blur (cb : bool) (e : Event) : no_select (makehandleInputBlur cb e).
Proof. apply no_select_same. intros w. by rewrite blur_exec. Qed.

Lemma no_select_mouseDown : no_select handleMenuMouseDown.
Proof. apply no_select_same. intros w. by rewrite mousedown_exec. Qed.

Lemma no_select_clickOutside : no_select handleClickOutside.
Proof. apply no_select_same. intros w. by rewrite clickOutside_exec. Qed.

(** A key other than Enter and Tab never reaches [handleSelect]. *)
Lemma no_select_keydown (cb : bool) (k : string) :
  k ≠ "Enter" → k ≠ "Tab" →
  no_select (makeHandleInputKeydown cb (KeyboardEvent k)).
Proof.
  intros H1 H2. unfold makeHandleInputKeydown.
  apply no_select_bind; [apply no_select_gets|intros s].
  apply no_select_bind; [apply no_select_gets|intros registry].
  apply no_select_bind; [apply no_select_gets|intros p].
  rewrite !key_is_spec.
  rewrite (bool_decide_eq_false_2 (k = "Enter")), (bool_decide_eq_false_2 (k = "Tab"))
    by done.
  rewrite !andb_false_r. simpl. quiets.
Qed.

Lemma notifications_none_no_select (added : list (Effect T)) :
  notifications added = [] → List.filter is_onSelect added = [].
Proof.
  unfold notifications. induction added as [|eff added IH]; simpl; [done|].
  destruct eff; simpl; try done; apply IH.
Qed.

Lemma no_select_flush : no_select flush.
Proof.
  intros w. destruct (flush_silent w) as (added & E & N).
  exists added. split; [done|]. by apply notifications_none_no_select.
Qed.

Lemma no_select_dispatch (h : M T unit) : no_select h → no_select (dispatch h).
Proof. intros Hh. unfold dispatch. apply no_select_bind; [done|intros _; apply no_select_flush]. Qed.

Lemma no_select_run_callback (cb : TimerCallback) : no_select (run_callback cb).
Proof. destruct cb; simpl; quiets. Qed.

Lemma no_select_pop_due (target : nat) : no_select (pop_due target).
Proof.
  apply no_select_same. intros w. unfold exec, pop_due.
  destruct (pop_earliest _) as [[t rest]|]; [|done]. by destruct (_ <=? _)%nat.
Qed.

Lemma no_select_run_timers (fuel target : nat) : no_select (run_timers fuel target).
Proof.
  induction fuel as [|fuel IH]; simpl; [apply no_select_ret|].
  apply no_select_bind; [apply no_select_pop_due|]. intros [t|]; [|apply no_select_ret].
  apply no_select_bind; [|done]. apply no_select_dispatch, no_select_run_callback.
Qed.

Lemma no_select_advance (dt : nat) : no_select (advance dt).
Proof.
  intros w. rewrite advance_exec. cbn [trace].
  apply (no_select_run_timers (length (queue (window w))) (now (window w) + dt) w).
Qed.

(** X16: [onSelect] is called by nothing but an Enter or Tab keydown and a click
    on an item: no other event, and no timer, calls it. *)
Theorem only_keys_and_clicks_select (ev : HostEvent (T:=T)) (w : World T) :
  may_select ev = false →
  List.filter is_onSelect (trace (exec (deliver ev) w))
  = List.filter is_onSelect (trace w).
Proof.
  intros Hev.
  assert (no_select (deliver ev)) as Hq.
  { destruct ev; simpl in *; try done; try apply no_select_dispatch.
    - apply no_select_change.
    - apply no_select_focus.
    - apply no_select_blur.
    - apply orb_false_elim in Hev as [H1%bool_decide_eq_false H2%bool_decide_eq_false].
      by apply no_select_keydown.
    - apply no_select_mouseEnter.
    - apply no_select_mouseDown.
    - apply no_select_clickOutside.
    - apply no_select_openMenu.
    - apply no_select_closeMenu.
    - apply no_select_advance. }
  destruct (Hq w) as (added & -> & F). by rewrite List.filter_app, F, app_nil_r.
Qed.
End Selecting.


Section Blocked.
Context {T : Type} `{!Item T}.

Lemma blocked_self_fields (w w' : World T) :
  props (self w') = props (self w) →
  state (self w') = state (self w) →
  pending (self w') = pending (self w) →
  blocked w → blocked w'.
Proof. intros Ep Es Eq. unfold blocked. simpl. by rewrite Ep, Es, Eq. Qed.

Lemma blocked_bind {A B} (c : M T A) (k : A → M T B) :
  keeps_blocked c → (∀ a, keeps_blocked (k a)) → keeps_blocked (T:=T) (c ≫= k).
Proof.
  intros Hc Hk w Hw. rewrite exec_bind.
  destruct (Hc w Hw) as [Hw1 Hp1]. destruct (Hk (eval c w) _ Hw1) as [Hw2 Hp2].
  split; [done|congruence].
Qed.

Lemma blocked_same {A} (c : M T A) :
  (∀ w, props (self (exec c w)) = props (self w)
        ∧ state (self (exec c w)) = state (self w)
        ∧ pending (self (exec c w)) = pending (self w)) →
  keeps_blocked c.
Proof.
  intros Hc w Hw. destruct (Hc w) as (? & ? & ?).
  split; [by apply (blocked_self_fields w)|done].
Qed.

Lemma blocked_ret {A} (a : A) : keeps_blocked (T:=T) (mret a).
Proof. by apply blocked_same. Qed.

Lemma blocked_gets {A} (f : AutoComplete T → A) : keeps_blocked (T:=T) (gets f).
Proof. by apply blocked_same. Qed.

Lemma blocked_emit (eff : Effect T) : keeps_blocked (T:=T) (emit eff).
Proof. by apply blocked_same. Qed.

Lemma blocked_call_opt (b : bool) (eff : Effect T) : keeps_blocked (T:=T) (call_opt b eff).
Proof. destruct b; [apply blocked_emit|apply blocked_ret]. Qed.

Lemma blocked_when (b : bool) (c : M T unit) :
  keeps_blocked c → keeps_blocked (T:=T) (when b c).
Proof. destruct b; [done|]. intros _. apply blocked_ret. Qed.

Lemma blocked_clearTimeout (h : option nat) : keeps_blocked (T:=T) (clearTimeout h).
Proof. apply blocked_same. intros w. by destruct h. Qed.

(** An object update that does not mention [isOpen]. *)
Lemma blocked_setState_object (p : Patch.t T) :
  Patch.isOpen p = None → keeps_blocked (T:=T) (setState (UObject p)).
Proof.
  intros Hp w (Hb & Hs & Hq). split; [|done]. repeat split; try done. simpl.
  apply Forall_app. split; [done|]. constructor; [|done].
  intros s Hs'. simpl. unfold Patch.merge. simpl. by rewrite Hp.
Qed.

(** [openMenu] stops before it queues anything. *)
Lemma blocked_openMenu : keeps_blocked (T:=T) openMenu.
Proof.
  intros w Hw. pose proof Hw as (Hb & _). simpl in Hb.
  rewrite openMenu_blocked by done. split; [by apply (blocked_self_fields w)|done].
Qed.

(** [closeMenu] queues nothing when controlled; otherwise the flag it sets,
    [false], is the one the component mounted with. *)
Lemma blocked_closeMenu : keeps_blocked (T:=T) closeMenu.
Proof.
  intros w (Hb & Hs & Hq). rewrite closeMenu_exec. split; [|done].
  unfold blocked. simpl. repeat split; try done.
  apply Forall_app. split; [done|].
  unfold isControlled. destruct (Props.isOpen (props (self w))) as [b|] eqn:Hio.
  - by rewrite bool_decide_eq_true_2 by eauto.
  - rewrite bool_decide_eq_false_2 by (by intros [? ?]). constructor; [|done].
    by intros s _.
Qed.

Ltac blocked_step :=
  first
    [ apply blocked_openMenu | apply blocked_closeMenu
    | apply blocked_bind; [|intros ?]
    | apply blocked_ret | apply blocked_gets | apply blocked_emit | apply blocked_call_opt
    | apply blocked_clearTimeout
    | apply blocked_when
    | by apply blocked_setState_object
    | match goal with
      | |- keeps_blocked (if ?b then _ else _) => destruct b
      | |- keeps_blocked (match ?o with _ => _ end) => destruct o
      end ].

Ltac blockeds := repeat blocked_step.

Lemma blocked_keydown (cb : bool) (e : Event) :
  keeps_blocked (T:=T) (makeHandleInputKeydown cb e).
Proof. unfold makeHandleInputKeydown, handleSelect, moveHighlightedIndex. blockeds. Qed.

Lemma blocked_change (cb : bool) (e : Event) :
  keeps_blocked (T:=T) (makeHandleInputChange cb e).
Proof. unfold makeHandleInputChange. blockeds. Qed.

Lemma blocked_focus (cb : bool) (e : Event) :
  keeps_blocked (T:=T) (makeHandleInputFocus cb e).
Proof. unfold makeHandleInputFocus. blockeds. Qed.

Lemma blocked_click (X : T) (index : Z) (e : Event) :
  keeps_blocked (T:=T) (makeHandleItemClick X index e).
Proof. unfold makeHandleItemClick, handleSelect. blockeds. Qed.

Lemma blocked_mouseEnter (X : T) (index : Z) (e : Event) :
  keeps_blocked (T:=T) (makeHandleMouseEnter X index e).
Proof. unfold makeHandleMouseEnter. blockeds. Qed.

Lemma blocked_blur (cb : bool) (e : Event) :
  keeps_blocked (T:=T) (makehandleInputBlur cb e).
Proof. apply blocked_same. intros w. by rewrite blur_exec. Qed.

Lemma blocked_mouseDown : keeps_blocked (T:=T) handleMenuMouseDown.
Proof. apply blocked_same. intros w. by rewrite mousedown_exec. Qed.

Lemma blocked_clickOutside : keeps_blocked (T:=T) handleClickOutside.
Proof. apply blocked_same. intros w. by rewrite clickOutside_exec. Qed.

Lemma flag_apply_updates (v : bool) (s : State.t T) (us : list (Update T)) :
  State.isOpen s = v → Forall (keeps_flag v) us → State.isOpen (apply_updates s us) = v.
Proof.
  intros Hs Hus. revert s Hs. induction Hus as [|u us Hu _ IH]; intros s Hs; [done|].
  simpl. apply IH. by apply Hu.
Qed.

Lemma blocked_flush : keeps_blocked (T:=T) flush.
Proof.
  intros w (Hb & Hs & Hq). destruct (flush_spec w) as (Ep & Es & Eq & _).
  split; [|done].
  unfold blocked. simpl. rewrite Ep, Es, Eq. repeat split; [done| |done].
  by apply flag_apply_updates.
Qed.

Lemma blocked_dispatch (h : M T unit) : keeps_blocked h → keeps_blocked (T:=T) (dispatch h).
Proof. intros Hh. unfold dispatch. apply blocked_bind; [done|intros _; apply blocked_flush]. Qed.

Lemma blocked_run_callback (cb : TimerCallback) : keeps_blocked (T:=T) (run_callback cb).
Proof. destruct cb; simpl; blockeds. Qed.

Lemma blocked_pop_due (target : nat) : keeps_blocked (T:=T) (pop_due target).
Proof.
  apply blocked_same. intros w. unfold exec, pop_due.
  destruct (pop_earliest _) as [[t rest]|]; [|done]. by destruct (_ <=? _)%nat.
Qed.

Lemma blocked_run_timers (fuel target : nat) :
  keeps_blocked (T:=T) (run_timers fuel target).
Proof.
  induction fuel as [|fuel IH]; simpl; [apply blocked_ret|].
  apply blocked_bind; [apply blocked_pop_due|]. intros [t|]; [|apply blocked_ret].
  apply blocked_bind; [|done]. apply blocked_dispatch, blocked_run_callback.
Qed.

Lemma blocked_advance (dt : nat) : keeps_blocked (T:=T) (advance dt).
Proof.
  intros w Hw. rewrite advance_exec.
  by destruct (blocked_run_timers (length (queue (window w))) (now (window w) + dt) w Hw).
Qed.

Lemma blocked_deliver (ev : HostEvent (T:=T)) : keeps_blocked (deliver ev).
Proof.
  destruct ev; simpl; try apply blocked_dispatch.
  - apply blocked_change.
  - apply blocked_focus.
  - apply blocked_blur.
  - apply blocked_keydown.
  - apply blocked_click.
  - apply blocked_mouseEnter.
  - apply blocked_mouseDown.
  - apply blocked_clickOutside.
  - apply blocked_openMenu.
  - apply blocked_closeMenu.
  - apply blocked_advance.
Qed.

Lemma blocked_mount (p : Props.t T) :
  Props.disabled p || bool_decide (is_Some (Props.isOpen p)) = true →
  blocked (mount p).
Proof.
  intros Hb. unfold mount. rewrite exec_bind.
  match goal with |- context [exec render ?w0] =>
    pose proof (render_frame w0) as [Ep Es Eq _ _ _]; simpl in *;
    set (w1 := exec render w0) in *; set (r := eval render w0) end.
  apply (blocked_self_fields w1); [by destruct r..|].
  unfold blocked. simpl. rewrite Ep, Es, Eq. done.
Qed.

(** X17: a disabled component never opens, and a controlled one shows what its
    caller says: whatever the host delivers, the open flag, internal and
    reported, is the one the component mounted with. *)
Theorem disabled_or_controlled_flag_is_fixed
    (p : Props.t T) (evs : list (HostEvent (T:=T))) :
  Props.disabled p || bool_decide (is_Some (Props.isOpen p)) = true →
  let w := exec (deliver_all evs) (mount p) in
  State.isOpen (state (self w)) = truthy (Props.isOpen p)
  ∧ isOpen (self w) = truthy (Props.isOpen p)
  ∧ props (self w) = p.
Proof.
  intros Hb w.
  assert (blocked w ∧ props (self w) = p) as [(_ & Hs & _) Hp].
  { subst w.
    assert (blocked (mount p) ∧ props (self (mount p)) = p) as Hm.
    { split; [by apply blocked_mount|].
      unfold mount. rewrite exec_bind.
      match goal with |- context [exec render ?w0] =>
        pose proof (render_frame w0) as [Ep _ _ _ _ _]; simpl in *;
        set (w1 := exec render w0) in *; set (r := eval render w0) end.
      rewrite <- Ep. by destruct r. }
    revert Hm. generalize (mount p).
    induction evs as [|ev evs IH]; intros w [Hw Hp]; [done|].
    simpl. rewrite exec_bind. apply IH.
    destruct (blocked_deliver ev w Hw) as [Hw' Hp']. split; [done|congruence]. }
  rewrite Hp in Hs. repeat split; [done| |done].
  unfold isOpen. rewrite Hp. destruct (Props.isOpen p) as [[|]|] eqn:Hio; try done.
Qed.
End Blocked.


Section ClickAfterBlur.
Context {T : Type} `{!Item T}.

Lemma receiveProps_silent (nextProps : Props.t T) :
  silent (T:=T) (exec (receiveProps nextProps)).
Proof.
  intros w. unfold receiveProps. rewrite exec_bind.
  set (w0 := exec (UNSAFE_componentWillReceiveProps nextProps emptyContextObject) w).
  assert (trace w0 = trace w) as <-.
  { subst w0. unfold UNSAFE_componentWillReceiveProps.
    rewrite exec_bind, exec_gets, eval_gets.
    by match goal with |- context [if ?b then _ else _] => destruct b end. }
  rewrite !exec_bind, !exec_gets, !eval_gets.
  set (w1 := exec (modify _) _).
  assert (trace w1 = trace w0) as <- by done.
  destruct (render_silent w1) as (a1 & E1 & N1).
  destruct (eval render w1) as [exn|].
  - exists (a1 ++ [Uncaught exn]). simpl. rewrite E1, <- app_assoc. split; [done|].
    unfold notifications in *. by rewrite List.filter_app, N1.
  - exists a1. by rewrite <- E1.
Qed.

(** X18: clicking an item within 200 time units of the blur selects it and
    closes the menu once: [onSelect] and then [onClose] are called, the
    blur-close timer is cancelled, so the caller's [onBlur] is never called
    and nothing closes a second time.  The highlight ends on the clicked
    item, unless the parent re-rendered in the batch of the click: then the
    receive-props hook has put it back on the default index. *)
Theorem click_after_blur_selects_once
    (cb parent : bool) (X : T) (index : Z) (d d' : nat) (w : World T) :
  idle w →
  queue (window w) = [] →
  truthy (item_disabled X) = false →
  Props.closeOnSelect (props (self w)) = true →
  isControlled (self w) = false →
  (d < 200)%nat →
  let p := props (self w) in
  let w' := exec (blur_then_click cb parent X index d d') w in
  notifications (trace w')
  = notifications (trace w)
    ++ (if Props.onSelect p then [OnSelect X (state (self w)) MouseEvent] else [])
    ++ (if Props.onClose p then [OnClose] else [])
  ∧ state (self w')
    = {| State.highlightedIndex :=
           if parent then default 0 (Props.defaultHighlightedIndex p) else index;
         State.inputValue := Props.itemToString p X;
         State.isOpen := false;
         State.selectedItem := Some X |}
  ∧ queue (window w') = [].
Proof.
  intros Hidle Hq Hd Hc Hu Hlt p w'. unfold idle in Hidle.
  set (armed := mkTimer (next_id (window w)) (now (window w) + 200)
                  (BlurClose FocusEvent cb)).
  assert (exec (dispatch (makehandleInputBlur cb FocusEvent)) w
          = mkWorld (set_blurTimeout (Some (next_id (window w))) (self w))
              (mkWindow (now (window w)) (S (next_id (window w))) [armed])
              (trace w)) as Hw1.
  { rewrite dispatch_self_idle; rewrite blur_exec; [|done].
    rewrite Hq. by rewrite from_option_cancel_nil. }
  subst w'. unfold blur_then_click.
  rewrite exec_bind, Hw1, exec_bind, advance_exec.
  cbn [self window trace now next_id queue length].
  rewrite run_timers_quiet by (subst armed; simpl; lia).
  cbn [self window trace now next_id queue].
  set (w2 := mkWorld (set_blurTimeout _ (self w)) _ (trace w)).
  rewrite exec_bind.
  set (clicked :=
         [UObject {| Patch.highlightedIndex := Some index;
                     Patch.inputValue := None;
                     Patch.isOpen := None;
                     Patch.selectedItem := None |};
          UFunction (fun s =>
            {| Patch.highlightedIndex := None;
               Patch.inputValue :=
                 Some (if truthy (Props.resetInputOnClose p)
                       then EmptyString else State.inputValue s);
               Patch.isOpen := Some false;
               Patch.selectedItem := None |});
          UObject {| Patch.highlightedIndex := None;
                     Patch.inputValue := Some (Props.itemToString p X);
                     Patch.isOpen := None;
                     Patch.selectedItem := Some (Some X) |}]).
  set (told := trace w
               ++ (if Props.onSelect p then [OnSelect X (state (self w)) MouseEvent] else [])
               ++ (if Props.onClose p then [OnClose] else [])).
  assert (exec (makeHandleItemClick X index MouseEvent) w2
          = mkWorld (set_pending clicked (self w2))
              (mkWindow (now (window w) + d) (S (next_id (window w))) [])
              told) as Hclick.
  { rewrite click_selects by done. subst w2 armed clicked told.
    cbn [self blurTimeout set_blurTimeout]. rewrite clearTimeout_some.
    cbn [self window now next_id queue trace]. rewrite cancel_hit.
    rewrite handleSelect_closing by done.
    cbn. rewrite Hidle. unfold isControlled in *. cbn. by rewrite Hu. }
  set (w3 := exec (makeHandleItemClick X index MouseEvent) w2) in *.
  assert (trace w3 = told) as Ht by (by rewrite Hclick).
  assert (queue (window w3) = []) as Hq2 by (by rewrite Hclick).
  assert (apply_updates (state (self w3)) (pending (self w3))
          = {| State.highlightedIndex := index;
               State.inputValue := Props.itemToString p X;
               State.isOpen := false;
               State.selectedItem := Some X |}) as Hnext
    by (by rewrite Hclick).
  assert (props (self w3) = p) as Hp3 by (by rewrite Hclick).
  match goal with |- context [exec (advance d') (exec ?c w2)] => set (batch := c) end.
  assert (∃ noise,
            trace (exec batch w2) = told ++ noise
            ∧ notifications noise = []
            ∧ state (self (exec batch w2))
              = {| State.highlightedIndex :=
                     if parent then default 0 (Props.defaultHighlightedIndex p) else index;
                   State.inputValue := Props.itemToString p X;
                   State.isOpen := false;
                   State.selectedItem := Some X |}
            ∧ queue (window (exec batch w2)) = [])
    as (noise & Etr & Hn & Hs & Hq3).
  { subst batch. destruct parent.
    - rewrite exec_bind, exec_gets, eval_gets. unfold dispatch_rerendering.
      rewrite exec_bind. fold w3.
      change (props (self w2)) with p.
      destruct (receiveProps_silent p w3) as (noise & Etr & Hn).
      destruct (receiveProps_spec p w3) as (_ & Hs & _ & Hwin & _).
      rewrite receive_hook_resets in Hs, Hwin by (left; exact Hc).
      exists noise. split; [by rewrite Etr, Ht|]. split; [exact Hn|]. split.
      + rewrite Hs. unfold nextState. cbn [self state pending set_pending].
        by rewrite apply_updates_app, Hnext, Hp3.
      + by rewrite Hwin.
    - unfold dispatch. rewrite exec_bind. fold w3.
      destruct (flush_silent w3) as (noise & Etr & Hn).
      destruct (flush_spec w3) as (_ & Hs & _ & Hwin & _).
      exists noise. split; [by rewrite Etr, Ht|]. split; [exact Hn|]. split.
      + by rewrite Hs.
      + by rewrite Hwin. }
  rewrite advance_exec, Hq3. cbn [length run_timers].
  change (exec (mret ()) ?x) with x.
  cbn [self window trace queue]. split; [|split; [exact Hs|exact Hq3]].
  rewrite Etr. subst told.
  unfold notifications in *. rewrite !List.filter_app, Hn, app_nil_r.
  by destruct (Props.onSelect p), (Props.onClose p).
Qed.

Lemma run_calls_itemCount (calls : list (BinderCall T)) (w : World T) :
  forallb is_item_call calls = true →
  itemCount (self (exec (run_calls calls) w)) = itemCount (self w).
Proof.
  revert w. induction calls as [|c calls IH]; intros w Hc; [done|].
  simpl in Hc. apply andb_prop in Hc as [Hc1 Hc2].
  destruct c as [a|a]; [done|]. cbn [run_calls]. rewrite exec_bind.
  assert (itemCount (self (exec (getItemProps a) w)) = itemCount (self w)) as Hi.
  { by destruct a as [[idx [it|]]|]. }
  destruct (eval (getItemProps a) w); [done|]. by rewrite IH.
Qed.

(** X5: a re-render whose callback never calls [getMenuProps] leaves
    [itemCount] as it was: the update cycle clears the registry, not the
    item count, which navigation goes on using. *)
Theorem itemCount_survives_rerender (w : World T) :
  pending (self w) ≠ [] →
  forallb is_item_call (Props.children (props (self w)) (nextState w)) = true →
  itemCount (self (exec flush w)) = itemCount (self w)
  ∧ listSize (self (exec flush w))
    = default (Z.of_nat (size (items (self (exec flush w))))) (itemCount (self w)).
Proof.
  intros Hp Hc.
  assert (itemCount (self (exec flush w)) = itemCount (self w)) as Hi.
  { unfold flush. rewrite exec_bind, exec_gets, eval_gets.
    destruct (pending (self w)) as [|u us] eqn:Hpe; [done|].
    rewrite !exec_bind, exec_gets, eval_gets.
    set (w0 := exec (modify _) _).
    assert (itemCount (self (exec render w0)) = itemCount (self w)) as Hr.
    { unfold render. rewrite !exec_bind, !exec_gets, !eval_gets.
      rewrite run_calls_itemCount; [done|].
      subst w0. cbn. unfold nextState in Hc. by rewrite Hpe in Hc. }
    by destruct (eval render w0). }
  split; [done|]. unfold listSize. by rewrite Hi.
Qed.
End ClickAfterBlur.


Section Rerender.
Context {T : Type} `{!Item T}.

Lemma imap_item_calls (f : nat → T → BinderCall T) (l : list T) :
  (∀ i y, is_item_call (f i y) = true) → forallb is_item_call (imap f l) = true.
Proof.
  revert f. induction l as [|y l IH]; intros f Hf; [done|].
  rewrite imap_cons. simpl. rewrite Hf. simpl. apply IH. intros i z. apply Hf.
Qed.

Lemma register_all_item_calls (l : list T) :
  forallb is_item_call (register_all l) = true.
Proof. by apply imap_item_calls. Qed.

(** X4: an update cycle registers afresh: when the render callback binds the
    menu and registers the items of [l] in order, the registry afterwards
    holds exactly [l], whatever it held before, and the item count is the
    one given to [getMenuProps]. *)
Theorem rerender_registers_afresh
    (a : option (option Z)) (l : list T) (w : World T) :
  pending (self w) ≠ [] →
  Props.children (props (self w)) (nextState w) = CallGetMenuProps a :: register_all l →
  let w' := exec flush w in
  (∀ i : nat, items (self w') !! Z.of_nat i = Some <$> l !! i)
  ∧ (∀ z : Z, z < 0 ∨ Z.of_nat (length l) ≤ z → items (self w') !! z = None)
  ∧ size (items (self w')) = length l
  ∧ itemCount (self w') = mjoin a
  ∧ trace w' = trace w.
Proof.
  intros Hp Hc w'.
  destruct (pending (self w)) as [|u us] eqn:Hpe; [done|].
  set (w0 := exec (getMenuProps a)
               (exec (modify (λ c, set_pending [] (set_state (nextState w) c)))
                  (exec UNSAFE_componentWillUpdate w))).
  assert (w' = exec (run_calls (register_all l)) w0) as Hw'.
  { subst w'. unfold flush. rewrite exec_bind, exec_gets, eval_gets, Hpe.
    rewrite !exec_bind, exec_gets, eval_gets.
    unfold nextState in *. rewrite Hpe in *.
    set (w1 := exec (modify _) _).
    assert (exec render w1 = exec (run_calls (register_all l)) w0
            ∧ eval render w1 = eval (run_calls (register_all l)) w0) as [Er Ev].
    { unfold render. rewrite !exec_bind, !eval_bind, !exec_gets, !eval_gets.
      subst w1. cbn [self props state exec modify snd set_pending set_state
                      UNSAFE_componentWillUpdate set_items].
      rewrite Hc. cbn [run_calls]. rewrite exec_bind, eval_bind.
      subst w0. unfold nextState. rewrite Hpe. by split. }
    rewrite Er, Ev.
    destruct (run_register_all l w0 eq_refl) as (_ & -> & _).
    done. }
  destruct (run_register_all l w0 eq_refl) as (Hh & _ & Ht).
  destruct (holds_lookup _ _ Hh) as (Hl & Hn & Hs).
  rewrite Hw'. repeat split; try done.
  rewrite run_calls_itemCount; [done|]. apply register_all_item_calls.
Qed.
End Rerender.


Lemma only_blur_mousedown_outside_click_arm_timers_witness :
  let w := blurred in
  let w' := exec (deliver (InputChange false "ab")) w in
  arms_timer (InputChange false "ab" : HostEvent (T:=Entry)) = false
  ∧ queue (window w') `sublist_of` queue (window w)
  ∧ next_id (window w') = next_id (window w)
  ∧ blurTimeout (self w') = Some 1%nat.
Proof.
  intros w w'.
  assert (arms_timer (InputChange false "ab" : HostEvent (T:=Entry)) = false) as Hev
    by reflexivity.
  destruct (only_blur_mousedown_outside_click_arm_timers (InputChange false "ab") w Hev)
    as (Hq & Hn & Hb & _).
  split; [exact Hev|]. split; [exact Hq|]. split; [exact Hn|].
  fold w' in Hb. rewrite Hb. vm_compute. reflexivity.
Defined.

Lemma blur_rearms_the_close_timer_witness :
  let w := blurred in
  let w' := exec (dispatch (makehandleInputBlur true FocusEvent)) w in
  blur_tracked w = true
  ∧ List.filter is_blur_close (queue (window w)) = [mkTimer 1 200 (BlurClose FocusEvent true)]
  ∧ List.filter is_blur_close (queue (window w')) = [mkTimer 2 250 (BlurClose FocusEvent true)]
  ∧ blurTimeout (self w') = Some 2%nat.
Proof.
  intros w w'.
  assert (blur_tracked w = true) as Hb by (vm_compute; reflexivity).
  destruct (blur_rearms_the_close_timer true FocusEvent w Hb) as (Hq & Hh & _).
  split; [exact Hb|]. split; [vm_compute; reflexivity|].
  split; [exact Hq|exact Hh].
Defined.

Lemma escape_closes_witness :
  let w := opened in
  let e := KeyboardEvent "Escape" in
  let h := makeHandleInputKeydown true e in
  idle w
  ∧ State.isOpen (state (self w)) = true
  ∧ trace (exec h w) = trace w ++ [OnClose; OnKeyDown e]
  ∧ state (self (exec (dispatch h) w)) = State.mk 0 EmptyString false None.
Proof.
  intros w e h.
  assert (idle w) as Hi by reflexivity.
  destruct (escape_closes true w Hi) as (Ht & _ & Hs).
  split; [exact Hi|]. split; [vm_compute; reflexivity|]. split; [exact Ht|].
  apply Hs. vm_compute. reflexivity.
Defined.

Lemma disabled_item_is_inert_witness :
  let w := disabled_highlighted in
  let X := mkEntry 1 (Some true) in
  let w' := exec (makeHandleInputKeydown false (KeyboardEvent "Enter")) w in
  truthy (item_disabled X) = true
  ∧ exec (makeHandleItemClick X 0 MouseEvent) w = w
  ∧ exec (makeHandleMouseEnter X 0 MouseEvent) w = w
  ∧ self w' = self w
  ∧ List.filter is_onSelect (trace w') = List.filter is_onSelect (trace w).
Proof.
  intros w X w'.
  assert (truthy (item_disabled X) = true) as Hd by reflexivity.
  destruct (disabled_item_is_inert X 0 MouseEvent false "Enter" w Hd) as (Hc & Hm & Hk).
  assert (items (self w) !! State.highlightedIndex (state (self w)) = Some (Some X)) as Hi
    by (vm_compute; reflexivity).
  destruct (Hk Hi (or_introl eq_refl)) as (Hs & _ & Ht).
  split; [exact Hd|]. split; [exact Hc|]. split; [exact Hm|]. split; [exact Hs|exact Ht].
Defined.

Lemma item_click_cancels_blur_close_witness :
  let w := blurred in
  let X := mkEntry 2 None in
  let w' := exec (dispatch (makeHandleItemClick X 1 MouseEvent)) w in
  (truthy (item_disabled X) = false ∧ blur_tracked w = true)
  ∧ queue (window w) = [mkTimer 1 200 (BlurClose FocusEvent true)]
  ∧ queue (window w') = [].
Proof.
  intros w X w'.
  assert (truthy (item_disabled X) = false) as Hd by reflexivity.
  assert (blur_tracked w = true) as Hb by (vm_compute; reflexivity).
  destruct (item_click_cancels_blur_close X 1 MouseEvent w Hd Hb) as (Hq & _).
  split; [by split|]. split; [vm_compute; reflexivity|].
  fold w' in Hq. rewrite Hq. vm_compute. reflexivity.
Defined.

Lemma blur_closes_after_200_witness :
  let w := opened in
  let early := exec (dispatch (makehandleInputBlur true FocusEvent);; advance 199) w in
  let late := exec (dispatch (makehandleInputBlur true FocusEvent);; advance 200) w in
  (idle w ∧ queue (window w) = [])
  ∧ trace early = trace w
  ∧ notifications (trace late) = notifications (trace w) ++ [OnClose; OnBlur FocusEvent]
  ∧ State.isOpen (state (self late)) = false
  ∧ queue (window late) = [].
Proof.
  intros w early late.
  assert (idle w) as Hi by reflexivity.
  assert (queue (window w) = []) as Hq by reflexivity.
  destruct (blur_closes_after_200 true FocusEvent 199 w Hi Hq) as (Hearly & _).
  destruct (blur_closes_after_200 true FocusEvent 200 w Hi Hq) as (_ & Hlate).
  destruct (Hearly ltac:(lia)) as (Ht & _).
  destruct (Hlate ltac:(lia)) as (Hn & Hq' & Ho).
  split; [by split|]. split; [exact Ht|]. split; [exact Hn|].
  split; [apply Ho; vm_compute; reflexivity|exact Hq'].
Defined.

Lemma disabled_never_opens_witness :
  let w := disabled_closed in
  (Props.disabled (props (self w)) = true ∧ idle w)
  ∧ self (exec openMenu w) = self w
  ∧ trace (exec openMenu w) = trace w ++ [OnOpen]
  ∧ state (self (exec (dispatch (makeHandleInputChange false (ChangeEvent "ab"))) w))
    = State.mk 0 "ab" false None.
Proof.
  intros w.
  assert (Props.disabled (props (self w)) = true) as Hd by reflexivity.
  assert (idle w) as Hi by reflexivity.
  destruct (disabled_never_opens false "ab" w Hd Hi) as ((Hs & Ht) & _ & Hc).
  split; [by split|]. split; [exact Hs|]. split; [exact Ht|exact Hc].
Defined.

Lemma focus_opens_witness :
  let w := third_highlighted in
  (isControlled (self w) = false ∧ Props.disabled (props (self w)) = false ∧ idle w)
  ∧ state (self w) = State.mk 2 EmptyString false None
  ∧ state (self (exec (dispatch (makeHandleInputFocus false FocusEvent)) w))
    = State.mk 0 EmptyString true None.
Proof.
  intros w.
  assert (isControlled (self w) = false) as Hu by (vm_compute; reflexivity).
  assert (Props.disabled (props (self w)) = false) as Hd by reflexivity.
  assert (idle w) as Hi by reflexivity.
  pose proof (focus_opens false w Hu Hd Hi) as Hf.
  split; [by repeat split|]. split; [vm_compute; reflexivity|exact Hf].
Defined.

Lemma registration_in_order_witness :
  let w := mount (listening_props (fun _ => [])) in
  let w1 := exec (run_calls (register_all three_items)) w in
  let w2 := exec (run_calls (append_all three_items)) w in
  items (self w) = ∅
  ∧ items (self w1) = items (self w2)
  ∧ items (self w1) !! 2 = Some (Some (mkEntry 3 None))
  ∧ items (self w1) !! 3 = None
  ∧ size (items (self w1)) = 3%nat.
Proof.
  intros w w1 w2.
  assert (items (self w) = ∅) as He by reflexivity.
  destruct (registration_in_order three_items w He) as (Heq & Hl & Hn & Hs & _).
  split; [exact He|]. split; [exact Heq|].
  split; [exact (Hl 2%nat)|]. split; [apply Hn; right; simpl; lia|exact Hs].
Defined.

Lemma rerender_registers_afresh_witness :
  let w := hovering in
  let w' := exec flush w in
  (pending (self w) ≠ []
   ∧ Props.children (props (self w)) (nextState w)
     = CallGetMenuProps None :: register_all three_items)
  ∧ items (self w') !! 1 = Some (Some (mkEntry 2 None))
  ∧ size (items (self w')) = 3%nat
  ∧ itemCount (self w') = None.
Proof.
  intros w w'.
  assert (pending (self w) ≠ []) as Hp by (vm_compute; discriminate).
  assert (Props.children (props (self w)) (nextState w)
          = CallGetMenuProps None :: register_all three_items) as Hc by reflexivity.
  destruct (rerender_registers_afresh None three_items w Hp Hc) as (Hl & _ & Hs & Hi & _).
  split; [by split|]. split; [exact (Hl 1%nat)|]. split; [exact Hs|exact Hi].
Defined.

Lemma itemCount_survives_rerender_witness :
  let w := once_virtualised in
  (pending (self w) ≠ []
   ∧ forallb is_item_call (Props.children (props (self w)) (nextState w)) = true)
  ∧ itemCount (self w) = Some 10
  ∧ itemCount (self (exec flush w)) = Some 10
  ∧ size (items (self (exec flush w))) = 3%nat
  ∧ listSize (self (exec flush w)) = 10.
Proof.
  intros w.
  assert (pending (self w) ≠ []) as Hp by (vm_compute; discriminate).
  assert (forallb is_item_call (Props.children (props (self w)) (nextState w)) = true)
    as Hc by reflexivity.
  destruct (itemCount_survives_rerender w Hp Hc) as (Hi & Hl).
  split; [by split|]. split; [reflexivity|]. split; [exact Hi|].
  split; [vm_compute; reflexivity|]. rewrite Hl. vm_compute. reflexivity.
Defined.

Lemma highlightedIndex_never_negative_witness :
  let p := listening_props (list_children three_items) in
  (0 ≤ default 0 (Props.defaultHighlightedIndex p)
   ∧ forallb index_nonneg session = true)
  ∧ 0 ≤ State.highlightedIndex (state (self (exec (deliver_all session) (mount p)))).
Proof.
  intros p.
  assert (0 ≤ default 0 (Props.defaultHighlightedIndex p)) as Hd by (simpl; lia).
  assert (forallb index_nonneg session = true) as He by reflexivity.
  split; [by split|]. exact (highlightedIndex_never_negative p session Hd He).
Defined.

(** The sign of the default index is not checked: a negative one is the
    highlighted index at mount. *)
Example negative_default_index :
  let p := {| Props.itemToString := entry_label;
              Props.inputIsActor := true;
              Props.disabled := false;
              Props.closeOnSelect := true;
              Props.shouldSelectWithEnter := true;
              Props.shouldSelectWithTab := false;
              Props.children := list_children three_items;
              Props.defaultHighlightedIndex := Some (-1);
              Props.defaultInputValue := None;
              Props.isOpen := None;
              Props.onClose := false;
              Props.onMenuOpen := false;
              Props.onOpen := false;
              Props.onSelect := false;
              Props.resetInputOnClose := None |} in
  State.highlightedIndex (state (self (mount p))) = -1.
Proof. reflexivity. Qed.

Lemma only_keys_and_clicks_select_witness :
  let w := third_highlighted in
  let ev : HostEvent (T:=Entry) := InputKeyDown false "Escape" in
  may_select ev = false
  ∧ List.filter is_onSelect (trace (exec (deliver ev) w))
    = List.filter is_onSelect (trace w).
Proof.
  intros w ev.
  assert (may_select ev = false) as Hev by reflexivity.
  split; [exact Hev|]. exact (only_keys_and_clicks_select ev w Hev).
Defined.

Lemma disabled_or_controlled_flag_is_fixed_witness :
  let p := configured_props true true None (list_children three_items) in
  let w := exec (deliver_all session) (mount p) in
  Props.disabled p || bool_decide (is_Some (Props.isOpen p)) = true
  ∧ State.isOpen (state (self w)) = false
  ∧ isOpen (self w) = false.
Proof.
  intros p w.
  assert (Props.disabled p || bool_decide (is_Some (Props.isOpen p)) = true) as Hb
    by reflexivity.
  destruct (disabled_or_controlled_flag_is_fixed p session Hb) as (Hs & Ho & _).
  split; [exact Hb|]. split; [exact Hs|exact Ho].
Defined.

Lemma click_after_blur_selects_once_witness :
  let w := opened in
  let X := mkEntry 2 None in
  let w' := exec (blur_then_click true true X 1 50 500) w in
  (idle w ∧ queue (window w) = [] ∧ truthy (item_disabled X) = false
   ∧ Props.closeOnSelect (props (self w)) = true ∧ isControlled (self w) = false
   ∧ (50 < 200)%nat)
  ∧ notifications (trace w')
    = notifications (trace w) ++ [OnSelect X (state (self w)) MouseEvent; OnClose]
  ∧ state (self w') = State.mk 0 "two" false (Some X)
  ∧ queue (window w') = [].
Proof.
  intros w X w'.
  assert (idle w) as Hi by reflexivity.
  assert (queue (window w) = []) as Hq by reflexivity.
  assert (truthy (item_disabled X) = false) as Hd by reflexivity.
  assert (Props.closeOnSelect (props (self w)) = true) as Hc by reflexivity.
  assert (isControlled (self w) = false) as Hu by (vm_compute; reflexivity).
  assert (50 < 200)%nat as Hlt by lia.
  destruct (click_after_blur_selects_once true true X 1 50 500 w Hi Hq Hd Hc Hu Hlt)
    as (Hn & Hs & Hq').
  split; [by repeat split|]. split; [exact Hn|]. split; [exact Hs|exact Hq'].
Defined.
